(** * mcp-swagger: the schema resolver, the flattening engine, the tool
      synthesizer and the structural validator, embedded in Rocq.

    Sources embedded here:
      - src/types/index.ts      (Schema, Parameter, ApiEndpoint, ...)
      - src/core/generator.ts   (generate and everything it calls)
      - src/core/parser.ts      (convertToInternalFormat, getBaseUrl,
                                 validateSpec, getOperationId,
                                 getOperationTags, getSecurityRequirements)
      - src/core/validator.ts   (validate, validateMcpTool,
                                 validateParsedSpec)
      - src/index.ts            (generateServer and generateBatchServer, up
                                 to the call of generateServerCode)
      - src/utils/template-utils.ts (the helper toValidIdentifier)

    Conventions of the embedding.
      - Documents, specifications and schemas have the shape that
        types/index.ts declares.  A field is an [option] where the
        interface marks it optional or where the code tests it for presence.
      - [validate] is handed the parsed file as it is.  Its documents
        ([Validator.RawSpec]) may hold [null] where the code reads a
        property of an entry; the [TypeError] of such a read is caught by
        the [catch] block of [validate].  [Validator.rawSpec] is a document
        of the declared shape as [validate] sees it.
      - A JavaScript string is a [string]; case mapping is the ASCII one and
        leaves every other character alone.
      - A test [if (x.f)] on a string field is JavaScript truthiness (present
        and non-empty); on an object or array field it is presence.
      - A JavaScript object that the code enumerates ([Object.entries],
        [Object.keys], [Object.assign]) is a [JsObj]: its entries in
        enumeration order (insertion order; property names that are canonical
        array indices, which JavaScript enumerates first, are not treated
        specially, and neither is the name [__proto__], under which an
        assignment sets the prototype).
      - The schema registry is only ever read by key: its own keys are a
        [gmap].  It is a plain object, so a read of a name that is no key of
        it finds what [Object.prototype] has under that name.
      - The recursive functions take the depth of call stack they may use.
        [None] is the [RangeError] of an exhausted stack. *)

From Stdlib Require Import String Ascii List ZArith QArith Bool Lia.
From stdpp Require Import base option list strings gmap.

Import ListNotations.
Local Open Scope string_scope.
Local Open Scope list_scope.
Set Warnings "-register-all".

(** ** JavaScript strings *)

Module Js.

Definition code (c : ascii) : nat := nat_of_ascii c.

Definition isUpper (c : ascii) : bool :=
  Nat.leb 65 (code c) && Nat.leb (code c) 90.
Definition isLower (c : ascii) : bool :=
  Nat.leb 97 (code c) && Nat.leb (code c) 122.
Definition isDigit (c : ascii) : bool :=
  Nat.leb 48 (code c) && Nat.leb (code c) 57.

Definition lowerChar (c : ascii) : ascii :=
  if isUpper c then ascii_of_nat (code c + 32) else c.
Definition upperChar (c : ascii) : ascii :=
  if isLower c then ascii_of_nat (code c - 32) else c.

Fixpoint mapChars (f : ascii -> ascii) (s : string) : string :=
  match s with
  | EmptyString => EmptyString
  | String c r => String (f c) (mapChars f r)
  end.

(** [s.toLowerCase()], [s.toUpperCase()] *)
Definition toLowerCase : string -> string := mapChars lowerChar.
Definition toUpperCase : string -> string := mapChars upperChar.

(** [s.startsWith(p)] *)
Definition startsWith (s p : string) : bool := String.prefix p s.

Fixpoint dropChars (n : nat) (s : string) : string :=
  match n, s with
  | O, _ => s
  | S _, EmptyString => EmptyString
  | S k, String _ r => dropChars k r
  end.

(** [s.includes(sub)] *)
Fixpoint includes (s sub : string) : bool :=
  if String.prefix sub s then true
  else match s with
       | EmptyString => false
       | String _ r => includes r sub
       end.

(** [s.replace(pat, rep)] for a string pattern: the leftmost occurrence
    only.  Every call site passes a replacement without [$]. *)
Fixpoint replaceFirst (pat rep s : string) : string :=
  if String.prefix pat s then rep ++ dropChars (String.length pat) s
  else match s with
       | EmptyString => EmptyString
       | String c r => String c (replaceFirst pat rep r)
       end.

(** [s.replace(/[class]/g, f)]: every character of the class is replaced
    by what [f] returns for it. *)
Fixpoint replaceChars (cls : ascii -> bool) (f : ascii -> string)
         (s : string) : string :=
  match s with
  | EmptyString => EmptyString
  | String c r =>
      (if cls c then f c else String c EmptyString) ++ replaceChars cls f r
  end.

(** [s.replace(/^_/, '')] *)
Definition dropLeadingUnderscore (s : string) : string :=
  match s with
  | String "_" r => r
  | _ => s
  end.

(** [s.split(sep)] for a one-character separator. *)
Fixpoint splitAux (sep : ascii) (cur : string) (s : string) : list string :=
  match s with
  | EmptyString => [cur]
  | String c r =>
      if Ascii.eqb c sep then cur :: splitAux sep EmptyString r
      else splitAux sep (cur ++ String c EmptyString) r
  end.
Definition split (sep : ascii) (s : string) : list string :=
  splitAux sep EmptyString s.

(** [parts.join(sep)] *)
Fixpoint join (sep : string) (parts : list string) : string :=
  match parts with
  | [] => EmptyString
  | [p] => p
  | p :: rest => p ++ sep ++ join sep rest
  end.

(** Truthiness of an optional string: present and not empty. *)
Definition truthy (o : option string) : bool :=
  match o with
  | Some s => negb (String.eqb s EmptyString)
  | None => false
  end.

(** [a || b] on optional strings. *)
Definition orElse (a : option string) (b : option string) : option string :=
  if truthy a then a else b.

(** [xs.includes(x)] on an array of strings. *)
Definition arrayIncludes (xs : list string) (x : string) : bool :=
  existsb (String.eqb x) xs.

End Js.

(** ** Enumerable JavaScript objects *)

Module JsObj.
Section Obj.
Context {V : Type}.

(** [o[k]] *)
Fixpoint get (k : string) (o : list (string * V)) : option V :=
  match o with
  | [] => None
  | (k', v) :: r => if String.eqb k k' then Some v else get k r
  end.

(** [o[k] = v]: an existing key keeps its place, a new key goes last. *)
Fixpoint set (k : string) (v : V) (o : list (string * V))
  : list (string * V) :=
  match o with
  | [] => [(k, v)]
  | (k', v') :: r =>
      if String.eqb k k' then (k', v) :: r else (k', v') :: set k v r
  end.

(** [Object.assign(target, src)] *)
Definition assign (target src : list (string * V)) : list (string * V) :=
  fold_left (fun acc kv => set (fst kv) (snd kv) acc) src target.

(** [Object.keys(o)] *)
Definition keys (o : list (string * V)) : list string := map fst o.
End Obj.
End JsObj.

(** ** JSON values, for fields typed [any] *)

Inductive Json : Type :=
| JNull
| JBool (b : bool)
| JNumber (q : Q)
| JString (s : string)
| JArray (xs : list Json)
| JObject (fields : list (string * Json)).

(** JavaScript truthiness of a field typed [any]: absent, [null], [false],
    zero and the empty string are falsy, every object and array is truthy. *)
Definition jsonTruthy (v : option Json) : bool :=
  match v with
  | None => false
  | Some JNull => false
  | Some (JBool b) => b
  | Some (JNumber q) => negb (Qnum q =? 0)%Z
  | Some (JString s) => negb (String.eqb s "")
  | Some (JArray _) => true
  | Some (JObject _) => true
  end.

(** ** types/index.ts *)

(** [interface Schema] *)
Inductive Schema : Type := mkSchema {
  s_type : option string;
  s_format : option string;
  s_items : option Schema;
  s_properties : option (list (string * Schema));
  s_required : option (list string);
  s_enum : option (list Json);
  s_ref : option string;
  s_description : option string;
  s_minimum : option Q;
  s_maximum : option Q;
  s_minLength : option Q;
  s_maxLength : option Q;
  s_pattern : option string;
  s_minItems : option Q;
  s_maxItems : option Q;
  s_uniqueItems : option bool;
  s_multipleOf : option Q;
  s_exclusiveMinimum : option Q;
  s_exclusiveMaximum : option Q;
  s_example : option Json;
  s_default : option Json;
  s_nullable : option bool;
  s_readOnly : option bool;
  s_writeOnly : option bool;
  s_xml : option Json;
  s_externalDocs : option Json;
  s_deprecated : option bool;
  s_discriminator : option Json;
  s_additionalProperties : option (bool + Schema);
  s_allOf : option (list Schema);
  s_oneOf : option (list Schema);
  s_anyOf : option (list Schema);
  s_not : option Schema
}.

(** [s.properties = p], [s.required = r], [s.type = t] on a copy of [s]. *)
Definition set_properties (p : option (list (string * Schema))) (s : Schema)
  : Schema :=
  let (a1, a2, a3, _, a5, a6, a7, a8, a9, a10, a11, a12, a13, a14, a15, a16,
       a17, a18, a19, a20, a21, a22, a23, a24, a25, a26, a27, a28, a29, a30,
       a31, a32, a33) := s in
  mkSchema a1 a2 a3 p a5 a6 a7 a8 a9 a10 a11 a12 a13 a14 a15 a16 a17 a18 a19
           a20 a21 a22 a23 a24 a25 a26 a27 a28 a29 a30 a31 a32 a33.

Definition set_required (r : option (list string)) (s : Schema) : Schema :=
  let (a1, a2, a3, a4, _, a6, a7, a8, a9, a10, a11, a12, a13, a14, a15, a16,
       a17, a18, a19, a20, a21, a22, a23, a24, a25, a26, a27, a28, a29, a30,
       a31, a32, a33) := s in
  mkSchema a1 a2 a3 a4 r a6 a7 a8 a9 a10 a11 a12 a13 a14 a15 a16 a17 a18 a19
           a20 a21 a22 a23 a24 a25 a26 a27 a28 a29 a30 a31 a32 a33.

Definition set_type (t : option string) (s : Schema) : Schema :=
  let (_, a2, a3, a4, a5, a6, a7, a8, a9, a10, a11, a12, a13, a14, a15, a16,
       a17, a18, a19, a20, a21, a22, a23, a24, a25, a26, a27, a28, a29, a30,
       a31, a32, a33) := s in
  mkSchema t a2 a3 a4 a5 a6 a7 a8 a9 a10 a11 a12 a13 a14 a15 a16 a17 a18 a19
           a20 a21 a22 a23 a24 a25 a26 a27 a28 a29 a30 a31 a32 a33.

(** One key of [{...a, ...b}]: [b]'s when [b] has it, else [a]'s. *)
Definition over {A : Type} (a b : option A) : option A :=
  match b with
  | Some _ => b
  | None => a
  end.

(** [{...a, ...b}] on schemas. *)
Definition spread (a b : Schema) : Schema :=
  mkSchema
    (over (s_type a) (s_type b)) (over (s_format a) (s_format b))
    (over (s_items a) (s_items b)) (over (s_properties a) (s_properties b))
    (over (s_required a) (s_required b)) (over (s_enum a) (s_enum b))
    (over (s_ref a) (s_ref b)) (over (s_description a) (s_description b))
    (over (s_minimum a) (s_minimum b)) (over (s_maximum a) (s_maximum b))
    (over (s_minLength a) (s_minLength b))
    (over (s_maxLength a) (s_maxLength b))
    (over (s_pattern a) (s_pattern b)) (over (s_minItems a) (s_minItems b))
    (over (s_maxItems a) (s_maxItems b))
    (over (s_uniqueItems a) (s_uniqueItems b))
    (over (s_multipleOf a) (s_multipleOf b))
    (over (s_exclusiveMinimum a) (s_exclusiveMinimum b))
    (over (s_exclusiveMaximum a) (s_exclusiveMaximum b))
    (over (s_example a) (s_example b)) (over (s_default a) (s_default b))
    (over (s_nullable a) (s_nullable b)) (over (s_readOnly a) (s_readOnly b))
    (over (s_writeOnly a) (s_writeOnly b)) (over (s_xml a) (s_xml b))
    (over (s_externalDocs a) (s_externalDocs b))
    (over (s_deprecated a) (s_deprecated b))
    (over (s_discriminator a) (s_discriminator b))
    (over (s_additionalProperties a) (s_additionalProperties b))
    (over (s_allOf a) (s_allOf b)) (over (s_oneOf a) (s_oneOf b))
    (over (s_anyOf a) (s_anyOf b)) (over (s_not a) (s_not b)).

(** [interface Parameter] ([Parameter] is reserved in Rocq).  [p_type] is the Swagger 2.0 parameter-level
    [type] that the validator reads next to [schema]. *)
Record ApiParameter : Type := mkParameter {
  p_name : string;
  p_in : string;
  p_required : option bool;
  p_schema : option Schema;
  p_description : option string;
  p_type : option string
}.

Record MediaType : Type := mkMediaType { mt_schema : option Schema }.

(** [interface RequestBody] *)
Record RequestBody : Type := mkRequestBody {
  rb_description : option string;
  rb_content : option (list (string * MediaType));
  rb_required : option bool
}.

(** [interface Response] *)
Record Response : Type := mkResponse {
  r_description : string;
  r_content : option (list (string * MediaType))
}.

(** [interface SecurityScheme] *)
Record SecurityScheme : Type := mkSecurityScheme {
  sc_type : option string;
  sc_description : option string;
  sc_name : option string;
  sc_in : option string;
  sc_scheme : option string;
  sc_bearerFormat : option string;
  sc_flows : option Json;
  sc_openIdConnectUrl : option string
}.

(** [interface SecurityRequirement]: scheme name to scopes. *)
Definition SecurityRequirement : Type := list (string * list string).

Record Server : Type := mkServer {
  sv_url : string;
  sv_description : option string
}.

Record Info : Type := mkInfo {
  i_title : option string;
  i_version : option string;
  i_description : option string
}.

(** [interface ApiEndpoint] *)
Record ApiEndpoint : Type := mkApiEndpoint {
  e_path : string;
  e_method : string;
  e_operationId : option string;
  e_summary : option string;
  e_description : option string;
  e_tags : option (list string);
  e_parameters : list ApiParameter;
  e_requestBody : option RequestBody;
  e_responses : option (list (string * Response));
  e_security : option (list SecurityRequirement)
}.

(** [interface ParsedApiSpec] *)
Record ParsedApiSpec : Type := mkParsedApiSpec {
  info : option Info;
  servers : option (list Server);
  endpoints : list ApiEndpoint;
  schemas : gmap string Schema;
  securitySchemes : list (string * SecurityScheme);
  globalSecurity : option (list SecurityRequirement)
}.

(** One operation of a document, [SwaggerSpec['paths'][path][method]]. *)
Record Operation : Type := mkOperation {
  o_operationId : option string;
  o_summary : option string;
  o_description : option string;
  o_tags : option (list string);
  o_parameters : option (list ApiParameter);
  o_requestBody : option RequestBody;
  o_responses : option (list (string * Response));
  o_security : option (list SecurityRequirement)
}.

Record Components : Type := mkComponents {
  c_schemas : option (gmap string Schema);
  c_securitySchemes : option (list (string * SecurityScheme))
}.

(** [interface SwaggerSpec], with the Swagger 2.0 keys that the code reads
    through [as any]. *)
Record SwaggerSpec : Type := mkSwaggerSpec {
  d_openapi : option string;
  d_swagger : option string;
  d_info : option Info;
  d_servers : option (list Server);
  d_paths : option (list (string * list (string * Operation)));
  d_components : option Components;
  d_security : option (list SecurityRequirement);
  d_host : option string;
  d_basePath : option string;
  d_schemes : option (list string);
  d_definitions : option (gmap string Schema);
  d_securityDefinitions : option (list (string * SecurityScheme))
}.

(** ** core/generator.ts: schemas to flat properties *)

Module Generator.

(** The property objects that [convertSchemaToZod] builds and its callers
    decorate.  A flag is [true] exactly when the key was stored (the code
    only ever stores [true]). *)
Inductive FlatProperty : Type := mkFlatProperty {
  fp_type : string;
  fp_description : string;
  fp_enum : option (list Json);
  fp_format : option string;
  fp_minimum : option Q;
  fp_maximum : option Q;
  fp_minLength : option Q;
  fp_maxLength : option Q;
  fp_pattern : option string;
  fp_items : option FlatProperty;
  isPathParam : bool;
  isQueryParam : bool;
  isHeaderParam : bool;
  isBodyParam : bool;
  originalPath : option string;
  parentObject : option string;
  isFlattened : bool
}.

Definition mark_path (p : FlatProperty) : FlatProperty :=
  let (a1, a2, a3, a4, a5, a6, a7, a8, a9, a10, _, b2, b3, b4, c1, c2, c3) := p
  in mkFlatProperty a1 a2 a3 a4 a5 a6 a7 a8 a9 a10 true b2 b3 b4 c1 c2 c3.
Definition mark_query (p : FlatProperty) : FlatProperty :=
  let (a1, a2, a3, a4, a5, a6, a7, a8, a9, a10, b1, _, b3, b4, c1, c2, c3) := p
  in mkFlatProperty a1 a2 a3 a4 a5 a6 a7 a8 a9 a10 b1 true b3 b4 c1 c2 c3.
Definition mark_header (p : FlatProperty) : FlatProperty :=
  let (a1, a2, a3, a4, a5, a6, a7, a8, a9, a10, b1, b2, _, b4, c1, c2, c3) := p
  in mkFlatProperty a1 a2 a3 a4 a5 a6 a7 a8 a9 a10 b1 b2 true b4 c1 c2 c3.
Definition mark_body (p : FlatProperty) : FlatProperty :=
  let (a1, a2, a3, a4, a5, a6, a7, a8, a9, a10, b1, b2, b3, _, c1, c2, c3) := p
  in mkFlatProperty a1 a2 a3 a4 a5 a6 a7 a8 a9 a10 b1 b2 b3 true c1 c2 c3.

(** [flatProp.originalPath = path; flatProp.parentObject = parent;
     flatProp.isFlattened = true] *)
Definition mark_flattened (path parent : string) (p : FlatProperty)
  : FlatProperty :=
  let (a1, a2, a3, a4, a5, a6, a7, a8, a9, a10, b1, b2, b3, b4, _, _, _) := p
  in mkFlatProperty a1 a2 a3 a4 a5 a6 a7 a8 a9 a10 b1 b2 b3 b4
                    (Some path) (Some parent) true.

Definition mapOpenApiTypeToZod (type : string) : string :=
  if String.eqb type "integer" then "number"
  else if String.eqb type "number" then "number"
  else if String.eqb type "boolean" then "boolean"
  else if String.eqb type "array" then "array"
  else if String.eqb type "object" then "object"
  else "string".

(** [x === 'lit'] on an optional string. *)
Definition is_str (o : option string) (lit : string) : bool :=
  match o with
  | Some s => String.eqb s lit
  | None => false
  end.

(** The value kept by [if (x) out.k = x] for a string [x]. *)
Definition keepTruthy (o : option string) : option string :=
  if Js.truthy o then o else None.

(** [convertSchemaToZod] on a schema that is there. *)
Fixpoint convertSchema (schema : Schema) (paramDescription : option string)
         {struct schema} : FlatProperty :=
  mkFlatProperty
    (mapOpenApiTypeToZod
       (match Js.orElse (s_type schema) (Some "string") with
        | Some t => t
        | None => "string"
        end))
    (match Js.orElse (s_description schema)
                     (Js.orElse paramDescription (Some "Parameter value")) with
     | Some d => d
     | None => "Parameter value"
     end)
    (s_enum schema)
    (keepTruthy (s_format schema))
    (s_minimum schema) (s_maximum schema)
    (s_minLength schema) (s_maxLength schema)
    (keepTruthy (s_pattern schema))
    (match s_items schema with
     | Some it =>
         if is_str (s_type schema) "array" then Some (convertSchema it None)
         else None
     | None => None
     end)
    false false false false None None false.

Definition convertSchemaToZod (schema : option Schema)
           (paramName : option string) (paramDescription : option string)
  : FlatProperty :=
  match schema with
  | None =>
      mkFlatProperty "string"
        (match Js.orElse paramDescription (Some "Parameter value") with
         | Some d => d
         | None => "Parameter value"
         end)
        None None None None None None None None
        false false false false None None false
  | Some s => convertSchema s paramDescription
  end.

(** ** core/generator.ts: the schema resolver *)

Definition componentsPrefix : string := "#/components/schemas/".
Definition definitionsPrefix : string := "#/definitions/".

(** The registry is a plain object, and [spec.schemas[schemaName]] is a
    property read: a name that is no key of the registry is looked up in
    [Object.prototype].  These are the names found there. *)
Definition objectPrototypeNames : list string :=
  ["constructor"; "__defineGetter__"; "__defineSetter__"; "hasOwnProperty";
   "__lookupGetter__"; "__lookupSetter__"; "isPrototypeOf";
   "propertyIsEnumerable"; "toString"; "valueOf"; "__proto__";
   "toLocaleString"].

(** What the read finds under such a name: a function of [Object.prototype]
    (the prototype itself under [__proto__]).  It is truthy, it has none of
    the fields of [Schema], and spreading it copies nothing: read as a
    schema, which is how the callers read it, it is the schema without
    fields. *)
Definition inheritedMember : Schema :=
  mkSchema None None None None None None None None None None None None None
           None None None None None None None None None None None None None
           None None None None None None None.

(** [spec.schemas[schemaName] || null]; every value of the registry is an
    object, hence truthy. *)
Definition schemaNamed (spec : ParsedApiSpec) (schemaName : string)
  : option Schema :=
  match schemas spec !! schemaName with
  | Some s => Some s
  | None =>
      if Js.arrayIncludes objectPrototypeNames schemaName
      then Some inheritedMember
      else None
  end.

(** No statement of the [try] block throws ([ref] is a string and
    [spec.schemas] an object), so the [catch] is never entered. *)
Definition resolveSchemaReference (ref : string) (spec : ParsedApiSpec)
  : option Schema :=
  if Js.startsWith ref componentsPrefix then
    let schemaName := Js.replaceFirst componentsPrefix "" ref in
    schemaNamed spec schemaName
  else if Js.startsWith ref definitionsPrefix then
    let schemaName := Js.replaceFirst definitionsPrefix "" ref in
    schemaNamed spec schemaName
  else None.

(** [if (schema.$ref) { const r = resolveSchemaReference(schema.$ref, spec);
                        if (r) ... }]: the schema that [r] is, if any. *)
Definition resolvedRef (schema : Schema) (spec : ParsedApiSpec)
  : option Schema :=
  if Js.truthy (s_ref schema)
  then resolveSchemaReference (default "" (s_ref schema)) spec
  else None.

(** [let r = sub; if (sub.$ref) r = resolveSchemaReference(sub.$ref, spec) || sub] *)
Definition resolveOrSelf (sub : Schema) (spec : ParsedApiSpec) : Schema :=
  match resolvedRef sub spec with
  | Some r => r
  | None => sub
  end.

(** The three fields of [resolvedSchema] that the [allOf] and [anyOf] loops
    write, after one more member. *)
Definition mergeStep (spec : ParsedApiSpec)
           (acc : list (string * Schema) * list string * option string)
           (subSchema : Schema)
  : list (string * Schema) * list string * option string :=
  let '(props, req, ty) := acc in
  let resolvedSubSchema := resolveOrSelf subSchema spec in
  let props' :=
    match s_properties resolvedSubSchema with
    | Some p => JsObj.assign props p
    | None => props
    end in
  let req' :=
    match s_required resolvedSubSchema with
    | Some r => req ++ r
    | None => req
    end in
  let ty' :=
    if negb (Js.truthy ty) && Js.truthy (s_type resolvedSubSchema)
    then s_type resolvedSubSchema else ty in
  (props', req', ty').

(** [resolvedSchema.properties = {}; resolvedSchema.required = [];
     for (const subSchema of members) { ... }] *)
Definition mergeMembers (spec : ParsedApiSpec) (members : list Schema)
           (resolvedSchema : Schema) : Schema :=
  let '(props, req, ty) :=
    fold_left (mergeStep spec) members ([], [], s_type resolvedSchema) in
  set_type ty (set_required (Some req) (set_properties (Some props)
                                                       resolvedSchema)).

Definition resolveSchemaComposition (schema : Schema) (spec : ParsedApiSpec)
  : Schema :=
  let resolvedSchema := schema in
  let resolvedSchema :=
    match s_allOf schema with
    | Some members => mergeMembers spec members resolvedSchema
    | None => resolvedSchema
    end in
  let resolvedSchema :=
    match s_oneOf schema with
    | Some (firstSchema :: _) =>
        spread resolvedSchema (resolveOrSelf firstSchema spec)
    | _ => resolvedSchema
    end in
  let resolvedSchema :=
    match s_anyOf schema with
    | Some members => mergeMembers spec members resolvedSchema
    | None => resolvedSchema
    end in
  resolvedSchema.

Definition shouldFlattenObject (schema : Schema) : bool :=
  match s_properties schema with
  | None => false
  | Some [] => false
  | Some _ => true
  end.

(** ** core/generator.ts: the flattening engine *)

(** The pair [{ properties, required }] that both walkers build. *)
Record Extracted : Type := mkExtracted {
  ex_properties : list (string * FlatProperty);
  ex_required : list string
}.

Definition noneExtracted : Extracted := mkExtracted [] [].

(** [Object.assign(properties, r.properties); required.push(...r.required)] *)
Definition absorb (acc r : Extracted) : Extracted :=
  mkExtracted (JsObj.assign (ex_properties acc) (ex_properties r))
              (ex_required acc ++ ex_required r).

(** [properties[name] = prop] *)
Definition store (name : string) (prop : FlatProperty) (acc : Extracted)
  : Extracted :=
  mkExtracted (JsObj.set name prop (ex_properties acc)) (ex_required acc).

(** [required.push(...names)] *)
Definition require (names : list string) (acc : Extracted) : Extracted :=
  mkExtracted (ex_properties acc) (ex_required acc ++ names).

(** A [for ... of] loop whose body may overflow the stack. *)
Fixpoint forEachM {A S : Type} (body : S -> A -> option S) (xs : list A)
         (st : S) : option S :=
  match xs with
  | [] => Some st
  | x :: rest =>
      match body st x with
      | Some st' => forEachM body rest st'
      | None => None
      end
  end.

Definition nonEmpty (s : string) : bool := negb (String.eqb s "").

(** [prefix ? `${prefix}_${propName}` : `${parentName}_${propName}`] *)
Definition flattenedNameOf (parentName prefix propName : string) : string :=
  if nonEmpty prefix then prefix ++ "_" ++ propName
  else parentName ++ "_" ++ propName.

Definition isUnderscore (c : ascii) : bool := Ascii.eqb c "_".
Definition isDash (c : ascii) : bool := Ascii.eqb c "-".

(** [prefix
      ? `${parentName}.${prefix.replace(parentName + '_', '')
                               .replace(/_/g, '.')}.${propName}`
      : `${parentName}.${propName}`] *)
Definition originalPathOf (parentName prefix propName : string) : string :=
  if nonEmpty prefix then
    parentName ++ "." ++
    Js.replaceChars isUnderscore (fun _ => ".")
      (Js.replaceFirst (parentName ++ "_") "" prefix) ++
    "." ++ propName
  else parentName ++ "." ++ propName.

(** [schema.required && schema.required.includes(propName)] *)
Definition listedRequired (schema : Schema) (propName : string) : bool :=
  match s_required schema with
  | Some r => Js.arrayIncludes r propName
  | None => false
  end.

(** [resolvedSchema.type === 'object' && resolvedSchema.properties] *)
Definition isNestedObject (schema : Schema) : bool :=
  is_str (s_type schema) "object" &&
  match s_properties schema with Some _ => true | None => false end.

(** The body of the loop of [flattenNestedObject]; [recur] is the
    recursive call [flattenNestedObject(resolvedSchema, spec, parentName,
    flattenedName)]. *)
Definition flattenStep (recur : Schema -> string -> option Extracted)
           (schema : Schema) (spec : ParsedApiSpec)
           (parentName prefix : string)
           (acc : Extracted) (entry : string * Schema) : option Extracted :=
  let (propName, propSchema) := entry in
  let flattenedName := flattenedNameOf parentName prefix propName in
  let resolvedSchema := resolveOrSelf propSchema spec in
  if isNestedObject resolvedSchema then
    match recur resolvedSchema flattenedName with
    | Some nestedFlattened => Some (absorb acc nestedFlattened)
    | None => None
    end
  else
    let flatProp :=
      mark_flattened
        (originalPathOf parentName prefix propName) parentName
        (convertSchemaToZod (Some resolvedSchema)
           (Some flattenedName) (s_description resolvedSchema)) in
    let acc := store flattenedName flatProp acc in
    Some (if listedRequired schema propName
          then require [flattenedName] acc else acc).

Fixpoint flattenNestedObject (depth : nat) (schema : Schema)
         (spec : ParsedApiSpec) (parentName prefix : string)
  : option Extracted :=
  match depth with
  | O => None
  | S d =>
      match s_properties schema with
      | None => Some noneExtracted
      | Some props =>
          forEachM
            (flattenStep
               (fun resolvedSchema flattenedName =>
                  flattenNestedObject d resolvedSchema spec parentName
                                      flattenedName)
               schema spec parentName prefix)
            props noneExtracted
      end
  end.

(** [flattenNestedObject(schema, spec, propName)] followed by the two
    statements that absorb its result. *)
Definition flattenInto (d : nat) (schema : Schema) (spec : ParsedApiSpec)
           (propName : string) (acc : Extracted) : option Extracted :=
  match flattenNestedObject d schema spec propName "" with
  | Some flattenedProps => Some (absorb acc flattenedProps)
  | None => None
  end.

(** The body of the loop over [resolvedSchema.properties] in
    [extractSchemaProperties]. *)
Definition extractStep (d : nat) (spec : ParsedApiSpec) (acc : Extracted)
           (entry : string * Schema) : option Extracted :=
  let (propName, propSchema) := entry in
  if Js.truthy (s_ref propSchema) then
    match resolvedRef propSchema spec with
    | Some nestedResolvedSchema =>
        if shouldFlattenObject nestedResolvedSchema then
          flattenInto d nestedResolvedSchema spec propName acc
        else
          Some (store propName
                  (convertSchemaToZod (Some nestedResolvedSchema)
                     (Some propName) (s_description nestedResolvedSchema))
                  acc)
    | None =>
        Some (store propName
                (convertSchemaToZod (Some propSchema) (Some propName)
                   (s_description propSchema))
                acc)
    end
  else if is_str (s_type propSchema) "object" && shouldFlattenObject propSchema
  then flattenInto d propSchema spec propName acc
  else
    let compositeResolvedPropSchema :=
      resolveSchemaComposition propSchema spec in
    if is_str (s_type compositeResolvedPropSchema) "object" &&
       shouldFlattenObject compositeResolvedPropSchema
    then flattenInto d compositeResolvedPropSchema spec propName acc
    else
      Some (store propName
              (convertSchemaToZod (Some compositeResolvedPropSchema)
                 (Some propName)
                 (s_description compositeResolvedPropSchema))
              acc).

Fixpoint extractSchemaProperties (depth : nat) (schema : Schema)
         (spec : ParsedApiSpec) : option Extracted :=
  match depth with
  | O => None
  | S d =>
      match resolvedRef schema spec with
      | Some resolvedSchema => extractSchemaProperties d resolvedSchema spec
      | None =>
          let resolvedSchema := resolveSchemaComposition schema spec in
          match
            match s_properties resolvedSchema with
            | Some props => forEachM (extractStep d spec) props noneExtracted
            | None => Some noneExtracted
            end
          with
          | Some acc =>
              Some (match s_required resolvedSchema with
                    | Some r => require r acc
                    | None => acc
                    end)
          | None => None
          end
      end
  end.

(** ** core/generator.ts: the tool synthesizer *)

Definition authPatterns : list string :=
  ["/auth/login"; "/auth/token"; "/token"; "/login"; "/oauth/token";
   "/auth/oauth/token"; "/v2/auth/login"].

Definition isAuthenticationEndpoint (endpoint : ApiEndpoint) : bool :=
  let pathMatches :=
    existsb (fun pattern =>
               Js.includes (Js.toLowerCase (e_path endpoint))
                           (Js.toLowerCase pattern))
            authPatterns in
  let operationIdMatches :=
    if Js.truthy (e_operationId endpoint) then
      existsb (fun keyword =>
                 Js.includes
                   (Js.toLowerCase (default "" (e_operationId endpoint)))
                   keyword)
              ["token"; "auth"; "login"; "authenticate"]
    else false in
  let text := Js.orElse (e_description endpoint) (e_summary endpoint) in
  let descriptionMatches :=
    if Js.truthy text then
      existsb (fun keyword =>
                 Js.includes
                   (Js.toLowerCase (default "" (Js.orElse text (Some ""))))
                   keyword)
              ["access token"; "authentication"; "login"; "auth"]
    else false in
  pathMatches || operationIdMatches || descriptionMatches.

(** [str.replace(/[A-Z]/g, letter => `_${letter.toLowerCase()}`)
        .replace(/^_/, '')] *)
Definition camelToSnakeCase (str : string) : string :=
  Js.dropLeadingUnderscore
    (Js.replaceChars Js.isUpper
       (fun letter => String "_" (String (Js.lowerChar letter) EmptyString))
       str).

Definition isAlphaNum (c : ascii) : bool :=
  Js.isLower c || Js.isUpper c || Js.isDigit c.

(** [path.split('/').filter(part => part && !part.startsWith('{'))] *)
Definition literalParts (path : string) : list string :=
  List.filter (fun part => nonEmpty part && negb (Js.startsWith part "{"))
         (Js.split "/" path).

Definition generateToolName (endpoint : ApiEndpoint) : string :=
  if Js.truthy (e_operationId endpoint) then
    camelToSnakeCase (default "" (e_operationId endpoint))
  else
    let method := Js.toLowerCase (e_method endpoint) in
    let pathParts :=
      map (Js.replaceChars (fun c => negb (isAlphaNum c)) (fun _ => ""))
          (literalParts (e_path endpoint)) in
    let pathName := Js.join "_" pathParts in
    method ++ "_" ++ pathName.

Definition getActionFromMethod (method : string) : string :=
  let m := Js.toLowerCase method in
  if String.eqb m "get" then "Retrieve"
  else if String.eqb m "post" then "Create"
  else if String.eqb m "put" then "Update"
  else if String.eqb m "patch" then "Modify"
  else if String.eqb m "delete" then "Delete"
  else "Process".

Definition getResourceFromPath (path : string) : string :=
  let parts := literalParts path in
  match List.last (map Some parts) None with
  | Some part => if nonEmpty part then part else "resource"
  | None => "resource"
  end.

Definition generateToolDescription (endpoint : ApiEndpoint) : string :=
  if Js.truthy (e_description endpoint) then
    default "" (e_description endpoint)
  else if Js.truthy (e_summary endpoint) then default "" (e_summary endpoint)
  else
    let action := getActionFromMethod (e_method endpoint) in
    let resource := getResourceFromPath (e_path endpoint) in
    action ++ " " ++ resource.

(** [McpToolSpec['inputSchema']]; [is_required] is absent when nothing is
    required. *)
Record InputSchema : Type := mkInputSchema {
  is_type : string;
  is_properties : list (string * FlatProperty);
  is_required : option (list string)
}.

(** [x] for an optional boolean in a condition. *)
Definition isTrue (o : option bool) : bool :=
  match o with
  | Some b => b
  | None => false
  end.

Definition paramProperty (param : ApiParameter) : FlatProperty :=
  convertSchemaToZod (p_schema param) (Some (p_name param))
                     (p_description param).

Definition isSignatureHeader (param : ApiParameter) : bool :=
  Js.includes (Js.toLowerCase (p_name param)) "signature" ||
  Js.includes (Js.toLowerCase (p_name param)) "x-payload-signature".

(** The two statements that add extracted body properties:
    every one is marked [isBodyParam] and stored; the extracted [required]
    is pushed when the body itself is required. *)
Definition addBody (bodyProperties : Extracted) (bodyRequired : option bool)
           (acc : Extracted) : Extracted :=
  let acc :=
    fold_left (fun a (entry : string * FlatProperty) =>
                 store (fst entry) (mark_body (snd entry)) a)
              (ex_properties bodyProperties) acc in
  if isTrue bodyRequired then require (ex_required bodyProperties) acc
  else acc.

Definition generateInputSchema (depth : nat) (endpoint : ApiEndpoint)
           (spec : ParsedApiSpec) : option InputSchema :=
  let acc := noneExtracted in
  (* path parameters *)
  let acc :=
    fold_left (fun a param =>
                 if String.eqb (p_in param) "path" then
                   require [p_name param]
                     (store (p_name param) (mark_path (paramProperty param)) a)
                 else a)
              (e_parameters endpoint) acc in
  (* query parameters *)
  let acc :=
    fold_left (fun a param =>
                 if String.eqb (p_in param) "query" then
                   let a :=
                     store (p_name param) (mark_query (paramProperty param)) a
                   in if isTrue (p_required param)
                      then require [p_name param] a else a
                 else a)
              (e_parameters endpoint) acc in
  (* header parameters, signature headers excluded *)
  let acc :=
    fold_left (fun a param =>
                 if String.eqb (p_in param) "header" then
                   if negb (isSignatureHeader param) then
                     let a :=
                       store (p_name param)
                             (mark_header (paramProperty param)) a
                     in if isTrue (p_required param)
                        then require [p_name param] a else a
                   else a
                 else a)
              (e_parameters endpoint) acc in
  (* request body, OpenAPI 3.0 *)
  let acc3 :=
    match e_requestBody endpoint with
    | Some requestBody =>
        match rb_content requestBody with
        | Some content =>
            match JsObj.get "application/json" content with
            | Some jsonContent =>
                match mt_schema jsonContent with
                | Some schema =>
                    match extractSchemaProperties depth schema spec with
                    | Some bodyProperties =>
                        Some (addBody bodyProperties (rb_required requestBody)
                                      acc)
                    | None => None
                    end
                | None => Some acc
                end
            | None => Some acc
            end
        | None => Some acc
        end
    | None => Some acc
    end in
  (* request body, Swagger 2.0 *)
  let acc2 :=
    match acc3 with
    | Some acc =>
        forEachM
          (fun a param =>
             if String.eqb (p_in param) "body" then
               match p_schema param with
               | Some schema =>
                   match extractSchemaProperties depth schema spec with
                   | Some bodyProperties =>
                       Some (addBody bodyProperties (p_required param) a)
                   | None => None
                   end
               | None => Some a
               end
             else Some a)
          (e_parameters endpoint) acc
    | None => None
    end in
  match acc2 with
  | Some acc =>
      Some (mkInputSchema "object" (ex_properties acc)
              (match ex_required acc with
               | [] => None
               | _ :: _ => Some (ex_required acc)
               end))
  | None => None
  end.

(** [getBaseUrl] of the generator. *)
Definition getBaseUrl (spec : ParsedApiSpec) : string :=
  match servers spec with
  | Some (server :: _) => sv_url server
  | _ => ""
  end.

(** [interface AuthenticationSpec], as far as the generator fills it. *)
Record AuthenticationSpec : Type := mkAuthenticationSpec {
  a_type : string;
  a_location : option string;
  a_name : option string;
  a_envVariable : string
}.

Definition createAuthSpec (securityReq : SecurityRequirement)
           (spec : ParsedApiSpec) : option AuthenticationSpec :=
  match JsObj.keys securityReq with
  | [] => None
  | schemeName :: _ =>
      if negb (nonEmpty schemeName) then None
      else
        match JsObj.get schemeName (securitySchemes spec) with
        | None => None
        | Some scheme =>
            if is_str (sc_type scheme) "apiKey" then
              Some (mkAuthenticationSpec "apiKey" (sc_in scheme)
                      (Js.orElse (sc_name scheme) (Some "apikey"))
                      (Js.toUpperCase schemeName ++ "_API_KEY"))
            else if is_str (sc_type scheme) "http" then
              if is_str (sc_scheme scheme) "bearer" then
                Some (mkAuthenticationSpec "bearer" None None
                        (Js.toUpperCase schemeName ++ "_TOKEN"))
              else if is_str (sc_scheme scheme) "basic" then
                Some (mkAuthenticationSpec "basic" None None
                        (Js.toUpperCase schemeName ++ "_CREDENTIALS"))
              else None
            else if is_str (sc_type scheme) "oauth2" then
              Some (mkAuthenticationSpec "oauth2" None None
                      (Js.toUpperCase schemeName ++ "_ACCESS_TOKEN"))
            else None
        end
  end.

Definition generateAuthenticationSpec (endpoint : ApiEndpoint)
           (spec : ParsedApiSpec) : option AuthenticationSpec :=
  match e_security endpoint with
  | Some (securityReq :: _) => createAuthSpec securityReq spec
  | _ =>
      match globalSecurity spec with
      | Some (securityReq :: _) => createAuthSpec securityReq spec
      | _ => None
      end
  end.

(** One entry of [headerParams]. *)
Record HeaderParam : Type := mkHeaderParam {
  h_name : string;
  h_paramName : string;
  h_required : bool;
  h_description : string
}.

Record ResponseHandlingSpec : Type := mkResponseHandlingSpec {
  successCodes : list Z;
  responseType : string
}.

Record ErrorHandlingSpec : Type := mkErrorHandlingSpec {
  retryCount : Z;
  timeoutMs : Z;
  errorCodes : list (Z * string)
}.

(** What the keys of a tool object hold. *)
Inductive ToolValue : Type :=
| TString (s : string)
| TInputSchema (i : InputSchema)
| TAuthentication (a : AuthenticationSpec)
| THeaderParams (hs : list HeaderParam)
| TResponseHandling (r : ResponseHandlingSpec)
| TErrorHandling (e : ErrorHandlingSpec).

(** The object that the literal in [generateMcpTool] evaluates to: its keys
    with their values, in the order of the literal. *)
Definition McpToolSpec : Type := list (string * ToolValue).

(** [...(cond && { key: value })] *)
Definition spreadIf {A : Type} (key : string) (inj : A -> ToolValue)
           (o : option A) : list (string * ToolValue) :=
  match o with
  | Some v => [(key, inj v)]
  | None => []
  end.

Definition headerParamsOf (endpoint : ApiEndpoint) : list HeaderParam :=
  map (fun param =>
         mkHeaderParam
           (p_name param)
           (Js.replaceChars isDash (fun _ => "_") (p_name param))
           (isTrue (p_required param))
           (default ""
              (Js.orElse (p_description param)
                 (Some ("Header parameter: " ++ p_name param)%string))))
      (List.filter (fun param => String.eqb (p_in param) "header")
              (e_parameters endpoint)).

Definition fixedResponseHandling : ResponseHandlingSpec :=
  mkResponseHandlingSpec [200; 201; 204]%Z "json".

Definition fixedErrorHandling : ErrorHandlingSpec :=
  mkErrorHandlingSpec 3%Z 30000%Z
    [(400, "Bad Request"); (401, "Unauthorized"); (403, "Forbidden");
     (404, "Not Found"); (500, "Internal Server Error")]%Z.

(** [generateMcpTool]; [None] is the [null] of its [catch]. *)
Definition generateMcpTool (depth : nat) (endpoint : ApiEndpoint)
           (spec : ParsedApiSpec) : option McpToolSpec :=
  let toolName := generateToolName endpoint in
  let description := generateToolDescription endpoint in
  match generateInputSchema depth endpoint spec with
  | None => None
  | Some inputSchema =>
      let baseUrl := getBaseUrl spec in
      let authentication := generateAuthenticationSpec endpoint spec in
      let headerParams := headerParamsOf endpoint in
      Some ([("name", TString toolName);
             ("description", TString description);
             ("inputSchema", TInputSchema inputSchema);
             ("method", TString (e_method endpoint));
             ("path", TString (e_path endpoint));
             ("baseUrl", TString baseUrl)]
            ++ spreadIf "authentication" TAuthentication authentication
            ++ spreadIf "headerParams" THeaderParams
                 (match headerParams with
                  | [] => None
                  | _ :: _ => Some headerParams
                  end)
            ++ [("responseHandling", TResponseHandling fixedResponseHandling);
                ("errorHandling", TErrorHandling fixedErrorHandling)])
  end.

(** The body of the loop of [generate]. *)
Definition generateStep (depth : nat) (spec : ParsedApiSpec)
           (tools : list McpToolSpec) (endpoint : ApiEndpoint)
  : list McpToolSpec :=
  if isAuthenticationEndpoint endpoint then tools
  else
    match generateMcpTool depth endpoint spec with
    | Some tool => tools ++ [tool]
    | None => tools
    end.

Definition generate (depth : nat) (spec : ParsedApiSpec) : list McpToolSpec :=
  fold_left (generateStep depth spec) (endpoints spec) [].

End Generator.

(** ** core/parser.ts *)

Module Parser.

Definition validMethods : list string :=
  ["get"; "post"; "put"; "delete"; "patch"; "head"; "options"].

Definition isValidHttpMethod (method : string) : bool :=
  Js.arrayIncludes validMethods (Js.toLowerCase method).

Definition endpointOf (path method : string) (operation : Operation)
  : ApiEndpoint :=
  mkApiEndpoint path (Js.toUpperCase method)
    (Generator.keepTruthy (o_operationId operation))
    (Generator.keepTruthy (o_summary operation))
    (Generator.keepTruthy (o_description operation))
    (o_tags operation)
    (default [] (o_parameters operation))
    (o_requestBody operation)
    (o_responses operation)
    (o_security operation).

(** [a || b] on optional objects. *)
Definition orObj {A : Type} (a b : option A) : option A :=
  match a with
  | Some _ => a
  | None => b
  end.

(** [convertToInternalFormat]; [None] is the [TypeError] of
    [Object.entries(undefined)] on a document without [paths]. *)
Definition convertToInternalFormat (spec : SwaggerSpec)
  : option ParsedApiSpec :=
  match d_paths spec with
  | None => None
  | Some paths =>
      let endpoints :=
        flat_map
          (fun pathEntry : string * list (string * Operation) =>
             let (path, pathItem) := pathEntry in
             flat_map
               (fun methodEntry : string * Operation =>
                  let (method, operation) := methodEntry in
                  if isValidHttpMethod method
                  then [endpointOf path method operation] else [])
               pathItem)
          paths in
      Some (mkParsedApiSpec
              (d_info spec)
              (d_servers spec)
              endpoints
              (default ∅
                 (orObj (match d_components spec with
                         | Some c => c_schemas c
                         | None => None
                         end)
                        (d_definitions spec)))
              (default []
                 (orObj (match d_components spec with
                         | Some c => c_securitySchemes c
                         | None => None
                         end)
                        (d_securityDefinitions spec)))
              (d_security spec))
  end.

(** [getBaseUrl] of the parser. *)
Definition getBaseUrl (spec : SwaggerSpec) : string :=
  match d_servers spec with
  | Some (server :: _) => sv_url server
  | _ =>
      match d_host spec, d_basePath spec with
      | Some host, Some basePath =>
          let protocol :=
            match d_schemes spec with
            | Some schemes =>
                if Js.arrayIncludes schemes "https" then "https" else "http"
            | None => "http"
            end in
          protocol ++ "://" ++ host ++
          default "" (Js.orElse (Some basePath) (Some ""))
      | _, _ => ""
      end
  end.

(** The object that [validateSpec] resolves to. *)
Record SpecCheck : Type := mkSpecCheck {
  pc_isValid : bool;
  pc_errors : list string
}.

(** [validateSpec]; [None] is the rejection by the [TypeError] of
    [Object.entries(undefined)] on a document without [paths]. *)
Definition validateSpec (spec : SwaggerSpec) : option SpecCheck :=
  let errors : list string := [] in
  let errors :=
    match d_info spec with
    | None => errors ++ ["Missing required field: info"]
    | Some info =>
        let errors :=
          if negb (Js.truthy (i_title info))
          then errors ++ ["Missing required field: info.title"] else errors in
        if negb (Js.truthy (i_version info))
        then errors ++ ["Missing required field: info.version"] else errors
    end in
  let errors :=
    match d_paths spec with
    | None => errors ++ ["No paths defined in specification"]
    | Some [] => errors ++ ["No paths defined in specification"]
    | Some (_ :: _) => errors
    end in
  let errors :=
    if negb (Js.truthy (d_openapi spec)) && negb (Js.truthy (d_swagger spec))
    then errors ++ ["Missing OpenAPI or Swagger version field"] else errors in
  match d_paths spec with
  | None => None
  | Some paths =>
      let errors :=
        fold_left
          (fun errors (pathEntry : string * list (string * Operation)) =>
             let (path, pathItem) := pathEntry in
             let errors :=
               if negb (Js.startsWith path "/")
               then errors ++ [("Path must start with '/': " ++ path)%string]
               else errors in
             fold_left
               (fun errors (methodEntry : string * Operation) =>
                  let (method, operation) := methodEntry in
                  if isValidHttpMethod method then
                    match o_responses operation with
                    | None =>
                        errors ++
                        [("Missing responses for " ++ Js.toUpperCase method
                          ++ " " ++ path)%string]
                    | Some _ => errors
                    end
                  else errors)
               pathItem errors)
          paths errors in
      Some (mkSpecCheck (match errors with [] => true | _ :: _ => false end)
                        errors)
  end.







Definition getOperationTags (operation : Operation) : list string :=
  default [] (o_tags operation).

Definition getSecurityRequirements (operation : Operation)
           (globalSecurity : option (list SecurityRequirement))
  : list SecurityRequirement :=
  match o_security operation with
  | Some security => security
  | None => default [] globalSecurity
  end.

End Parser.

(** ** core/validator.ts *)

Module Validator.

Local Open Scope string_scope.

(** The three arrays that [validate] and its helpers push to. *)
Record Report : Type := mkReport {
  errors : list string;
  warnings : list string;
  suggestions : list string
}.

Definition pushError (msg : string) (r : Report) : Report :=
  mkReport (errors r ++ [msg])%list (warnings r) (suggestions r).
Definition pushWarning (msg : string) (r : Report) : Report :=
  mkReport (errors r) (warnings r ++ [msg])%list (suggestions r).
Definition pushSuggestion (msg : string) (r : Report) : Report :=
  mkReport (errors r) (warnings r) (suggestions r ++ [msg])%list.

(** [if (cond) push(msg)] *)
Definition when (cond : bool) (push : Report -> Report) (r : Report)
  : Report :=
  if cond then push r else r.

(** [interface ValidationResult] *)
Record ValidationResult : Type := mkValidationResult {
  isValid : bool;
  v_errors : list string;
  v_warnings : list string;
  v_suggestions : list string
}.

Definition isPresent {A : Type} (o : option A) : bool :=
  match o with
  | Some _ => true
  | None => false
  end.

(** One turn of the loop of [validateParameters]: the set of keys seen so
    far and the report. *)
Definition validateParameter (operationKey : string)
           (st : gset string * Report) (param : ApiParameter)
  : gset string * Report :=
  let (paramNames, r) := st in
  if negb (Generator.nonEmpty (p_name param)) then
    (paramNames,
     pushError ("Parameter missing name in " ++ operationKey) r)
  else
    let r :=
      when (negb (Generator.nonEmpty (p_in param)))
        (pushError ("Parameter '" ++ p_name param ++
                    "' missing 'in' field in " ++ operationKey)) r in
    let r :=
      when (negb (isPresent (p_schema param)) && negb (Js.truthy (p_type param)))
        (pushError ("Parameter '" ++ p_name param ++
                    "' missing schema/type in " ++ operationKey)) r in
    let paramKey := p_name param ++ "-" ++ p_in param in
    let r :=
      when (bool_decide (paramKey ∈ paramNames))
        (pushError ("Duplicate parameter '" ++ p_name param ++ "' in '" ++
                    p_in param ++ "' for " ++ operationKey)) r in
    let paramNames := {[ paramKey ]} ∪ paramNames in
    let r :=
      when (String.eqb (p_in param) "path" &&
            negb (Generator.isTrue (p_required param)))
        (pushError ("Path parameter '" ++ p_name param ++
                    "' must be required in " ++ operationKey)) r in
    (paramNames, r).

(** *** The documents that [validate] is handed

    [validate] runs on the parsed file as it is.  The entries whose
    properties the code reads (a path item, an operation, a parameter, a
    security scheme) may be [null] there; [None] in their place is that
    [null].  The fields are those that the validator reads. *)
Record RawOperation : Type := mkRawOperation {
  r_operationId : option string;
  r_summary : option string;
  r_description : option string;
  r_tags : option (list string);
  r_parameters : option (list (option ApiParameter));
  r_requestBody : option RequestBody;
  r_responses : option (list (string * Response))
}.

Definition RawPathItem : Type := option (list (string * option RawOperation)).

Record RawComponents : Type := mkRawComponents {
  rc_securitySchemes : option (list (string * option SecurityScheme))
}.

Record RawSpec : Type := mkRawSpec {
  raw_openapi : option string;
  raw_swagger : option string;
  raw_info : option Info;
  raw_servers : option (list Server);
  raw_paths : option (list (string * RawPathItem));
  raw_components : option RawComponents
}.

(** A document of the shape of [SwaggerSpec], as [validate] is handed it:
    no entry of it is [null]. *)
Definition rawOperation (operation : Operation) : RawOperation :=
  mkRawOperation (o_operationId operation) (o_summary operation)
                 (o_description operation) (o_tags operation)
                 (option_map (map Some) (o_parameters operation))
                 (o_requestBody operation) (o_responses operation).

Definition rawMethodEntry (methodEntry : string * Operation)
  : string * option RawOperation :=
  (fst methodEntry, Some (rawOperation (snd methodEntry))).

Definition rawPathEntry (pathEntry : string * list (string * Operation))
  : string * RawPathItem :=
  (fst pathEntry, Some (map rawMethodEntry (snd pathEntry))).

Definition rawSchemeEntry (schemeEntry : string * SecurityScheme)
  : string * option SecurityScheme :=
  (fst schemeEntry, Some (snd schemeEntry)).

Definition rawComponents (components : Components) : RawComponents :=
  mkRawComponents
    (option_map (map rawSchemeEntry) (c_securitySchemes components)).

Definition rawSpec (doc : SwaggerSpec) : RawSpec :=
  mkRawSpec (d_openapi doc) (d_swagger doc) (d_info doc) (d_servers doc)
            (option_map (map rawPathEntry) (d_paths doc))
            (option_map rawComponents (d_components doc)).

(** *** Exceptions

    What a statement of the [try] block of [validate] throws on such a
    document: the [TypeError] of [Object.entries(null)] and that of a
    property read on [null], with their messages. *)
Inductive Fault : Type :=
| EntriesOfNull
| PropertyOfNull (property : string).

Definition message (fault : Fault) : string :=
  match fault with
  | EntriesOfNull => "Cannot convert undefined or null to object"
  | PropertyOfNull property =>
      "Cannot read properties of null (reading '" ++ property ++ "')"
  end.

(** A helper returns, or throws; either way the three arrays are as the
    pushes so far have left them. *)
Inductive Outcome : Type :=
| Returned (r : Report)
| Threw (fault : Fault) (r : Report).

Definition andThen (o : Outcome) (next : Report -> Outcome) : Outcome :=
  match o with
  | Returned r => next r
  | Threw fault r => Threw fault r
  end.

(** [for (const x of xs) body] *)
Fixpoint forEach {A : Type} (body : A -> Report -> Outcome) (xs : list A)
         (r : Report) : Outcome :=
  match xs with
  | [] => Returned r
  | x :: rest => andThen (body x r) (forEach body rest)
  end.

(** The loop of [validateParameters]; [param.name] throws on [null]. *)
Fixpoint parametersLoop (operationKey : string)
         (parameters : list (option ApiParameter))
         (st : gset string * Report) : Outcome :=
  match parameters with
  | [] => Returned (snd st)
  | None :: _ => Threw (PropertyOfNull "name") (snd st)
  | Some param :: rest =>
      parametersLoop operationKey rest (validateParameter operationKey st param)
  end.

Definition validateParameters (parameters : list (option ApiParameter))
           (operationKey : string) (r : Report) : Outcome :=
  parametersLoop operationKey parameters (∅, r).

(** [operation.responses] throws on [null]. *)
Definition validateOperation (path method : string)
           (operation : option RawOperation) (r : Report) : Outcome :=
  let operationKey := Js.toUpperCase method ++ " " ++ path in
  match operation with
  | None => Threw (PropertyOfNull "responses") r
  | Some operation =>
      let r :=
        when (negb (isPresent (r_responses operation)))
          (pushError ("Missing responses for " ++ operationKey)) r in
      let r :=
        when (negb (Js.truthy (r_operationId operation)))
          (pushSuggestion ("Consider adding operationId for " ++ operationKey))
          r in
      let r :=
        when (negb (Js.truthy (r_summary operation)) &&
              negb (Js.truthy (r_description operation)))
          (pushWarning ("Missing summary and description for " ++ operationKey))
          r in
      andThen
        match r_parameters operation with
        | Some parameters => validateParameters parameters operationKey r
        | None => Returned r
        end
        (fun r =>
           let r :=
             when (Js.arrayIncludes ["post"; "put"; "patch"]
                                    (Js.toLowerCase method) &&
                   negb (isPresent (r_requestBody operation)))
               (pushWarning (operationKey ++ " might need a request body")) r
           in
           let r :=
             when (match r_tags operation with
                   | None => true
                   | Some [] => true
                   | Some (_ :: _) => false
                   end)
               (pushSuggestion ("Consider adding tags for " ++ operationKey ++
                                " for better organization")) r in
           Returned r)
  end.

(** One turn of the inner loop of [validatePaths]. *)
Definition validateMethodEntry (path : string)
           (methodEntry : string * option RawOperation) (r : Report)
  : Outcome :=
  if Js.arrayIncludes Parser.validMethods (Js.toLowerCase (fst methodEntry))
  then validateOperation path (fst methodEntry) (snd methodEntry) r
  else Returned r.

(** One turn of the outer loop; [Object.entries(pathItem)] throws on
    [null], after the test of the path. *)
Definition validatePathEntry (pathEntry : string * RawPathItem) (r : Report)
  : Outcome :=
  let path := fst pathEntry in
  let r :=
    when (negb (Js.startsWith path "/"))
      (pushError ("Path must start with '/': " ++ path)) r in
  match snd pathEntry with
  | None => Threw EntriesOfNull r
  | Some pathItem => forEach (validateMethodEntry path) pathItem r
  end.

Definition validatePaths (paths : list (string * RawPathItem)) (r : Report)
  : Outcome :=
  forEach validatePathEntry paths r.

(** The body of the loop of [validateSecuritySchemes] on a scheme that is
    there. *)
Definition validateSecurityScheme (r : Report)
           (entry : string * SecurityScheme) : Report :=
  let (name, scheme) := entry in
  if negb (Js.truthy (sc_type scheme)) then
    pushError ("Security scheme '" ++ name ++ "' missing type") r
  else if Generator.is_str (sc_type scheme) "apiKey" then
    when (negb (Js.truthy (sc_name scheme)) || negb (Js.truthy (sc_in scheme)))
      (pushError ("API key security scheme '" ++ name ++
                  "' missing name or in field")) r
  else if Generator.is_str (sc_type scheme) "http" then
    when (negb (Js.truthy (sc_scheme scheme)))
      (pushError ("HTTP security scheme '" ++ name ++
                  "' missing scheme field")) r
  else if Generator.is_str (sc_type scheme) "oauth2" then
    when (negb (jsonTruthy (sc_flows scheme)))
      (pushError ("OAuth2 security scheme '" ++ name ++ "' missing flows")) r
  else if Generator.is_str (sc_type scheme) "openIdConnect" then
    when (negb (Js.truthy (sc_openIdConnectUrl scheme)))
      (pushError ("OpenID Connect security scheme '" ++ name ++
                  "' missing openIdConnectUrl")) r
  else
    pushWarning ("Unknown security scheme type '" ++
                 default "" (sc_type scheme) ++ "' for '" ++ name ++ "'") r.

(** One turn of that loop; [scheme.type] throws on [null]. *)
Definition validateSchemeEntry (schemeEntry : string * option SecurityScheme)
           (r : Report) : Outcome :=
  match snd schemeEntry with
  | None => Threw (PropertyOfNull "type") r
  | Some scheme => Returned (validateSecurityScheme r (fst schemeEntry, scheme))
  end.

Definition validateSecuritySchemes
           (securitySchemes : list (string * option SecurityScheme))
           (r : Report) : Outcome :=
  forEach validateSchemeEntry securitySchemes r.

(** The [try] block of [validate], up to its [return]. *)
Definition tryBlock (spec : RawSpec) : Outcome :=
  let r := mkReport [] [] [] in
  let r :=
    match raw_info spec with
    | None => pushError "Missing required field: info" r
    | Some info =>
        let r :=
          when (negb (Js.truthy (i_title info)))
            (pushError "Missing required field: info.title") r in
        when (negb (Js.truthy (i_version info)))
          (pushError "Missing required field: info.version") r
    end in
  andThen
    match raw_paths spec with
    | None => Returned (pushError "No paths defined in specification" r)
    | Some [] => Returned (pushError "No paths defined in specification" r)
    | Some paths => validatePaths paths r
    end
    (fun r =>
       let r :=
         when (negb (Js.truthy (raw_openapi spec)) &&
               negb (Js.truthy (raw_swagger spec)))
           (pushError "Missing OpenAPI or Swagger version field") r in
       let r :=
         when (Js.truthy (raw_openapi spec) &&
               match raw_servers spec with
               | None => true
               | Some [] => true
               | Some (_ :: _) => false
               end)
           (pushWarning "No servers defined - consider adding server URLs") r
       in
       match raw_components spec with
       | Some components =>
           match rc_securitySchemes components with
           | Some securitySchemes =>
               validateSecuritySchemes securitySchemes r
           | None => Returned r
           end
       | None => Returned r
       end).

(** [validate]: the result of the [try] block, or that of the [catch]
    block, whose [errors] is a new array with the one message and whose
    [warnings] and [suggestions] are the arrays pushed to so far. *)
Definition validate (spec : RawSpec) : ValidationResult :=
  match tryBlock spec with
  | Returned r =>
      mkValidationResult
        (match errors r with [] => true | _ :: _ => false end)
        (errors r) (warnings r) (suggestions r)
  | Threw fault r =>
      mkValidationResult
        false ["Validation failed: " ++ message fault]
        (warnings r) (suggestions r)
  end.

(** Truthiness of [tool.key]: a string when it is not empty, any object
    or array, not an absent key. *)
Definition toolTruthy (v : option Generator.ToolValue) : bool :=
  match v with
  | Some (Generator.TString s) => Generator.nonEmpty s
  | Some _ => true
  | None => false
  end.

(** [v.type] and [v.properties] of what a key of a tool holds. *)
Definition typeField (v : Generator.ToolValue) : option string :=
  match v with
  | Generator.TInputSchema i => Some (Generator.is_type i)
  | Generator.TAuthentication a => Some (Generator.a_type a)
  | _ => None
  end.

Definition hasProperties (v : Generator.ToolValue) : bool :=
  match v with
  | Generator.TInputSchema _ => true
  | _ => false
  end.

Definition validateMcpTool (tool : Generator.McpToolSpec)
  : ValidationResult :=
  let r := mkReport [] [] [] in
  let r :=
    when (negb (toolTruthy (JsObj.get "name" tool)))
      (pushError "MCP tool missing name") r in
  let r :=
    when (negb (toolTruthy (JsObj.get "description" tool)))
      (pushWarning "MCP tool missing description") r in
  let r :=
    if negb (toolTruthy (JsObj.get "inputSchema" tool)) then
      pushError "MCP tool missing inputSchema" r
    else
      match JsObj.get "inputSchema" tool with
      | Some inputSchema =>
          let r :=
            when (negb (Generator.is_str (typeField inputSchema) "object"))
              (pushError "MCP tool inputSchema must be of type object") r in
          when (negb (hasProperties inputSchema))
            (pushWarning "MCP tool inputSchema has no properties") r
      | None => r
      end in
  let r :=
    when (negb (toolTruthy (JsObj.get "method" tool)))
      (pushError "MCP tool missing HTTP method") r in
  let r :=
    when (negb (toolTruthy (JsObj.get "path" tool)))
      (pushError "MCP tool missing path") r in
  mkValidationResult
    (match errors r with [] => true | _ :: _ => false end)
    (errors r) (warnings r) (suggestions r).

(** One turn of the loop of [validateParsedSpec]. *)
Definition validateEndpoint (r : Report) (endpoint : ApiEndpoint) : Report :=
  let r :=
    when (negb (Generator.nonEmpty (e_path endpoint)))
      (pushError "Endpoint missing path") r in
  let r :=
    when (negb (Generator.nonEmpty (e_method endpoint)))
      (pushError "Endpoint missing method") r in
  when (negb (isPresent (e_responses endpoint)))
    (pushError ("Missing responses for " ++ e_method endpoint ++ " " ++
                e_path endpoint)) r.

(** The [try] block of [validateParsedSpec]; on a value of the shape of
    [ParsedApiSpec] none of its statements throws. *)
Definition validateParsedSpec (spec : ParsedApiSpec) : ValidationResult :=
  let r := mkReport [] [] [] in
  let r :=
    match info spec with
    | None => pushError "Missing required field: info" r
    | Some info =>
        let r :=
          when (negb (Js.truthy (i_title info)))
            (pushError "Missing required field: info.title") r in
        when (negb (Js.truthy (i_version info)))
          (pushError "Missing required field: info.version") r
    end in
  let r :=
    match endpoints spec with
    | [] => pushError "No endpoints defined in specification" r
    | _ :: _ => fold_left validateEndpoint (endpoints spec) r
    end in
  mkValidationResult
    (match errors r with [] => true | _ :: _ => false end)
    (errors r) (warnings r) (suggestions r).

End Validator.

(** ** index.ts: the two pipelines *)

(** [generateServer] and [generateBatchServer] on documents given as
    objects, with [enhanceDescriptions] unset, up to the call of
    [generateServerCode]. *)
Module Main.

(** How a pipeline ends before code generation: [parse] rejects, the
    title of an absent [info] is read for the log line, or the parsed
    specification does not validate. *)
Inductive Failure : Type :=
| ParseRejected
| TitleOfAbsentInfo
| ValidationFailed (errors : list string).

(** The arguments of [generateServerCode] that the pipelines compute. *)
Record Handover : Type := mkHandover {
  mcpTools : list Generator.McpToolSpec;
  serverName : option string
}.

(** [parse] on a document that is already an object. *)
Definition parse (input : SwaggerSpec) : option ParsedApiSpec :=
  Parser.convertToInternalFormat input.

Definition generateServer (depth : nat) (input : SwaggerSpec)
           (optServerName : option string) : Failure + Handover :=
  match parse input with
  | None => inl ParseRejected
  | Some spec =>
      match info spec with
      | None => inl TitleOfAbsentInfo
      | Some specInfo =>
          let validationResult := Validator.validateParsedSpec spec in
          if negb (Validator.isValid validationResult) then
            inl (ValidationFailed (Validator.v_errors validationResult))
          else
            let mcpTools := Generator.generate depth spec in
            inr (mkHandover mcpTools
                            (Js.orElse optServerName (i_title specInfo)))
      end
  end.

(** The loop of [generateBatchServer]: a specification that does not
    validate is only warned about. *)
Fixpoint batchLoop (depth : nat) (inputs : list SwaggerSpec)
         (allMcpTools : list Generator.McpToolSpec)
  : Failure + list Generator.McpToolSpec :=
  match inputs with
  | [] => inr allMcpTools
  | input :: rest =>
      match parse input with
      | None => inl ParseRejected
      | Some spec =>
          match info spec with
          | None => inl TitleOfAbsentInfo
          | Some _ =>
              let mcpTools := Generator.generate depth spec in
              batchLoop depth rest (allMcpTools ++ mcpTools)
          end
      end
  end.

Definition generateBatchServer (depth : nat) (inputs : list SwaggerSpec)
           (optServerName : option string) : Failure + Handover :=
  match batchLoop depth inputs [] with
  | inl failure => inl failure
  | inr allMcpTools =>
      inr (mkHandover allMcpTools
                      (Js.orElse optServerName (Some "Combined MCP Server"%string)))
  end.

End Main.

(** ** utils/template-utils.ts: the identifier helper *)

Module TemplateUtils.

Definition isIdentifierChar (c : ascii) : bool :=
  Generator.isAlphaNum c || Ascii.eqb c "_" || Ascii.eqb c "$".

(** The helper [toValidIdentifier]:
    [name.replace(/[^a-zA-Z0-9_$]/g, '_').replace(/^[0-9]/, '_$&')] *)
Definition toValidIdentifier (name : string) : string :=
  let replaced :=
    Js.replaceChars (fun c => negb (isIdentifierChar c))
                    (fun _ => "_"%string) name in
  match replaced with
  | String c _ => if Js.isDigit c then String "_" replaced else replaced
  | EmptyString => replaced
  end.

End TemplateUtils.

(** * Vocabulary of the statements *)

Import Generator.

(** ** References and composition *)

(** The name that a reference string carries, in the words of the spec:
    what follows one of the two standard prefixes. *)
Definition refersTo (ref name : string) : Prop :=
  ref = (componentsPrefix ++ name)%string \/
  ref = (definitionsPrefix ++ name)%string.


(** A member of a composition list after its own [$ref] is resolved: its
    properties (none when it declares none), its required names, its type. *)
Definition memberProperties (spec : ParsedApiSpec) (member : Schema)
  : list (string * Schema) :=
  default [] (s_properties (resolveOrSelf member spec)).






(** ** Flattening *)

(** The properties of a schema, none when the key is absent. *)
Definition propertiesOf (s : Schema) : list (string * Schema) :=
  default [] (s_properties s).

(** The descendants that flattening turns into properties.
    [Leaf spec parentName schema prefix name req]: below [schema], walked
    with [prefix], there is a property that is not itself flattened; [name]
    is its flattened name, and [req] tells whether the schema that holds it
    (its immediate parent, after resolution of the parent's [$ref]) lists
    it in [required]. *)
Inductive Leaf (spec : ParsedApiSpec) (parentName : string)
  : Schema -> string -> string -> bool -> Prop :=
| Leaf_here (schema : Schema) (prefix propName : string)
            (propSchema : Schema) :
    In (propName, propSchema) (propertiesOf schema) ->
    isNestedObject (resolveOrSelf propSchema spec) = false ->
    Leaf spec parentName schema prefix
         (flattenedNameOf parentName prefix propName)
         (listedRequired schema propName)
| Leaf_below (schema : Schema) (prefix propName : string)
             (propSchema : Schema) (name : string) (req : bool) :
    In (propName, propSchema) (propertiesOf schema) ->
    isNestedObject (resolveOrSelf propSchema spec) = true ->
    Leaf spec parentName (resolveOrSelf propSchema spec)
         (flattenedNameOf parentName prefix propName) name req ->
    Leaf spec parentName schema prefix name req.

(** The schema that [extractSchemaProperties] hands to
    [flattenNestedObject] for a property of the body, when it flattens the
    property: the target of its [$ref], the property itself, or the
    property after composition resolution. *)
Definition flattenRoot (spec : ParsedApiSpec) (propSchema : Schema)
  : option Schema :=
  if Js.truthy (s_ref propSchema) then
    match resolvedRef propSchema spec with
    | Some nested => if shouldFlattenObject nested then Some nested else None
    | None => None
    end
  else if is_str (s_type propSchema) "object" && shouldFlattenObject propSchema
  then Some propSchema
  else
    let composite := resolveSchemaComposition propSchema spec in
    if is_str (s_type composite) "object" && shouldFlattenObject composite
    then Some composite else None.

(** The schema whose properties are extracted: the one at the end of the
    schema's own chain of resolvable [$ref]s. *)
Inductive RefChain (spec : ParsedApiSpec) : Schema -> Schema -> Prop :=
| RefChain_end (s : Schema) :
    resolvedRef s spec = None -> RefChain spec s s
| RefChain_step (s s' body : Schema) :
    resolvedRef s spec = Some s' -> RefChain spec s' body ->
    RefChain spec s body.

(** The metadata that [flattenNestedObject] writes. *)
Definition rootedAt (parentName : string) (fp : FlatProperty) : Prop :=
  isFlattened fp = true /\
  parentObject fp = Some parentName /\
  exists rest, originalPath fp = Some (parentName ++ "." ++ rest)%string.

(** ** The reference graph *)

(** The [$ref] strings that the two walkers can come to follow from a
    schema: its own, those of its properties at any depth, and those of
    the members of its composition lists. *)
Fixpoint followedRefs (s : Schema) : list string :=
  match s_ref s with Some r => [r] | None => [] end
  ++ match s_properties s with
     | Some l =>
         (fix go (l : list (string * Schema)) : list string :=
            match l with
            | [] => []
            | (_, x) :: rest => followedRefs x ++ go rest
            end) l
     | None => []
     end
  ++ match s_allOf s with
     | Some l =>
         (fix go (l : list Schema) : list string :=
            match l with
            | [] => []
            | x :: rest => followedRefs x ++ go rest
            end) l
     | None => []
     end
  ++ match s_oneOf s with
     | Some l =>
         (fix go (l : list Schema) : list string :=
            match l with
            | [] => []
            | x :: rest => followedRefs x ++ go rest
            end) l
     | None => []
     end
  ++ match s_anyOf s with
     | Some l =>
         (fix go (l : list Schema) : list string :=
            match l with
            | [] => []
            | x :: rest => followedRefs x ++ go rest
            end) l
     | None => []
     end.

(** Every followed reference of [s] that resolves in the registry leads to
    a schema of rank below [b]. *)
Definition refersBelow (spec : ParsedApiSpec) (rank : string -> nat) (b : nat)
           (s : Schema) : Prop :=
  forall ref name,
    In ref (followedRefs s) -> refersTo ref name ->
    is_Some (schemas spec !! name) -> rank name < b.

(** The reference graph of the registry is acyclic: [rank] decreases along
    every followed reference from a registered schema to a registered
    schema. *)
Definition Acyclic (spec : ParsedApiSpec) (rank : string -> nat) : Prop :=
  forall name s,
    schemas spec !! name = Some s -> refersBelow spec rank (rank name) s.

(** How deep the properties of a schema nest. *)
Fixpoint height (s : Schema) : nat :=
  match s_properties s with
  | Some l =>
      S ((fix go (l : list (string * Schema)) : nat :=
            match l with
            | [] => 0
            | (_, x) :: rest => Nat.max (height x) (go rest)
            end) l)
  | None => 0
  end.

(** Every property of [s] refers below [b]. *)
Definition propsBelow (spec : ParsedApiSpec) (rank : string -> nat) (b : nat)
           (s : Schema) : Prop :=
  forall p ps, In (p, ps) (propertiesOf s) -> refersBelow spec rank b ps.

(** ** Tools and reports *)

(** The fields of [McpToolSpec] that the data model names. *)
Definition dataModelFields : list string :=
  ["name"; "description"; "inputSchema"; "method"; "path"; "baseUrl";
   "authentication"; "responseHandling"; "errorHandling"].

(** [tool.inputSchema] *)
Definition inputSchemaOf (tool : Generator.McpToolSpec)
  : option Generator.InputSchema :=
  match JsObj.get "inputSchema" tool with
  | Some (Generator.TInputSchema i) => Some i
  | _ => None
  end.

(** A step of the validator keeps every error reported so far. *)
Definition keeps (r r' : Validator.Report) : Prop :=
  incl (Validator.errors r) (Validator.errors r').

(** * Sample schemas and documents *)

(** A schema with only [type], [properties], [required] and [$ref]. *)
Definition plainSchema (type : option string)
           (properties : option (list (string * Schema)))
           (required : option (list string)) (ref : option string) : Schema :=
  mkSchema type None None properties required None ref None None None None
           None None None None None None None None None None None None None
           None None None None None None None None None.

Definition stringSchema : Schema := plainSchema (Some "string") None None None.

Definition objectSchema (properties : list (string * Schema))
           (required : option (list string)) : Schema :=
  plainSchema (Some "object") (Some properties) required None.

Definition refSchema (ref : string) : Schema :=
  plainSchema None None None (Some ref).


(** A parsed specification that is a registry and nothing else. *)
Definition registryOnly (registry : gmap string Schema) : ParsedApiSpec :=
  mkParsedApiSpec None None [] registry [] None.

(** ** Compositions *)



(** ** Request bodies and registries *)

(** A registry with one schema, [Pet]. *)
Definition petRegistry : ParsedApiSpec :=
  registryOnly {[ "Pet" := objectSchema [("name", stringSchema)] None ]}.

(** A self-referential schema and its registry:
    [A = { type: object,
           properties: { self: { $ref: '#/components/schemas/A' },
                         name: { type: string } } }] *)
Definition selfA : Schema :=
  objectSchema [("self", refSchema "#/components/schemas/A");
                ("name", stringSchema)] None.

Definition selfSpec : ParsedApiSpec := registryOnly {[ "A" := selfA ]}.

(** A request body whose property [owner] is an object that requires its
    [name]; the body itself requires nothing. *)
Definition ownerBody : Schema :=
  objectSchema
    [("owner", objectSchema [("name", stringSchema)] (Some ["name"]))]
    None.

(** A request body that requires its object property [owner], whose own
    [name] is not required. *)
Definition requiredOwnerBody : Schema :=
  objectSchema
    [("owner", objectSchema [("name", stringSchema)] None)]
    (Some ["owner"]).

(** A request body with an intermediate property name that has an
    underscore: [owner.home_address.city]. *)
Definition addressBody : Schema :=
  objectSchema
    [("owner",
      objectSchema
        [("home_address", objectSchema [("city", stringSchema)] None)]
        None)]
    None.

(** A registry whose references form a chain, [Owner] to [Address], with
    a rank that decreases along it, and a body that refers to [Owner]. *)
Definition addressSchema : Schema :=
  objectSchema [("city", stringSchema)] (Some ["city"]).

Definition ownerSchema : Schema :=
  objectSchema [("name", stringSchema);
                ("address", refSchema "#/components/schemas/Address")]
               None.

Definition chainSpec : ParsedApiSpec :=
  registryOnly (<[ "Owner" := ownerSchema ]> {[ "Address" := addressSchema ]}).

Definition chainRank (name : string) : nat :=
  if String.eqb name "Owner" then 1 else 0.

Definition chainBody : Schema :=
  objectSchema [("owner", refSchema "#/components/schemas/Owner")] None.

(** ** Documents, endpoints and tools *)

(** The Pet Store document: one path, [GET /pets/{id}], with the required
    path parameter [id] of type string and the operation id [getPetById]. *)
Definition petStoreDoc : SwaggerSpec :=
  mkSwaggerSpec
    (Some "3.0.0") None
    (Some (mkInfo (Some "Pet Store") (Some "1.0") None))
    None
    (Some [("/pets/{id}",
            [("get",
              mkOperation (Some "getPetById") None None None
                (Some [mkParameter "id" "path" (Some true) (Some stringSchema)
                                   None None])
                None
                (Some [("200", mkResponse "OK" None)])
                None)])])
    None None None None None None None.

(** The same document without [info.version]. *)
Definition petStoreDocNoVersion : SwaggerSpec :=
  mkSwaggerSpec
    (d_openapi petStoreDoc) (d_swagger petStoreDoc)
    (Some (mkInfo (Some "Pet Store") None None))
    (d_servers petStoreDoc) (d_paths petStoreDoc) (d_components petStoreDoc)
    (d_security petStoreDoc) (d_host petStoreDoc) (d_basePath petStoreDoc)
    (d_schemes petStoreDoc) (d_definitions petStoreDoc)
    (d_securityDefinitions petStoreDoc).


(** A Swagger 2.0 document: [host], [basePath] and [schemes], no
    [servers]. *)
Definition swagger2Doc : SwaggerSpec :=
  mkSwaggerSpec
    None (Some "2.0")
    (Some (mkInfo (Some "Pet Store") (Some "1.0") None))
    None
    (d_paths petStoreDoc)
    None None
    (Some "api.example.com") (Some "/v1") (Some ["https"])
    None None.

(** An endpoint with one header parameter, in a specification of its own. *)
Definition tracedEndpoint : ApiEndpoint :=
  mkApiEndpoint "/pets" "GET" (Some "listPets") None None None
    [mkParameter "X-Request-Id" "header" None (Some stringSchema) None None]
    None None None.

Definition tracedSpec : ParsedApiSpec :=
  mkParsedApiSpec None None [tracedEndpoint] ∅ [] None.

(** The Swagger 2.0 document after the parser, and its one tool. *)
Definition swagger2Spec : ParsedApiSpec :=
  default (registryOnly ∅) (Parser.convertToInternalFormat swagger2Doc).

Definition swagger2Tool : McpToolSpec :=
  match generate 1 swagger2Spec with
  | tool :: _ => tool
  | [] => []
  end.

(** The tool of the endpoint with a header parameter. *)
Definition tracedTool : McpToolSpec :=
  match generate 1 tracedSpec with
  | tool :: _ => tool
  | [] => []
  end.

(** An operation that the synthesizer takes for an authentication
    endpoint, [POST /auth/login], in a specification of its own. *)
Definition loginEndpoint : ApiEndpoint :=
  mkApiEndpoint "/auth/login" "POST" (Some "signIn") None None None []
                None None None.

Definition loginSpec : ParsedApiSpec :=
  mkParsedApiSpec None None [loginEndpoint] ∅ [] None.

(** * Vocabulary of the further properties *)

(** The types that a property of an input schema can have. *)
Definition zodTypes : list string :=
  ["number"; "boolean"; "array"; "object"; "string"].

(** A property object as [convertSchemaToZod] builds them: its type is one
    of the five, it has a description, and [items] is there only for an
    array and is such a property again. *)
Inductive WellFormedProperty : FlatProperty -> Prop :=
| WellFormedProperty_intro (fp : FlatProperty) :
    In (fp_type fp) zodTypes ->
    fp_description fp <> "" ->
    (forall i, fp_items fp = Some i ->
               fp_type fp = "array" /\ WellFormedProperty i) ->
    WellFormedProperty fp.

(** How many of the four location flags a property has. *)
Definition flagCount (fp : FlatProperty) : nat :=
  Nat.b2n (isPathParam fp) + Nat.b2n (isQueryParam fp) +
  Nat.b2n (isHeaderParam fp) + Nat.b2n (isBodyParam fp).

(** Every character of a string satisfies a test. *)
Fixpoint allChars (test : ascii -> bool) (s : string) : bool :=
  match s with
  | EmptyString => true
  | String c r => test c && allChars test r
  end.

Definition notUpper (c : ascii) : bool := negb (Js.isUpper c).

(** No property has a flag yet. *)
Definition unflagged (acc : Extracted) : Prop :=
  forall k fp, In (k, fp) (ex_properties acc) -> flagCount fp = 0.

(** Every property has exactly one flag. *)
Definition oneFlagEach (acc : Extracted) : Prop :=
  forall k fp, In (k, fp) (ex_properties acc) -> flagCount fp = 1.

(** [acc'] lists every required name and has every property key that
    [acc] has. *)
Definition grows (acc acc' : Extracted) : Prop :=
  incl (ex_required acc) (ex_required acc') /\
  incl (JsObj.keys (ex_properties acc)) (JsObj.keys (ex_properties acc')).

(** An endpoint without a request body, in either style. *)
Definition bodyless (endpoint : ApiEndpoint) : Prop :=
  e_requestBody endpoint = None /\
  forall param, In param (e_parameters endpoint) -> p_in param <> "body".

(** The parameters that become properties, and those that become required:
    path parameters always, query parameters and headers other than
    signature headers as the document says. *)
Definition exposed (param : ApiParameter) : bool :=
  String.eqb (p_in param) "path" || String.eqb (p_in param) "query" ||
  (String.eqb (p_in param) "header" && negb (isSignatureHeader param)).

Definition demanded (param : ApiParameter) : bool :=
  String.eqb (p_in param) "path" ||
  (String.eqb (p_in param) "query" && isTrue (p_required param)) ||
  (String.eqb (p_in param) "header" && negb (isSignatureHeader param) &&
   isTrue (p_required param)).

(** The name that the flattened names of one call extend: [prefix], or
    [parentName] when there is none. *)
Definition nameBase (parentName prefix : string) : string :=
  if nonEmpty prefix then prefix else parentName.

(** The three texts that [isAuthenticationEndpoint] searches, in lower
    case; an absent text is searched as the empty string. *)
Definition lowerPath (endpoint : ApiEndpoint) : string :=
  Js.toLowerCase (e_path endpoint).
Definition lowerId (endpoint : ApiEndpoint) : string :=
  Js.toLowerCase (default "" (e_operationId endpoint)).
Definition lowerText (endpoint : ApiEndpoint) : string :=
  Js.toLowerCase
    (default "" (Js.orElse (e_description endpoint) (e_summary endpoint))).

(** The schemas that [generateInputSchema] extracts body properties from,
    in the order in which it comes to them, each with the [required] flag
    that goes with it: the JSON schema of the request body, then the
    schemas of the [body] parameters. *)
Definition bodySchemas (endpoint : ApiEndpoint)
  : list (Schema * option bool) :=
  match e_requestBody endpoint with
  | Some requestBody =>
      match rb_content requestBody with
      | Some content =>
          match JsObj.get "application/json" content with
          | Some jsonContent =>
              match mt_schema jsonContent with
              | Some schema => [(schema, rb_required requestBody)]
              | None => []
              end
          | None => []
          end
      | None => []
      end
  | None => []
  end ++
  flat_map (fun param =>
              if String.eqb (p_in param) "body" then
                match p_schema param with
                | Some schema => [(schema, p_required param)]
                | None => []
                end
              else [])
           (e_parameters endpoint).

(** Extracting one of them and adding what was found. *)
Definition extractBody (depth : nat) (spec : ParsedApiSpec) (acc : Extracted)
           (body : Schema * option bool) : option Extracted :=
  match extractSchemaProperties depth (fst body) spec with
  | Some bodyProperties => Some (addBody bodyProperties (snd body) acc)
  | None => None
  end.

(** The turn of the loop of [generate] for one endpoint, as the list of
    tools that it adds. *)
Definition toolsOfEndpoint (depth : nat) (spec : ParsedApiSpec)
           (endpoint : ApiEndpoint) : list McpToolSpec :=
  if isAuthenticationEndpoint endpoint then []
  else match generateMcpTool depth endpoint spec with
       | Some tool => [tool]
       | None => []
       end.

(** The key under which [validateParameters] remembers a parameter. *)
Definition paramKey (param : ApiParameter) : string :=
  (p_name param ++ "-" ++ p_in param)%string.

(** What the structural validator asks of a parameter, of an operation,
    of a path with its operations, of a security scheme and of a whole
    document. *)
Definition SoundParameter (param : ApiParameter) : Prop :=
  p_name param <> ""%string /\
  p_in param <> ""%string /\
  (p_schema param <> None \/ Js.truthy (p_type param) = true) /\
  (p_in param = "path"%string -> p_required param = Some true).

Definition SoundOperation (operation : Operation) : Prop :=
  o_responses operation <> None /\
  (forall param, In param (default [] (o_parameters operation)) ->
                 SoundParameter param) /\
  NoDup (map paramKey (default [] (o_parameters operation))).

Definition SoundPath (pathEntry : string * list (string * Operation)) : Prop :=
  Js.startsWith (fst pathEntry) "/" = true /\
  forall method operation,
    In (method, operation) (snd pathEntry) ->
    Parser.isValidHttpMethod method = true ->
    SoundOperation operation.

Definition SoundScheme (scheme : SecurityScheme) : Prop :=
  Js.truthy (sc_type scheme) = true /\
  (sc_type scheme = Some "apiKey"%string ->
   Js.truthy (sc_name scheme) = true /\ Js.truthy (sc_in scheme) = true) /\
  (sc_type scheme = Some "http"%string ->
   Js.truthy (sc_scheme scheme) = true) /\
  (sc_type scheme = Some "oauth2"%string ->
   jsonTruthy (sc_flows scheme) = true) /\
  (sc_type scheme = Some "openIdConnect"%string ->
   Js.truthy (sc_openIdConnectUrl scheme) = true).

(** [spec.components?.securitySchemes], empty when absent. *)
Definition declaredSchemes (doc : SwaggerSpec)
  : list (string * SecurityScheme) :=
  match d_components doc with
  | Some components => default [] (c_securitySchemes components)
  | None => []
  end.

Definition SoundDocument (doc : SwaggerSpec) : Prop :=
  (exists info,
      d_info doc = Some info /\
      Js.truthy (i_title info) = true /\
      Js.truthy (i_version info) = true) /\
  (exists paths,
      d_paths doc = Some paths /\ paths <> [] /\
      forall pathEntry, In pathEntry paths -> SoundPath pathEntry) /\
  (Js.truthy (d_openapi doc) = true \/ Js.truthy (d_swagger doc) = true) /\
  (forall entry, In entry (declaredSchemes doc) -> SoundScheme (snd entry)).

(** The operations of a document that the parser turns into endpoints:
    those under an HTTP method, with their path and method, in the order
    of the document. *)
Definition operationsOf (doc : SwaggerSpec)
  : list (string * string * Operation) :=
  flat_map
    (fun pathEntry : string * list (string * Operation) =>
       flat_map
         (fun methodEntry : string * Operation =>
            if Parser.isValidHttpMethod (fst methodEntry)
            then [(fst pathEntry, fst methodEntry, snd methodEntry)]
            else [])
         (snd pathEntry))
    (default [] (d_paths doc)).

(** The seven methods of [HttpMethod]. *)
Definition httpMethods : list string :=
  ["GET"; "POST"; "PUT"; "DELETE"; "PATCH"; "HEAD"; "OPTIONS"].

(** The tools that one document contributes to a batch. *)
Definition toolsOfDocument (depth : nat) (doc : SwaggerSpec)
  : list McpToolSpec :=
  match Parser.convertToInternalFormat doc with
  | Some spec => generate depth spec
  | None => []
  end.





Definition startsWithDigit (s : string) : bool :=
  match s with
  | String c _ => Js.isDigit c
  | EmptyString => false
  end.

(** Every property of an extraction satisfies [P]. *)
Definition everyProperty (P : FlatProperty -> Prop) (acc : Extracted) : Prop :=
  forall k fp, In (k, fp) (ex_properties acc) -> P fp.

(** The reconstruction metadata of a property is all there or not there
    at all. *)
Definition MetadataComplete (fp : FlatProperty) : Prop :=
  (exists parentName, rootedAt parentName fp) \/
  (isFlattened fp = false /\ parentObject fp = None /\ originalPath fp = None).

(** The property under [k] is there and is marked as a body property. *)
Definition bodyAt (k : string) (acc : Extracted) : Prop :=
  exists fp, JsObj.get k (ex_properties acc) = Some fp /\
             isBodyParam fp = true.

(** ** Samples for the further properties *)

(** [GET /pets/{id}/toys]: a path parameter that the document does not mark
    as required, an optional query parameter, a required header and a
    signature header; no request body. *)
Definition signatureParameter : ApiParameter :=
  mkParameter "X-Payload-Signature" "header" (Some true) (Some stringSchema)
              None None.

Definition idParameter : ApiParameter :=
  mkParameter "id" "path" None (Some stringSchema) None None.

Definition toysEndpoint : ApiEndpoint :=
  mkApiEndpoint "/pets/{id}/toys" "GET" None (Some "List the toys of a pet")
    None None
    [idParameter;
     mkParameter "limit" "query" None
       (Some (plainSchema (Some "integer") None None None)) None None;
     mkParameter "X-Trace" "header" (Some true) (Some stringSchema) None None;
     signatureParameter]
    None (Some [("200", mkResponse "OK" None)]) None.

Definition toysSpec : ParsedApiSpec :=
  mkParsedApiSpec None None [toysEndpoint] ∅ [] None.

Definition toysInputSchema : InputSchema :=
  default (mkInputSchema "" [] None)
          (generateInputSchema 0 toysEndpoint toysSpec).

Definition toysTool : McpToolSpec :=
  default [] (generateMcpTool 0 toysEndpoint toysSpec).

(** An endpoint secured by an API key that the specification registers. *)
Definition securedEndpoint : ApiEndpoint :=
  mkApiEndpoint "/pets" "GET" (Some "listPets") None None None [] None None
                (Some [[("petKey", [])]]).

Definition securedSpec : ParsedApiSpec :=
  mkParsedApiSpec None None [securedEndpoint] ∅
    [("petKey",
      mkSecurityScheme (Some "apiKey") None (Some "X-Api-Key") (Some "header")
                       None None None None)]
    None.

Definition securedAuth : AuthenticationSpec :=
  mkAuthenticationSpec "apiKey" (Some "header") (Some "X-Api-Key")
                       "PETKEY_API_KEY".

(** [POST /owners] with the body that refers to [Owner], over the registry
    with the chain from [Owner] to [Address]. *)
Definition ownersEndpoint : ApiEndpoint :=
  mkApiEndpoint "/owners" "POST" (Some "createOwner") None None None []
    (Some (mkRequestBody None
             (Some [("application/json", mkMediaType (Some chainBody))])
             (Some true)))
    None None.

Definition ownersSpec : ParsedApiSpec :=
  mkParsedApiSpec None None [ownersEndpoint] (schemas chainSpec) [] None.

(** [PUT /pets/{id}] whose request body has a property [id] of its own. *)
Definition shadowBody : Schema * option bool :=
  (objectSchema [("id", plainSchema (Some "integer") None None None)] None,
   None).

Definition shadowEndpoint : ApiEndpoint :=
  mkApiEndpoint "/pets/{id}" "PUT" (Some "replacePet") None None None
    [idParameter]
    (Some (mkRequestBody None
             (Some [("application/json", mkMediaType (Some (fst shadowBody)))])
             (snd shadowBody)))
    None None.


(** * Properties *)

(** ** Strings *)

Lemma prefix_app (p r : string) : String.prefix p (p ++ r) = true.
Proof.
  induction p as [|c p IH]; simpl.
  - now destruct r.
  - destruct (ascii_dec c c) as [_|Hne]; [exact IH | now destruct Hne].
Qed.

Lemma prefix_split (p s : string) :
  String.prefix p s = true -> exists r, s = (p ++ r)%string.
Proof.
  revert s; induction p as [|c p IH]; intros s H.
  - now exists s.
  - destruct s as [|c' s]; simpl in H; [discriminate|].
    destruct (ascii_dec c c') as [->|_]; [|discriminate].
    destruct (IH _ H) as [r ->]. now exists r.
Qed.

Lemma dropChars_app (p r : string) :
  Js.dropChars (String.length p) (p ++ r) = r.
Proof. induction p as [|c p IH]; simpl; [now destruct r | exact IH]. Qed.

Lemma replaceFirst_unfold (pat rep s : string) :
  Js.replaceFirst pat rep s =
  if String.prefix pat s then (rep ++ Js.dropChars (String.length pat) s)%string
  else match s with
       | EmptyString => EmptyString
       | String c r => String c (Js.replaceFirst pat rep r)
       end.
Proof. now destruct s. Qed.

Lemma replaceFirst_prefix (pat rep r : string) :
  Js.replaceFirst pat rep (pat ++ r) = (rep ++ r)%string.
Proof.
  rewrite replaceFirst_unfold, prefix_app, dropChars_app. reflexivity.
Qed.

(** ** Objects *)

Lemma get_set {V : Type} (k k' : string) (v : V) (o : list (string * V)) :
  JsObj.get k (JsObj.set k' v o)
  = if String.eqb k k' then Some v else JsObj.get k o.
Proof.
  induction o as [|[k0 v0] r IH]; simpl; [reflexivity|].
  destruct (String.eqb k' k0) eqn:E0; simpl.
  - apply String.eqb_eq in E0 as ->.
    destruct (String.eqb k k0); reflexivity.
  - rewrite IH. destruct (String.eqb k k0) eqn:E1; [|reflexivity].
    apply String.eqb_eq in E1 as ->.
    rewrite String.eqb_sym, E0. reflexivity.
Qed.



Lemma in_set {V : Type} (k k' : string) (v v' : V) (o : list (string * V)) :
  In (k, v) (JsObj.set k' v' o) -> (k, v) = (k', v') \/ In (k, v) o.
Proof.
  induction o as [|[k0 v0] r IH]; simpl.
  - intros [H | []]. left. now symmetry.
  - destruct (String.eqb k' k0) eqn:E; simpl.
    + apply String.eqb_eq in E as ->. intros [H | H]; [left | right; right];
        [now symmetry | exact H].
    + intros [H | H]; [right; now left|].
      destruct (IH H) as [H' | H']; [now left | right; now right].
Qed.

Lemma in_assign {V : Type} (k : string) (v : V) (acc src : list (string * V)) :
  In (k, v) (JsObj.assign acc src) -> In (k, v) acc \/ In (k, v) src.
Proof.
  unfold JsObj.assign. revert acc.
  induction src as [|[k1 v1] src IH]; intros acc; simpl; [now left|].
  intros H. destruct (IH _ H) as [H1 | H1]; [|right; now right].
  destruct (in_set _ _ _ _ _ H1) as [H2 | H2]; [right; left | now left].
  now symmetry.
Qed.

(** ** Loops *)

Lemma forEachM_mono {A S : Type} (body1 body2 : S -> A -> option S)
      (xs : list A) :
  (forall st x st', In x xs -> body1 st x = Some st' -> body2 st x = Some st') ->
  forall st r, forEachM body1 xs st = Some r -> forEachM body2 xs st = Some r.
Proof.
  induction xs as [|x xs IH]; intros Hb st r; simpl; [trivial|].
  destruct (body1 st x) as [st'|] eqn:E; [|discriminate].
  rewrite (Hb st x st' (or_introl eq_refl) E).
  apply IH. intros st0 y st1 Hy. apply Hb. now right.
Qed.

Lemma forEachM_is_Some {A S : Type} (body : S -> A -> option S)
      (xs : list A) :
  (forall x, In x xs -> forall st, is_Some (body st x)) ->
  forall st, is_Some (forEachM body xs st).
Proof.
  induction xs as [|x xs IH]; intros Hb st; simpl; [eauto|].
  destruct (Hb x (or_introl eq_refl) st) as [st' ->].
  apply IH. intros y Hy. apply Hb. now right.
Qed.

(** An invariant that every turn of the loop keeps holds at the end. *)
Lemma forEachM_invariant {A S : Type} (body : S -> A -> option S)
      (Inv : list A -> S -> Prop) (xs : list A) :
  (forall done x st st',
      In x xs -> Inv done st -> body st x = Some st' ->
      Inv (done ++ [x]) st') ->
  forall done st r,
    Inv done st -> forEachM body xs st = Some r -> Inv (done ++ xs) r.
Proof.
  induction xs as [|x xs IH]; intros Hb done st r Hinv; simpl.
  - intros [= <-]. now rewrite app_nil_r.
  - destruct (body st x) as [st'|] eqn:E; [|discriminate].
    intros Hr.
    replace (done ++ x :: xs) with ((done ++ [x]) ++ xs)
      by now rewrite <- app_assoc.
    eapply IH; [|eapply Hb; [now left | exact Hinv | exact E] | exact Hr].
    intros done0 y st0 st1 Hy. apply Hb. now right.
Qed.

Lemma exists_common_depth {A : Type} (Q : nat -> A -> Prop) (xs : list A) :
  (forall d d' x, d <= d' -> Q d x -> Q d' x) ->
  (forall x, In x xs -> exists d, Q d x) ->
  exists d, forall x, In x xs -> Q d x.
Proof.
  intros Hmono. induction xs as [|x xs IH]; intros Hex.
  - exists 0. intros x [].
  - destruct (Hex x (or_introl eq_refl)) as [d1 H1].
    destruct IH as [d2 H2]; [intros y Hy; apply Hex; now right|].
    exists (Nat.max d1 d2). intros y [<- | Hy].
    + eapply Hmono; [|exact H1]. lia.
    + eapply Hmono; [|exact (H2 y Hy)]. lia.
Qed.

(** ** The schema resolver *)

Lemma resolve_components (name : string) (spec : ParsedApiSpec) :
  resolveSchemaReference (componentsPrefix ++ name) spec
  = schemaNamed spec name.
Proof.
  unfold resolveSchemaReference, Js.startsWith.
  rewrite prefix_app, replaceFirst_prefix. reflexivity.
Qed.

Lemma resolve_definitions (name : string) (spec : ParsedApiSpec) :
  resolveSchemaReference (definitionsPrefix ++ name) spec
  = schemaNamed spec name.
Proof.
  unfold resolveSchemaReference, Js.startsWith.
  replace (String.prefix componentsPrefix (definitionsPrefix ++ name))
    with false by reflexivity.
  rewrite prefix_app, replaceFirst_prefix. reflexivity.
Qed.

Lemma resolve_refersTo (ref name : string) (spec : ParsedApiSpec) :
  refersTo ref name -> resolveSchemaReference ref spec = schemaNamed spec name.
Proof.
  intros [-> | ->]; [apply resolve_components | apply resolve_definitions].
Qed.

Lemma resolve_Some_refersTo (ref : string) (spec : ParsedApiSpec) (s : Schema) :
  resolveSchemaReference ref spec = Some s ->
  exists name, refersTo ref name /\ schemaNamed spec name = Some s.
Proof.
  unfold resolveSchemaReference, Js.startsWith.
  destruct (String.prefix componentsPrefix ref) eqn:Hc.
  - apply prefix_split in Hc as [r ->]. rewrite replaceFirst_prefix.
    intros H. exists r. split; [now left | exact H].
  - destruct (String.prefix definitionsPrefix ref) eqn:Hd; [|discriminate].
    apply prefix_split in Hd as [r ->]. rewrite replaceFirst_prefix.
    intros H. exists r. split; [now right | exact H].
Qed.

Lemma arrayIncludes_In (xs : list string) (x : string) :
  Js.arrayIncludes xs x = true <-> In x xs.
Proof.
  unfold Js.arrayIncludes. rewrite existsb_exists. split.
  - intros (y & Hin & Heq). apply String.eqb_eq in Heq. now subst y.
  - intros Hin. exists x. split; [exact Hin | apply String.eqb_refl].
Qed.

(** The read of a name in the registry: the entry under a key of the
    registry, the inherited member under a name of [Object.prototype] that
    is no key, nothing otherwise. *)
Lemma schemaNamed_Some (spec : ParsedApiSpec) (name : string) (s : Schema) :
  schemaNamed spec name = Some s <->
  schemas spec !! name = Some s
  \/ (schemas spec !! name = None /\ In name objectPrototypeNames
      /\ s = inheritedMember).
Proof.
  unfold schemaNamed. destruct (schemas spec !! name) as [s0|].
  - split; [now left | intros [H | (H & _)]; [exact H | discriminate H]].
  - destruct (Js.arrayIncludes objectPrototypeNames name) eqn:E.
    + apply arrayIncludes_In in E. split.
      * intros [= <-]. right. now repeat split.
      * intros [H | (_ & _ & ->)]; [discriminate H | reflexivity].
    + split; [discriminate|].
      intros [H | (_ & Hin & _)]; [discriminate H|].
      apply arrayIncludes_In in Hin. congruence.
Qed.

(** What reference resolution returns, case by case: nothing is thrown; a
    registered name under one of the two prefixes gives its entry; a name of
    [Object.prototype] that is not registered gives the inherited member;
    everything else gives [null]. *)
Lemma resolveSchemaReference_exact (ref : string) (spec : ParsedApiSpec) :
  (forall name s,
      refersTo ref name -> schemas spec !! name = Some s ->
      resolveSchemaReference ref spec = Some s)
  /\ (forall name,
        refersTo ref name -> schemas spec !! name = None ->
        In name objectPrototypeNames ->
        resolveSchemaReference ref spec = Some inheritedMember)
  /\ ((~ exists name,
          refersTo ref name
          /\ (is_Some (schemas spec !! name) \/ In name objectPrototypeNames))
      -> resolveSchemaReference ref spec = None).
Proof.
  split; [|split].
  - intros name s Href Hs. rewrite (resolve_refersTo _ _ _ Href).
    apply schemaNamed_Some. now left.
  - intros name Href Hs Hin. rewrite (resolve_refersTo _ _ _ Href).
    apply schemaNamed_Some. right. now repeat split.
  - intros Hno. destruct (resolveSchemaReference ref spec) as [s|] eqn:E;
      [|reflexivity].
    destruct (resolve_Some_refersTo _ _ _ E) as (name & Href & Hs).
    exfalso. apply Hno. exists name. split; [exact Href|].
    apply schemaNamed_Some in Hs as [Hs | (_ & Hin & _)];
      [left; now exists s | now right].
Qed.

(** C3.  Reference resolution does not return the absent result for every
    name that the registry lacks.  Over the registry whose only key is
    [Pet], the name [constructor] is no key, and the reference
    [#/components/schemas/constructor] resolves to a value that is not
    [null]: the member that the registry object inherits under that
    name. *)
Theorem resolveSchemaReference_inherited_name :
  schemas petRegistry !! "constructor" = None
  /\ resolveSchemaReference "#/components/schemas/constructor" petRegistry
     = Some inheritedMember.
Proof.
  split.
  - apply lookup_singleton_ne. discriminate.
  - assert (Href : refersTo "#/components/schemas/constructor" "constructor")
      by (left; reflexivity).
    rewrite (resolve_refersTo _ _ _ Href).
    apply schemaNamed_Some. right. split; [|split; [|reflexivity]].
    + apply lookup_singleton_ne. discriminate.
    + cbv. tauto.
Qed.

(** C8.  Composition resolution returns its argument on every schema without
    [allOf], [oneOf] and [anyOf] (the schema's own [$ref] plays no part in
    this function, so the statement needs no hypothesis on it). *)
Theorem resolveSchemaComposition_identity :
  forall (S : Schema) (spec : ParsedApiSpec),
    s_ref S = None -> s_allOf S = None -> s_oneOf S = None ->
    s_anyOf S = None ->
    resolveSchemaComposition S spec = S.
Proof.
  intros S spec _ Hall Hone Hany. unfold resolveSchemaComposition.
  rewrite Hall, Hone, Hany. reflexivity.
Qed.

(** ** Composition *)

Lemma set_fields_properties p r t S :
  s_properties (set_type t (set_required r (set_properties p S))) = p.
Proof. now destruct S. Qed.







(** ** Where merged properties come from *)

Lemma in_mergeStep_fold spec members k v :
  forall props0 req0 ty0 props req ty,
    fold_left (mergeStep spec) members (props0, req0, ty0) = (props, req, ty) ->
    In (k, v) props ->
    In (k, v) props0 \/
    exists m, In m members /\ In (k, v) (memberProperties spec m).
Proof.
  induction members as [|m ms IH];
    intros props0 req0 ty0 props req ty Hfold Hin.
  - simpl in Hfold. injection Hfold as <- <- <-. now left.
  - cbn [fold_left] in Hfold. unfold mergeStep at 2 in Hfold.
    destruct (IH _ _ _ _ _ _ Hfold Hin) as [H | (m' & Hm' & H)].
    + unfold memberProperties.
      destruct (s_properties (resolveOrSelf m spec)) as [p|] eqn:Ep.
      * destruct (in_assign _ _ _ _ H) as [H' | H']; [now left|].
        right. exists m. split; [now left|]. now rewrite Ep.
      * now left.
    + right. exists m'. split; [now right | exact H].
Qed.

Lemma in_mergeMembers spec members S k v :
  In (k, v) (propertiesOf (mergeMembers spec members S)) ->
  exists m, In m members /\ In (k, v) (memberProperties spec m).
Proof.
  unfold mergeMembers, propertiesOf.
  destruct (fold_left (mergeStep spec) members ([], [], s_type S))
    as [[props req] ty] eqn:Hfold.
  rewrite set_fields_properties. simpl. intros Hin.
  destruct (in_mergeStep_fold _ _ _ _ _ _ _ _ _ _ Hfold Hin) as [[] | H].
  exact H.
Qed.

Lemma propertiesOf_spread a b :
  propertiesOf (spread a b)
  = match s_properties b with
    | Some p => p
    | None => propertiesOf a
    end.
Proof. unfold propertiesOf, spread. simpl. now destruct (s_properties b). Qed.

(** ** The two walkers, one call unfolded *)

Lemma flattenNestedObject_eq d schema spec parentName prefix :
  flattenNestedObject (S d) schema spec parentName prefix
  = match s_properties schema with
    | None => Some noneExtracted
    | Some props =>
        forEachM
          (flattenStep
             (fun resolvedSchema flattenedName =>
                flattenNestedObject d resolvedSchema spec parentName
                                    flattenedName)
             schema spec parentName prefix)
          props noneExtracted
    end.
Proof. reflexivity. Qed.

Lemma extractSchemaProperties_eq d schema spec :
  extractSchemaProperties (S d) schema spec
  = match resolvedRef schema spec with
    | Some resolvedSchema => extractSchemaProperties d resolvedSchema spec
    | None =>
        match
          match s_properties (resolveSchemaComposition schema spec) with
          | Some props => forEachM (extractStep d spec) props noneExtracted
          | None => Some noneExtracted
          end
        with
        | Some acc =>
            Some (match s_required (resolveSchemaComposition schema spec) with
                  | Some r => require r acc
                  | None => acc
                  end)
        | None => None
        end
    end.
Proof. reflexivity. Qed.

(** ** A deeper stack changes no result *)

Lemma flattenNestedObject_S depth schema spec parentName prefix r :
  flattenNestedObject depth schema spec parentName prefix = Some r ->
  flattenNestedObject (S depth) schema spec parentName prefix = Some r.
Proof.
  revert schema parentName prefix r.
  induction depth as [|d IH]; intros schema parentName prefix r;
    [discriminate|].
  rewrite (flattenNestedObject_eq d), (flattenNestedObject_eq (S d)).
  destruct (s_properties schema) as [props|]; [|trivial].
  apply forEachM_mono. intros acc [p ps] acc' _. unfold flattenStep.
  destruct (isNestedObject (resolveOrSelf ps spec)); [|trivial].
  destruct (flattenNestedObject d (resolveOrSelf ps spec) spec parentName
              (flattenedNameOf parentName prefix p)) as [n|] eqn:E;
    [|discriminate].
  now rewrite (IH _ _ _ _ E).
Qed.

Lemma flattenNestedObject_le d d' schema spec parentName prefix r :
  d <= d' ->
  flattenNestedObject d schema spec parentName prefix = Some r ->
  flattenNestedObject d' schema spec parentName prefix = Some r.
Proof.
  induction 1 as [|d' _ IH]; [trivial|].
  intros H. apply flattenNestedObject_S, IH, H.
Qed.

Lemma flattenInto_le d d' schema spec propName acc r :
  d <= d' ->
  flattenInto d schema spec propName acc = Some r ->
  flattenInto d' schema spec propName acc = Some r.
Proof.
  intros Hle. unfold flattenInto.
  destruct (flattenNestedObject d schema spec propName "") as [f|] eqn:E;
    [|discriminate].
  now rewrite (flattenNestedObject_le _ _ _ _ _ _ _ Hle E).
Qed.

Lemma extractStep_le d d' spec acc entry r :
  d <= d' ->
  extractStep d spec acc entry = Some r ->
  extractStep d' spec acc entry = Some r.
Proof.
  intros Hle. destruct entry as [p ps]. unfold extractStep.
  repeat match goal with
         | |- context [if ?c then _ else _] => destruct c
         | |- context [match ?o with Some _ => _ | None => _ end] =>
             destruct o
         end; trivial; apply flattenInto_le, Hle.
Qed.

Lemma extractSchemaProperties_S depth schema spec r :
  extractSchemaProperties depth schema spec = Some r ->
  extractSchemaProperties (S depth) schema spec = Some r.
Proof.
  revert schema r. induction depth as [|d IH]; intros schema r;
    [discriminate|].
  rewrite (extractSchemaProperties_eq d), (extractSchemaProperties_eq (S d)).
  destruct (resolvedRef schema spec) as [s'|]; [apply IH|].
  destruct (s_properties (resolveSchemaComposition schema spec)) as [props|];
    [|trivial].
  destruct (forEachM (extractStep d spec) props noneExtracted) as [acc|] eqn:E;
    [|discriminate].
  erewrite forEachM_mono; [exact (fun H => H) | | exact E].
  intros st x st' _. apply extractStep_le. lia.
Qed.

Lemma extractSchemaProperties_le d d' schema spec r :
  d <= d' ->
  extractSchemaProperties d schema spec = Some r ->
  extractSchemaProperties d' schema spec = Some r.
Proof.
  induction 1 as [|d' _ IH]; [trivial|].
  intros H. apply extractSchemaProperties_S, IH, H.
Qed.

(** ** What is listed as required *)

(** C1, as stated, fails twice.  In [ownerBody] the ancestor [owner] is
    not required, yet its descendant appears in the output's [required].
    In [requiredOwnerBody] the name [owner] appears in the output's
    [required] although [owner] was flattened away and is no property of
    the output. *)
Lemma required_ignores_ancestors :
  (exists r,
      extractSchemaProperties 3 ownerBody (registryOnly ∅) = Some r /\
      listedRequired ownerBody "owner" = false /\
      In "owner_name" (ex_required r)) /\
  (exists r,
      extractSchemaProperties 3 requiredOwnerBody (registryOnly ∅) = Some r /\
      JsObj.get "owner" (ex_properties r) = None /\
      In "owner" (ex_required r)).
Proof.
  split; eexists; (split; [vm_compute; reflexivity|]);
    (split; [reflexivity | simpl; tauto]).
Qed.

Lemma flattenNestedObject_required depth spec parentName :
  forall schema prefix r,
    flattenNestedObject depth schema spec parentName prefix = Some r ->
    forall n, In n (ex_required r) <-> Leaf spec parentName schema prefix n true.
Proof.
  induction depth as [|d IH]; intros schema prefix r; [discriminate|].
  rewrite flattenNestedObject_eq. unfold propertiesOf.
  destruct (s_properties schema) as [props|] eqn:Eprops.
  - pose (contributes := fun (entry : string * Schema) (n : string) =>
       let resolved := resolveOrSelf (snd entry) spec in
       let flat := flattenedNameOf parentName prefix (fst entry) in
       if isNestedObject resolved then Leaf spec parentName resolved flat n true
       else n = flat /\ listedRequired schema (fst entry) = true).
    intros Hloop.
    assert (Hinv : forall n,
               In n (ex_required r) <->
               exists entry, In entry ([] ++ props) /\ contributes entry n).
    { eapply (forEachM_invariant _
                (fun done acc =>
                   forall n, In n (ex_required acc) <->
                             exists entry, In entry done /\ contributes entry n));
        [| |exact Hloop].
      - intros done [p ps] acc acc' _ Hacc Hstep n.
        assert (Hsplit : (exists entry, In entry (done ++ [(p, ps)]) /\
                                        contributes entry n) <->
                         (exists entry, In entry done /\ contributes entry n) \/
                         contributes (p, ps) n).
        { split.
          - intros (e & He & Hc). apply in_app_or in He as [He | [<- | []]];
              [left; now exists e | now right].
          - intros [(e & He & Hc) | Hc].
            + exists e. split; [apply in_or_app; now left | exact Hc].
            + exists (p, ps). split; [apply in_or_app; right; now left|].
              exact Hc. }
        rewrite Hsplit, <- Hacc. clear Hsplit.
        unfold flattenStep in Hstep. unfold contributes; simpl.
        destruct (isNestedObject (resolveOrSelf ps spec)).
        + destruct (flattenNestedObject d (resolveOrSelf ps spec) spec
                      parentName (flattenedNameOf parentName prefix p))
            as [nested|] eqn:Enested; [|discriminate].
          injection Hstep as <-. simpl. rewrite in_app_iff.
          now rewrite (IH _ _ _ Enested n).
        + injection Hstep as <-.
          destruct (listedRequired schema p); simpl.
          * rewrite in_app_iff. simpl. intuition (subst; auto).
          * intuition discriminate.
      - intros n. simpl. split; [intros [] | intros (e & [] & _)]. }
    intros n. rewrite Hinv. simpl. split.
    + intros ([p ps] & Hin & Hc). unfold contributes in Hc; simpl in Hc.
      destruct (isNestedObject (resolveOrSelf ps spec)) eqn:En.
      * apply (Leaf_below _ _ _ _ p ps); [|exact En|exact Hc].
        unfold propertiesOf. now rewrite Eprops.
      * destruct Hc as [-> <-]. apply (Leaf_here _ _ _ _ _ ps); [|exact En].
        unfold propertiesOf. now rewrite Eprops.
    + intros Hleaf. inversion Hleaf as [? ? p ps Hin En | ? ? p ps ? ? Hin En Hl];
        subst; unfold propertiesOf in Hin; rewrite Eprops in Hin;
        exists (p, ps); (split; [exact Hin|]);
        unfold contributes; simpl; rewrite En; auto.
  - intros [= <-] n. simpl. split; [intros []|].
    intros Hleaf. inversion Hleaf as [? ? p ps Hin | ? ? p ps ? ? Hin];
      unfold propertiesOf in Hin; rewrite Eprops in Hin; destruct Hin.
Qed.

Lemma extractStep_flattened d spec acc p ps root :
  flattenRoot spec ps = Some root ->
  extractStep d spec acc (p, ps) = flattenInto d root spec p acc.
Proof.
  unfold flattenRoot, extractStep.
  destruct (Js.truthy (s_ref ps)).
  - destruct (resolvedRef ps spec) as [s'|]; [|discriminate].
    destruct (shouldFlattenObject s'); [|discriminate].
    now intros [= <-].
  - destruct (is_str (s_type ps) "object" && shouldFlattenObject ps);
      [now intros [= <-]|].
    cbv zeta.
    destruct (is_str (s_type (resolveSchemaComposition ps spec)) "object"
              && shouldFlattenObject (resolveSchemaComposition ps spec));
      [now intros [= <-] | discriminate].
Qed.

Lemma extractStep_kept d spec acc p ps :
  flattenRoot spec ps = None ->
  exists fp, extractStep d spec acc (p, ps) = Some (store p fp acc).
Proof.
  unfold flattenRoot, extractStep.
  destruct (Js.truthy (s_ref ps)).
  - destruct (resolvedRef ps spec) as [s'|]; [|eauto].
    destruct (shouldFlattenObject s'); [discriminate | eauto].
  - destruct (is_str (s_type ps) "object" && shouldFlattenObject ps);
      [discriminate|].
    cbv zeta.
    destruct (is_str (s_type (resolveSchemaComposition ps spec)) "object"
              && shouldFlattenObject (resolveSchemaComposition ps spec));
      [discriminate | eauto].
Qed.

(** The names that the loop of [extractSchemaProperties] pushes: those of
    the required leaves below the properties that it flattens. *)
Lemma extract_loop_required d spec props r :
  forEachM (extractStep d spec) props noneExtracted = Some r ->
  forall n,
    In n (ex_required r) <->
    exists p ps root,
      In (p, ps) props /\ flattenRoot spec ps = Some root /\
      Leaf spec p root "" n true.
Proof.
  intros Hloop.
  enough (H : forall n,
             In n (ex_required r) <->
             exists p ps root,
               In (p, ps) ([] ++ props) /\ flattenRoot spec ps = Some root /\
               Leaf spec p root "" n true) by exact H.
  eapply (forEachM_invariant _
            (fun done acc =>
               forall n, In n (ex_required acc) <->
                         exists p ps root,
                           In (p, ps) done /\ flattenRoot spec ps = Some root /\
                           Leaf spec p root "" n true));
    [| |exact Hloop].
  - intros done [p ps] acc acc' _ Hacc Hstep n.
    destruct (flattenRoot spec ps) as [root|] eqn:Eroot.
    + rewrite (extractStep_flattened _ _ _ _ _ _ Eroot) in Hstep.
      unfold flattenInto in Hstep.
      destruct (flattenNestedObject d root spec p "") as [f|] eqn:Ef;
        [|discriminate].
      injection Hstep as <-. simpl. rewrite in_app_iff, Hacc.
      rewrite (flattenNestedObject_required _ _ _ _ _ _ Ef n). split.
      * intros [(q & qs & rt & Hin & Hrt & Hl) | Hl].
        -- exists q, qs, rt. split; [apply in_or_app; now left | now split].
        -- exists p, ps, root.
           split; [apply in_or_app; right; now left | now split].
      * intros (q & qs & rt & Hin & Hrt & Hl).
        apply in_app_or in Hin as [Hin | [[= <- <-] | []]].
        -- left. now exists q, qs, rt.
        -- right. congruence.
    + destruct (extractStep_kept d spec acc p ps Eroot) as [fp Hfp].
      rewrite Hfp in Hstep. injection Hstep as <-. simpl. rewrite Hacc. split.
      * intros (q & qs & rt & Hin & Hrest).
        exists q, qs, rt. split; [apply in_or_app; now left | exact Hrest].
      * intros (q & qs & rt & Hin & Hrt & Hl).
        apply in_app_or in Hin as [Hin | [[= <- <-] | []]];
          [now exists q, qs, rt | congruence].
  - intros n. simpl. split; [intros [] | intros (q & qs & rt & [] & _)].
Qed.

(** C1, amended.  Let [body] be the schema at the end of the request-body
    schema's own reference chain, after composition resolution.  A
    descendant below a flattened property of [body] is listed in the
    output's [required] whenever its immediate parent schema lists it as
    required, whatever its ancestors do; and every entry of the output's
    [required] is the flattened name of such a descendant or is taken over
    from [body]'s own [required]. *)
Theorem required_follows_immediate_parent :
  forall (depth : nat) (schema : Schema) (spec : ParsedApiSpec)
         (r : Extracted),
    extractSchemaProperties depth schema spec = Some r ->
    exists body,
      RefChain spec schema body /\
      (forall p ps root n,
          In (p, ps) (propertiesOf (resolveSchemaComposition body spec)) ->
          flattenRoot spec ps = Some root ->
          Leaf spec p root "" n true ->
          In n (ex_required r)) /\
      (forall n,
          In n (ex_required r) ->
          In n (default [] (s_required (resolveSchemaComposition body spec))) \/
          exists p ps root,
            In (p, ps) (propertiesOf (resolveSchemaComposition body spec)) /\
            flattenRoot spec ps = Some root /\
            Leaf spec p root "" n true).
Proof.
  induction depth as [|d IH]; intros schema spec r; [discriminate|].
  rewrite extractSchemaProperties_eq.
  destruct (resolvedRef schema spec) as [s'|] eqn:Eref.
  - intros H. destruct (IH _ _ _ H) as (body & Hchain & Hrest).
    exists body. split; [|exact Hrest].
    eapply RefChain_step; eassumption.
  - intros H. exists schema. split; [now apply RefChain_end|].
    unfold propertiesOf.
    destruct (s_properties (resolveSchemaComposition schema spec))
      as [props|].
    + destruct (forEachM (extractStep d spec) props noneExtracted)
        as [acc|] eqn:Eloop; [|discriminate].
      pose proof (extract_loop_required _ _ _ _ Eloop) as Hacc.
      injection H as <-. simpl. split.
      * intros p ps root n Hin Hroot Hleaf.
        assert (In n (ex_required acc))
          by (apply Hacc; now exists p, ps, root).
        destruct (s_required (resolveSchemaComposition schema spec)); simpl;
          [apply in_or_app; now left | assumption].
      * intros n Hn.
        destruct (s_required (resolveSchemaComposition schema spec)); simpl in *.
        -- apply in_app_or in Hn as [Hn | Hn]; [|now left].
           right. now apply Hacc.
        -- right. now apply Hacc.
    + injection H as <-. simpl. split.
      * intros p ps root n [].
      * intros n Hn. left.
        destruct (s_required (resolveSchemaComposition schema spec));
          simpl in *; [|destruct Hn].
        exact Hn.
Qed.

(** ** Reconstruction metadata *)

Lemma mark_flattened_rootedAt parentName prefix propName fp :
  rootedAt parentName
    (mark_flattened (originalPathOf parentName prefix propName) parentName fp).
Proof.
  destruct fp. unfold rootedAt, originalPathOf; simpl.
  split; [reflexivity|]. split; [reflexivity|].
  destruct (nonEmpty prefix); eauto.
Qed.


(** C5: the code at a body whose path [owner.home_address.city] has an
    underscore in an intermediate name.  The one flattened property has
    [parentObject = "owner"], but its [originalPath] is
    [owner.home.address.city]: the path is rebuilt from the
    underscore-joined prefix, and every underscore of it becomes a dot. *)
Theorem originalPath_splits_underscored_names :
  exists r fp,
    extractSchemaProperties 4 addressBody (registryOnly ∅) = Some r /\
    ex_properties r = [("owner_home_address_city", fp)] /\
    isFlattened fp = true /\
    parentObject fp = Some "owner" /\
    originalPath fp = Some "owner.home.address.city" /\
    originalPath fp <> Some "owner.home_address.city".
Proof.
  do 2 eexists. split; [vm_compute; reflexivity|].
  split; [reflexivity|]. repeat split. discriminate.
Qed.

(** ** Termination: a self-reference *)

Lemma selfA_resolves :
  resolveOrSelf (refSchema "#/components/schemas/A") selfSpec = selfA.
Proof. reflexivity. Qed.

Lemma flatten_selfA_overflows depth prefix :
  flattenNestedObject depth selfA selfSpec "self" prefix = None.
Proof.
  revert prefix. induction depth as [|d IH]; intros prefix; [reflexivity|].
  rewrite flattenNestedObject_eq.
  change (s_properties selfA)
    with (Some [("self", refSchema "#/components/schemas/A");
                ("name", stringSchema)]).
  cbn [forEachM]. unfold flattenStep at 1. rewrite selfA_resolves.
  change (isNestedObject selfA) with true. cbv iota.
  rewrite IH. reflexivity.
Qed.

Lemma extract_selfA_overflows depth :
  extractSchemaProperties depth selfA selfSpec = None.
Proof.
  destruct depth as [|d]; [reflexivity|].
  rewrite extractSchemaProperties_eq.
  change (resolvedRef selfA selfSpec) with (@None Schema). cbv iota.
  change (resolveSchemaComposition selfA selfSpec) with selfA.
  change (s_properties selfA)
    with (Some [("self", refSchema "#/components/schemas/A");
                ("name", stringSchema)]).
  cbn [forEachM]. unfold extractStep at 1.
  change (Js.truthy (s_ref (refSchema "#/components/schemas/A"))) with true.
  change (resolvedRef (refSchema "#/components/schemas/A") selfSpec)
    with (Some selfA).
  change (shouldFlattenObject selfA) with true. cbv iota.
  unfold flattenInto. rewrite flatten_selfA_overflows. reflexivity.
Qed.

(** C2, as stated, fails: on the schema [A] with a property that refers to
    [A], no stack depth lets the extraction return. *)
Lemma self_reference_never_returns :
  ~ exists depth r, extractSchemaProperties depth selfA selfSpec = Some r.
Proof.
  intros (depth & r & H). rewrite extract_selfA_overflows in H. discriminate.
Qed.

(** ** Termination: the reference graph *)

Lemma followedRefs_eq (s : Schema) :
  followedRefs s
  = match s_ref s with Some r => [r] | None => [] end
    ++ flat_map (fun kv => followedRefs (snd kv)) (propertiesOf s)
    ++ flat_map followedRefs (default [] (s_allOf s))
    ++ flat_map followedRefs (default [] (s_oneOf s))
    ++ flat_map followedRefs (default [] (s_anyOf s)).
Proof.
  assert (Hp : forall l : list (string * Schema),
             (fix go (l : list (string * Schema)) : list string :=
                match l with
                | [] => []
                | (_, x) :: rest => followedRefs x ++ go rest
                end) l
             = flat_map (fun kv => followedRefs (snd kv)) l).
  { induction l as [|[k x] l IH]; simpl; [reflexivity | now rewrite IH]. }
  assert (Hl : forall l : list Schema,
             (fix go (l : list Schema) : list string :=
                match l with
                | [] => []
                | x :: rest => followedRefs x ++ go rest
                end) l
             = flat_map followedRefs l).
  { induction l as [|x l IH]; simpl; [reflexivity | now rewrite IH]. }
  destruct s; unfold propertiesOf; simpl.
  repeat match goal with
         | |- context [match ?o with Some _ => _ | None => _ end] =>
             destruct o
         end; simpl; rewrite ?Hp, ?Hl; reflexivity.
Qed.

Lemma followedRefs_own s r : s_ref s = Some r -> In r (followedRefs s).
Proof.
  intros H. rewrite followedRefs_eq, H. now left.
Qed.

Lemma followedRefs_property s p ps :
  In (p, ps) (propertiesOf s) -> incl (followedRefs ps) (followedRefs s).
Proof.
  intros Hin r Hr. rewrite (followedRefs_eq s).
  apply in_or_app. right. apply in_or_app. left.
  apply in_flat_map. now exists (p, ps).
Qed.

Lemma followedRefs_allOf s ms m :
  s_allOf s = Some ms -> In m ms -> incl (followedRefs m) (followedRefs s).
Proof.
  intros H Hin r Hr. rewrite (followedRefs_eq s), H.
  do 2 (apply in_or_app; right). apply in_or_app. left.
  apply in_flat_map. now exists m.
Qed.

Lemma followedRefs_oneOf s ms m :
  s_oneOf s = Some ms -> In m ms -> incl (followedRefs m) (followedRefs s).
Proof.
  intros H Hin r Hr. rewrite (followedRefs_eq s), H.
  do 3 (apply in_or_app; right). apply in_or_app. left.
  apply in_flat_map. now exists m.
Qed.

Lemma followedRefs_anyOf s ms m :
  s_anyOf s = Some ms -> In m ms -> incl (followedRefs m) (followedRefs s).
Proof.
  intros H Hin r Hr. rewrite (followedRefs_eq s), H.
  do 4 (apply in_or_app; right).
  apply in_flat_map. now exists m.
Qed.

Lemma height_property s p ps :
  In (p, ps) (propertiesOf s) -> height ps < height s.
Proof.
  unfold propertiesOf. destruct s as [? ? ? props]; simpl.
  destruct props as [l|]; simpl; [|intros []].
  induction l as [|[k x] l IH]; simpl; [intros []|].
  intros [[= -> ->] | Hin]; [lia|].
  specialize (IH Hin). lia.
Qed.

Section Ranked.
Variable spec : ParsedApiSpec.
Variable rank : string -> nat.

Lemma refersBelow_incl b s s' :
  incl (followedRefs s') (followedRefs s) ->
  refersBelow spec rank b s -> refersBelow spec rank b s'.
Proof. intros Hincl H ref name Hin. apply H, Hincl, Hin. Qed.

Lemma refersBelow_le b b' s :
  b <= b' -> refersBelow spec rank b s -> refersBelow spec rank b' s.
Proof.
  intros Hle H ref name Hin Href Hsome.
  specialize (H ref name Hin Href Hsome). lia.
Qed.

(** The inherited member refers to nothing. *)
Lemma refersBelow_inheritedMember b :
  refersBelow spec rank b inheritedMember.
Proof. intros ref name Hin. destruct Hin. Qed.

Lemma refersBelow_propsBelow b s :
  refersBelow spec rank b s -> propsBelow spec rank b s.
Proof.
  intros H p ps Hin. eapply refersBelow_incl; [|exact H].
  eapply followedRefs_property, Hin.
Qed.

Hypothesis acyclic : Acyclic spec rank.

(** Following the schema's own reference lands strictly below. *)
Lemma refersBelow_resolvedRef b s s' :
  refersBelow spec rank b s -> resolvedRef s spec = Some s' ->
  s' = inheritedMember \/ exists b', b' < b /\ refersBelow spec rank b' s'.
Proof.
  intros Hb. unfold resolvedRef.
  destruct (Js.truthy (s_ref s)); [|discriminate].
  destruct (s_ref s) as [ref|] eqn:Href; simpl.
  - intros Hres.
    destruct (resolve_Some_refersTo _ _ _ Hres) as (name & Hname & Hs').
    apply schemaNamed_Some in Hs' as [Hs' | (_ & _ & ->)]; [|now left].
    right. exists (rank name). split.
    + apply (Hb ref name); [now apply followedRefs_own | exact Hname |].
      now rewrite Hs'.
    + now apply acyclic.
  - intros Hres.
    destruct (resolve_Some_refersTo _ _ _ Hres) as (name & [H | H] & _);
      discriminate H.
Qed.

Lemma refersBelow_resolveOrSelf b s :
  refersBelow spec rank b s -> refersBelow spec rank b (resolveOrSelf s spec).
Proof.
  intros Hb. unfold resolveOrSelf.
  destruct (resolvedRef s spec) as [s'|] eqn:E; [|exact Hb].
  destruct (refersBelow_resolvedRef _ _ _ Hb E) as [-> | (b' & Hlt & Hb')].
  - apply refersBelow_inheritedMember.
  - eapply refersBelow_le; [|exact Hb']. lia.
Qed.

(** Flattening returns on every schema whose properties refer below some
    rank. *)
Lemma flattenNestedObject_terminates :
  forall b s,
    propsBelow spec rank b s ->
    exists d, forall parentName prefix,
      is_Some (flattenNestedObject d s spec parentName prefix).
Proof.
  induction b as [b IHb] using lt_wf_ind.
  intros s. remember (height s) as h eqn:Hh. revert s Hh.
  induction h as [h IHh] using lt_wf_ind. intros s -> Hbelow.
  pose (Q := fun (d : nat) (entry : string * Schema) =>
               forall parentName prefix,
                 is_Some (flattenNestedObject d
                            (resolveOrSelf (snd entry) spec) spec
                            parentName prefix)).
  assert (Hmono : forall d d' x, d <= d' -> Q d x -> Q d' x).
  { intros d d' x Hle Hq parentName prefix.
    destruct (Hq parentName prefix) as [r Hr]. exists r.
    eapply flattenNestedObject_le; eassumption. }
  assert (Hex : forall x, In x (propertiesOf s) -> exists d, Q d x).
  { intros [p ps] Hin. unfold Q, resolveOrSelf. simpl.
    pose proof (Hbelow p ps Hin) as Hps.
    destruct (resolvedRef ps spec) as [s'|] eqn:E.
    - destruct (refersBelow_resolvedRef _ _ _ Hps E)
        as [-> | (b' & Hlt & Hb')].
      + exists 1. intros parentName prefix. rewrite flattenNestedObject_eq.
        simpl. eauto.
      + apply (IHb b' Hlt). now apply refersBelow_propsBelow.
    - apply (IHh (height ps)); [|reflexivity|].
      + eapply height_property, Hin.
      + now apply refersBelow_propsBelow. }
  destruct (exists_common_depth Q _ Hmono Hex) as [d Hd].
  exists (S d). intros parentName prefix.
  rewrite flattenNestedObject_eq. unfold propertiesOf in Hd.
  destruct (s_properties s) as [props|]; [|eauto].
  apply forEachM_is_Some. intros [p ps] Hin acc. unfold flattenStep.
  destruct (isNestedObject (resolveOrSelf ps spec)); [|eauto].
  destruct (Hd (p, ps) Hin parentName (flattenedNameOf parentName prefix p))
    as [r Hr].
  simpl in Hr. rewrite Hr. eauto.
Qed.
End Ranked.

(** ** Termination: acyclic registries *)

Section Terminates.
Variable spec : ParsedApiSpec.
Variable rank : string -> nat.
Hypothesis acyclic : Acyclic spec rank.

Lemma propsBelow_mergeMembers b members S :
  (forall m, In m members -> refersBelow spec rank b m) ->
  propsBelow spec rank b (mergeMembers spec members S).
Proof.
  intros Hm p ps Hin.
  apply in_mergeMembers in Hin as (m & Hmem & Hin).
  refine (refersBelow_propsBelow spec rank b (resolveOrSelf m spec) _
                                 p ps Hin).
  apply refersBelow_resolveOrSelf; [exact acyclic | now apply Hm].
Qed.

(** The properties of a composition-resolved schema refer no higher than
    the schema did. *)
Lemma propsBelow_resolveSchemaComposition b s :
  refersBelow spec rank b s ->
  propsBelow spec rank b (resolveSchemaComposition s spec).
Proof.
  intros Hb. unfold resolveSchemaComposition.
  set (R1 := match s_allOf s with
             | Some members => mergeMembers spec members s
             | None => s
             end).
  assert (H1 : propsBelow spec rank b R1).
  { subst R1. destruct (s_allOf s) as [ms|] eqn:E.
    - apply propsBelow_mergeMembers. intros m Hin.
      eapply refersBelow_incl; [|exact Hb].
      eapply followedRefs_allOf; eassumption.
    - now apply refersBelow_propsBelow. }
  set (R2 := match s_oneOf s with
             | Some (firstSchema :: _) =>
                 spread R1 (resolveOrSelf firstSchema spec)
             | _ => R1
             end).
  assert (H2 : propsBelow spec rank b R2).
  { subst R2. destruct (s_oneOf s) as [[|f fs]|] eqn:E; try exact H1.
    intros p ps. rewrite propertiesOf_spread.
    destruct (s_properties (resolveOrSelf f spec)) as [props|] eqn:Ep;
      [|apply H1].
    intros Hin.
    refine (refersBelow_propsBelow spec rank b (resolveOrSelf f spec) _
                                   p ps _).
    - apply refersBelow_resolveOrSelf; [exact acyclic|].
      eapply refersBelow_incl; [|exact Hb].
      eapply followedRefs_oneOf; [exact E | now left].
    - unfold propertiesOf. now rewrite Ep. }
  destruct (s_anyOf s) as [ms|] eqn:E; [|exact H2].
  apply propsBelow_mergeMembers. intros m Hin.
  eapply refersBelow_incl; [|exact Hb].
  eapply followedRefs_anyOf; eassumption.
Qed.

Lemma flattenInto_terminates b s :
  propsBelow spec rank b s ->
  exists d, forall d' propName acc,
    d <= d' -> is_Some (flattenInto d' s spec propName acc).
Proof.
  intros Hb.
  destruct (flattenNestedObject_terminates spec rank acyclic b s Hb)
    as [d Hd].
  exists d. intros d' propName acc Hle. unfold flattenInto.
  destruct (Hd propName "") as [r Hr].
  rewrite (flattenNestedObject_le _ _ _ _ _ _ _ Hle Hr). eauto.
Qed.

Lemma extractStep_terminates b p ps :
  refersBelow spec rank b ps ->
  exists d, forall d' acc,
    d <= d' -> is_Some (extractStep d' spec acc (p, ps)).
Proof.
  intros Hb.
  destruct (flattenInto_terminates b ps) as [d1 H1];
    [now apply refersBelow_propsBelow|].
  destruct (flattenInto_terminates b (resolveSchemaComposition ps spec))
    as [d2 H2]; [now apply propsBelow_resolveSchemaComposition|].
  assert (H3 : exists d3, forall s',
               resolvedRef ps spec = Some s' ->
               forall d' propName acc,
                 d3 <= d' -> is_Some (flattenInto d' s' spec propName acc)).
  { destruct (resolvedRef ps spec) as [s'|] eqn:E.
    - assert (Hb' : exists b', refersBelow spec rank b' s').
      { destruct (refersBelow_resolvedRef spec rank acyclic _ _ _ Hb E)
          as [-> | (b' & _ & Hb')].
        - exists 0. apply refersBelow_inheritedMember.
        - now exists b'. }
      destruct Hb' as [b' Hb'].
      destruct (flattenInto_terminates b' s') as [d3 Hd3];
        [now apply refersBelow_propsBelow|].
      exists d3. now intros s0 [= <-].
    - exists 0. discriminate. }
  destruct H3 as [d3 H3].
  exists (Nat.max d1 (Nat.max d2 d3)). intros d' acc Hle.
  unfold extractStep.
  destruct (Js.truthy (s_ref ps)).
  - destruct (resolvedRef ps spec) as [s'|] eqn:E; [|eauto].
    destruct (shouldFlattenObject s'); [|eauto].
    apply (H3 s' eq_refl). lia.
  - destruct (is_str (s_type ps) "object" && shouldFlattenObject ps).
    + apply H1. lia.
    + destruct (is_str (s_type (resolveSchemaComposition ps spec)) "object"
                && shouldFlattenObject (resolveSchemaComposition ps spec));
        [|eauto].
      apply H2. lia.
Qed.

Lemma extractSchemaProperties_terminates_below :
  forall b s,
    refersBelow spec rank b s ->
    exists d, is_Some (extractSchemaProperties d s spec).
Proof.
  induction b as [b IHb] using lt_wf_ind. intros s Hb.
  destruct (resolvedRef s spec) as [s'|] eqn:E.
  - destruct (refersBelow_resolvedRef spec rank acyclic _ _ _ Hb E)
      as [-> | (b' & Hlt & Hb')].
    + exists 2. rewrite extractSchemaProperties_eq, E.
      rewrite extractSchemaProperties_eq. simpl. eauto.
    + destruct (IHb b' Hlt s' Hb') as [d Hd].
      exists (S d). now rewrite extractSchemaProperties_eq, E.
  - pose proof (propsBelow_resolveSchemaComposition b s Hb) as Hprops.
    pose (Q := fun (d : nat) (entry : string * Schema) =>
                 forall d' acc,
                   d <= d' -> is_Some (extractStep d' spec acc entry)).
    destruct (exists_common_depth Q
                (propertiesOf (resolveSchemaComposition s spec)))
      as [d Hd].
    + intros d1 d2 x Hle Hq d' acc Hle'. apply Hq. lia.
    + intros [p ps] Hin. eapply extractStep_terminates, Hprops, Hin.
    + exists (S d). rewrite extractSchemaProperties_eq, E.
      unfold propertiesOf in Hd.
      destruct (s_properties (resolveSchemaComposition s spec))
        as [props|]; [|eauto].
      destruct (forEachM_is_Some (extractStep d spec) props) with
        (st := noneExtracted) as [acc ->]; [|eauto].
      intros x Hin st. apply (Hd x Hin). lia.
Qed.

(** Every schema refers below some rank. *)
Lemma refersBelow_exists s : exists b, refersBelow spec rank b s.
Proof.
  unfold refersBelow. induction (followedRefs s) as [|r l [b IH]].
  - exists 0. intros ref name [].
  - exists (Nat.max b
              (S (Nat.max
                    (rank (Js.dropChars (String.length componentsPrefix) r))
                    (rank (Js.dropChars (String.length definitionsPrefix)
                                        r))))).
    intros ref name [<- | Hin] Href Hsome.
    + destruct Href as [-> | ->].
      * rewrite (dropChars_app componentsPrefix name). lia.
      * rewrite (dropChars_app definitionsPrefix name). lia.
    + specialize (IH ref name Hin Href Hsome). lia.
Qed.
End Terminates.

(** C2, amended.  When the reference graph of the registry is acyclic
    (some rank decreases along every reference that the walkers can follow
    from a registered schema to a registered schema), property extraction
    and flattening return on every schema: from some stack depth on, the
    result is there and no longer changes.  (Reference resolution and
    composition resolution are not recursive at all.) *)
Theorem extraction_terminates_when_acyclic :
  forall (spec : ParsedApiSpec) (rank : string -> nat),
    Acyclic spec rank ->
    forall schema : Schema,
      (exists depth r,
          forall depth', depth <= depth' ->
                         extractSchemaProperties depth' schema spec = Some r) /\
      (forall parentName prefix,
          exists depth r,
            forall depth', depth <= depth' ->
                           flattenNestedObject depth' schema spec parentName
                                               prefix = Some r).
Proof.
  intros spec rank Hacyclic schema.
  destruct (refersBelow_exists spec rank schema) as [b Hb]. split.
  - destruct (extractSchemaProperties_terminates_below spec rank Hacyclic
                b schema Hb) as (depth & r & Hr).
    exists depth, r. intros depth' Hle.
    eapply extractSchemaProperties_le; eassumption.
  - intros parentName prefix.
    destruct (flattenNestedObject_terminates spec rank Hacyclic b schema)
      as [depth Hd]; [now apply refersBelow_propsBelow|].
    destruct (Hd parentName prefix) as [r Hr].
    exists depth, r. intros depth' Hle.
    eapply flattenNestedObject_le; eassumption.
Qed.

Example chainBody_extracted :
  exists r,
    extractSchemaProperties 3 chainBody chainSpec = Some r /\
    JsObj.keys (ex_properties r) = ["owner_name"; "owner_address_city"] /\
    ex_required r = ["owner_address_city"].
Proof. eexists. split; [vm_compute; reflexivity|]. split; reflexivity. Qed.

(** ** The tool synthesizer *)

Lemma generate_fold_In depth spec tool es tools0 :
  In tool (fold_left (generateStep depth spec) es tools0) <->
  In tool tools0 \/
  exists endpoint,
    In endpoint es /\ isAuthenticationEndpoint endpoint = false /\
    generateMcpTool depth endpoint spec = Some tool.
Proof.
  revert tools0. induction es as [|e es IH]; intros tools0; simpl.
  - split; [now left | intros [H | (x & [] & _)]; exact H].
  - rewrite IH. unfold generateStep.
    destruct (isAuthenticationEndpoint e) eqn:Hauth.
    + split.
      * intros [H | (x & Hx & Hrest)]; [now left|].
        right. exists x. split; [now right | exact Hrest].
      * intros [H | (x & [-> | Hx] & Hna & Hgen)]; [now left | congruence |].
        right. now exists x.
    + destruct (generateMcpTool depth e spec) as [t|] eqn:Hgen.
      * split.
        -- intros [H | (x & Hx & Hrest)].
           ++ apply in_app_or in H as [H | [<- | []]]; [now left|].
              right. exists e. split; [now left | now split].
           ++ right. exists x. split; [now right | exact Hrest].
        -- intros [H | (x & [-> | Hx] & Hna & Hgen')].
           ++ left. apply in_or_app. now left.
           ++ left. apply in_or_app. right. left. congruence.
           ++ right. now exists x.
      * split.
        -- intros [H | (x & Hx & Hrest)]; [now left|].
           right. exists x. split; [now right | exact Hrest].
        -- intros [H | (x & [-> | Hx] & Hna & Hgen')];
             [now left | congruence |].
           right. now exists x.
Qed.

(** A tool is in the output exactly when it is the tool of an endpoint that
    is not an authentication endpoint. *)
Lemma generate_In depth spec tool :
  In tool (generate depth spec) <->
  exists endpoint,
    In endpoint (endpoints spec) /\ isAuthenticationEndpoint endpoint = false /\
    generateMcpTool depth endpoint spec = Some tool.
Proof.
  unfold generate. rewrite generate_fold_In. split.
  - intros [[] | H]; exact H.
  - intros H. now right.
Qed.

(** The object literal of [generateMcpTool], key by key. *)
Lemma generateMcpTool_literal depth endpoint spec tool :
  generateMcpTool depth endpoint spec = Some tool ->
  exists inputSchema,
    generateInputSchema depth endpoint spec = Some inputSchema /\
    tool =
      [("name", TString (generateToolName endpoint));
       ("description", TString (generateToolDescription endpoint));
       ("inputSchema", TInputSchema inputSchema);
       ("method", TString (e_method endpoint));
       ("path", TString (e_path endpoint));
       ("baseUrl", TString (Generator.getBaseUrl spec))]
      ++ spreadIf "authentication" TAuthentication
           (generateAuthenticationSpec endpoint spec)
      ++ spreadIf "headerParams" THeaderParams
           (match headerParamsOf endpoint with
            | [] => None
            | _ :: _ => Some (headerParamsOf endpoint)
            end)
      ++ [("responseHandling", TResponseHandling fixedResponseHandling);
          ("errorHandling", TErrorHandling fixedErrorHandling)].
Proof.
  unfold generateMcpTool.
  destruct (generateInputSchema depth endpoint spec) as [i|]; [|discriminate].
  intros [= <-]. now exists i.
Qed.

Lemma headerParamsOf_nonempty endpoint :
  headerParamsOf endpoint <> [] <->
  exists param, In param (e_parameters endpoint) /\ p_in param = "header".
Proof.
  unfold headerParamsOf. induction (e_parameters endpoint) as [|p ps IH].
  - simpl. split; [intros H; now destruct H | intros (q & [] & _)].
  - cbn [List.filter]. destruct (String.eqb (p_in p) "header") eqn:E.
    + apply String.eqb_eq in E. split; [|discriminate].
      intros _. exists p. split; [now left | exact E].
    + apply String.eqb_neq in E. rewrite IH. split.
      * intros (q & Hq & Hh). exists q. split; [now right | exact Hh].
      * intros (q & [<- | Hq] & Hh); [contradiction|]. now exists q.
Qed.

(** C6.  The Pet Store document parses, and for any stack depth tool
    synthesis yields exactly one tool: its name is [get_pet_by_id], the
    [required] of its input schema is [["id"]], and the property [id] of its
    input schema has [isPathParam] set. *)
Theorem petStore_one_tool :
  exists spec,
    Parser.convertToInternalFormat petStoreDoc = Some spec /\
    forall depth, exists tool inputSchema idProp,
      generate depth spec = [tool] /\
      JsObj.get "name" tool = Some (TString "get_pet_by_id") /\
      inputSchemaOf tool = Some inputSchema /\
      is_required inputSchema = Some ["id"] /\
      JsObj.get "id" (is_properties inputSchema) = Some idProp /\
      isPathParam idProp = true.
Proof.
  eexists. split; [reflexivity|].
  intros depth. do 3 eexists.
  split; [vm_compute; reflexivity|].
  repeat split; reflexivity.
Qed.

(** The [baseUrl] of every tool is what the generator's [getBaseUrl]
    returns for the specification. *)
Lemma generate_baseUrl depth spec tool :
  In tool (generate depth spec) ->
  JsObj.get "baseUrl" tool = Some (TString (Generator.getBaseUrl spec)).
Proof.
  intros Hin.
  apply generate_In in Hin as (endpoint & _ & _ & Hgen).
  apply generateMcpTool_literal in Hgen as (i & _ & ->).
  reflexivity.
Qed.

(** C10.  When the parsed specification has no [servers], every synthesized
    tool has the empty string as its [baseUrl]. *)
Theorem tool_baseUrl_empty_without_servers :
  forall (depth : nat) (spec : ParsedApiSpec) (tool : McpToolSpec),
    servers spec = None ->
    In tool (generate depth spec) ->
    JsObj.get "baseUrl" tool = Some (TString "").
Proof.
  intros depth spec tool Hservers Hin.
  rewrite (generate_baseUrl _ _ _ Hin).
  unfold Generator.getBaseUrl. rewrite Hservers. reflexivity.
Qed.

(** The parser copies [servers] and nothing else that a base URL could be
    derived from: a document without [servers] gives tools with an empty
    [baseUrl], whatever its [host], [basePath] and [schemes]. *)
Lemma convertToInternalFormat_servers doc spec :
  Parser.convertToInternalFormat doc = Some spec ->
  servers spec = d_servers doc.
Proof.
  unfold Parser.convertToInternalFormat.
  destruct (d_paths doc); [|discriminate]. now intros [= <-].
Qed.

Corollary tool_baseUrl_ignores_swagger2_host :
  forall (depth : nat) (doc : SwaggerSpec) (spec : ParsedApiSpec)
         (tool : McpToolSpec),
    d_servers doc = None ->
    Parser.convertToInternalFormat doc = Some spec ->
    In tool (generate depth spec) ->
    JsObj.get "baseUrl" tool = Some (TString "").
Proof.
  intros depth doc spec tool Hservers Hconv Hin.
  rewrite (generate_baseUrl _ _ _ Hin).
  unfold Generator.getBaseUrl.
  rewrite (convertToInternalFormat_servers _ _ Hconv), Hservers.
  reflexivity.
Qed.

(** The parser's own helper does have the Swagger 2.0 fallback. *)
Example parser_getBaseUrl_swagger2 :
  Parser.getBaseUrl swagger2Doc = "https://api.example.com/v1" /\
  Generator.getBaseUrl swagger2Spec = "".
Proof. split; reflexivity. Qed.

(** C7, as stated, fails: the tool of an endpoint with a header parameter
    has the key [headerParams], which the data model does not name. *)
Lemma tool_has_headerParams_field :
  In tracedTool (generate 1 tracedSpec) /\
  In "headerParams" (JsObj.keys tracedTool) /\
  ~ In "headerParams" dataModelFields.
Proof.
  split; [vm_compute; now left|].
  split; [vm_compute; tauto|].
  unfold dataModelFields. simpl.
  intros H. repeat destruct H as [H|H]; try discriminate H. exact H.
Qed.

(** C7, amended.  Every synthesized tool is what [generateMcpTool] returns
    for an endpoint of the specification that is not an authentication
    endpoint; its keys are among the nine of the data model and
    [headerParams]; [headerParams] is there exactly when that endpoint has a
    parameter located in the header, and then holds the header metadata of
    that endpoint (names, parameter names, required flags, descriptions).
    No constructor of [ToolValue] holds a registry. *)
Theorem tool_fields :
  forall (depth : nat) (spec : ParsedApiSpec) (tool : McpToolSpec),
    In tool (generate depth spec) ->
    exists endpoint,
      In endpoint (endpoints spec) /\
      isAuthenticationEndpoint endpoint = false /\
      generateMcpTool depth endpoint spec = Some tool /\
      (forall k, In k (JsObj.keys tool) ->
                 In k dataModelFields \/ k = "headerParams") /\
      (In "headerParams" (JsObj.keys tool) <->
       exists param, In param (e_parameters endpoint) /\
                     p_in param = "header") /\
      (forall v, JsObj.get "headerParams" tool = Some v ->
                 v = THeaderParams (headerParamsOf endpoint)).
Proof.
  intros depth spec tool Hin.
  apply generate_In in Hin as (endpoint & Hend & Hauth & Hgen).
  exists endpoint.
  split; [exact Hend|]. split; [exact Hauth|]. split; [exact Hgen|].
  apply generateMcpTool_literal in Hgen as (i & _ & ->).
  rewrite <- headerParamsOf_nonempty.
  destruct (generateAuthenticationSpec endpoint spec) as [a|];
    destruct (headerParamsOf endpoint) as [|h hs]; simpl;
    (split; [|split]);
    try (intros k Hk; unfold dataModelFields; simpl;
         repeat destruct Hk as [<-|Hk]; tauto);
    try (split; [intros H; repeat destruct H as [H|H];
                 solve [discriminate H | destruct H | congruence]
                | intros H; solve [now destruct H | tauto]]);
    try (intros v [= <-]; reflexivity);
    try (intros v; discriminate).
Qed.

(** ** The structural validator *)

Module ValidatorFacts.
Import Validator.



Lemma keeps_pushError msg r : keeps r (pushError msg r).
Proof. apply incl_appl, incl_refl. Qed.

Lemma keeps_pushWarning msg r : keeps r (pushWarning msg r).
Proof. apply incl_refl. Qed.

Lemma keeps_pushSuggestion msg r : keeps r (pushSuggestion msg r).
Proof. apply incl_refl. Qed.


Create HintDb keeps.
#[local] Hint Resolve keeps_pushError keeps_pushWarning
  keeps_pushSuggestion : keeps.



Lemma andThen_Returned o next r' :
  andThen o next = Returned r' ->
  exists r, o = Returned r /\ next r = Returned r'.
Proof. destruct o as [r|fault r]; simpl; [eauto | discriminate]. Qed.








(** *** Documents without a [null] entry: no statement throws *)

Lemma forEach_map {A B : Type} (f : A -> B) (body : B -> Report -> Outcome)
      (xs : list A) (r : Report) :
  forEach body (map f xs) r = forEach (fun x => body (f x)) xs r.
Proof.
  revert r. induction xs as [|x xs IH]; intros r; simpl; [reflexivity|].
  destruct (body (f x) r) as [r1|fault r1]; simpl; [apply IH | reflexivity].
Qed.

Lemma forEach_completes {A : Type} (body : A -> Report -> Outcome)
      (xs : list A) :
  (forall x r, In x xs -> exists r', body x r = Returned r') ->
  forall r, exists r', forEach body xs r = Returned r'.
Proof.
  induction xs as [|x xs IH]; intros Hbody r; simpl; [eauto|].
  destruct (Hbody x r (or_introl eq_refl)) as [r1 ->]. simpl.
  apply IH. intros y r0 Hy. apply Hbody. now right.
Qed.

Lemma parametersLoop_typed key params :
  forall st,
    parametersLoop key (map Some params) st
    = Returned (snd (fold_left (validateParameter key) params st)).
Proof.
  induction params as [|p ps IH]; intros st; simpl; [reflexivity | apply IH].
Qed.

Lemma validateOperation_completes path method operation r :
  exists r',
    validateOperation path method (Some (rawOperation operation)) r
    = Returned r'.
Proof.
  unfold validateOperation, rawOperation. cbn [r_parameters].
  destruct (o_parameters operation) as [parameters|]; cbn [option_map].
  - unfold validateParameters. rewrite parametersLoop_typed.
    cbn [andThen]. eauto.
  - cbn [andThen]. eauto.
Qed.

Lemma validatePaths_completes paths r :
  exists r', validatePaths (map rawPathEntry paths) r = Returned r'.
Proof.
  unfold validatePaths. rewrite forEach_map. apply forEach_completes.
  intros [path item] r0 _. unfold validatePathEntry, rawPathEntry.
  cbn [fst snd]. rewrite forEach_map. apply forEach_completes.
  intros [method operation] r1 _.
  unfold validateMethodEntry, rawMethodEntry. cbn [fst snd].
  destruct (Js.arrayIncludes _ _); [apply validateOperation_completes | eauto].
Qed.

Lemma validateSecuritySchemes_completes schemes r :
  exists r',
    validateSecuritySchemes (map rawSchemeEntry schemes) r = Returned r'.
Proof.
  unfold validateSecuritySchemes. rewrite forEach_map.
  apply forEach_completes. intros [name scheme] r0 _.
  unfold validateSchemeEntry, rawSchemeEntry. cbn [fst snd]. eauto.
Qed.

Lemma tryBlock_completes doc :
  exists r, tryBlock (rawSpec doc) = Returned r.
Proof.
  unfold tryBlock, rawSpec.
  cbn [raw_info raw_paths raw_openapi raw_swagger raw_servers raw_components].
  cbv zeta.
  match goal with
  | |- context [pushError "No paths defined in specification" ?x] =>
      generalize x; intros r0
  end.
  assert (H2 : forall r,
             exists r',
               match option_map rawComponents (d_components doc) with
               | Some components =>
                   match rc_securitySchemes components with
                   | Some securitySchemes =>
                       validateSecuritySchemes securitySchemes r
                   | None => Returned r
                   end
               | None => Returned r
               end = Returned r').
  { intros r. destruct (d_components doc) as [components|]; cbn [option_map];
      [|eauto].
    unfold rawComponents. cbn [rc_securitySchemes].
    destruct (c_securitySchemes components) as [schemes|]; cbn [option_map];
      [|eauto].
    apply validateSecuritySchemes_completes. }
  destruct (d_paths doc) as [[|pathEntry paths]|]; cbn [option_map map andThen];
    try apply H2.
  destruct (validatePaths_completes (pathEntry :: paths) r0) as [r1 H1].
  cbn [map] in H1. rewrite H1. cbn [andThen]. apply H2.
Qed.


Lemma validate_Returned spec r :
  tryBlock spec = Returned r ->
  validate spec
  = mkValidationResult (match errors r with [] => true | _ :: _ => false end)
                       (errors r) (warnings r) (suggestions r).
Proof. intros H. unfold validate. now rewrite H. Qed.

End ValidatorFacts.



(** ** The model at the examples of the specification *)

(** No tool is synthesized for [POST /auth/login]. *)
Example login_endpoint_dropped : forall depth, generate depth loginSpec = [].
Proof. reflexivity. Qed.

(** The body [{owner: {name}}] flattens to the one property [owner_name],
    with [originalPath = "owner.name"] and [parentObject = "owner"]; there
    is no property [owner]. *)
Example owner_name_flattened :
  exists r fp,
    extractSchemaProperties 2 requiredOwnerBody (registryOnly ∅) = Some r /\
    ex_properties r = [("owner_name", fp)] /\
    originalPath fp = Some "owner.name" /\
    parentObject fp = Some "owner" /\
    isFlattened fp = true /\
    JsObj.get "owner" (ex_properties r) = None.
Proof.
  do 2 eexists. split; [vm_compute; reflexivity|].
  split; [reflexivity|]. repeat split.
Qed.

(** The validator accepts the Pet Store document. *)
Example petStore_valid :
  Validator.isValid (Validator.validate (Validator.rawSpec petStoreDoc))
  = true.
Proof. reflexivity. Qed.

(** ** The statements at sample inputs *)

Example resolveSchemaReference_sample :
  resolveSchemaReference "#/components/schemas/Pet" petRegistry
  = Some (objectSchema [("name", stringSchema)] None) /\
  resolveSchemaReference "#/definitions/Cat" petRegistry = None /\
  resolveSchemaReference "#/parameters/Pet" petRegistry = None.
Proof. repeat split; vm_compute; reflexivity. Qed.

Lemma resolveSchemaComposition_identity_witness :
  s_ref stringSchema = None /\ s_allOf stringSchema = None /\
  s_oneOf stringSchema = None /\ s_anyOf stringSchema = None /\
  resolveSchemaComposition stringSchema (registryOnly ∅) = stringSchema.
Proof.
  do 4 (split; [reflexivity|]).
  apply (resolveSchemaComposition_identity stringSchema (registryOnly ∅));
    reflexivity.
Defined.


Lemma tool_baseUrl_empty_without_servers_witness :
  servers swagger2Spec = None /\
  In swagger2Tool (generate 1 swagger2Spec) /\
  JsObj.get "baseUrl" swagger2Tool = Some (TString "").
Proof.
  split; [reflexivity|].
  assert (Hin : In swagger2Tool (generate 1 swagger2Spec))
    by (vm_compute; left; reflexivity).
  split; [exact Hin|].
  apply (tool_baseUrl_empty_without_servers 1 swagger2Spec swagger2Tool);
    [reflexivity | exact Hin].
Defined.

Lemma tool_fields_witness :
  In tracedTool (generate 1 tracedSpec) /\
  exists endpoint,
    In endpoint (endpoints tracedSpec) /\
    isAuthenticationEndpoint endpoint = false /\
    generateMcpTool 1 endpoint tracedSpec = Some tracedTool /\
    (forall k, In k (JsObj.keys tracedTool) ->
               In k dataModelFields \/ k = "headerParams") /\
    (In "headerParams" (JsObj.keys tracedTool) <->
     exists param, In param (e_parameters endpoint) /\
                   p_in param = "header") /\
    (forall v, JsObj.get "headerParams" tracedTool = Some v ->
               v = THeaderParams (headerParamsOf endpoint)).
Proof.
  assert (Hin : In tracedTool (generate 1 tracedSpec))
    by (vm_compute; left; reflexivity).
  split; [exact Hin|].
  apply (tool_fields 1 tracedSpec tracedTool Hin).
Defined.


Lemma extraction_terminates_when_acyclic_witness :
  Acyclic chainSpec chainRank /\
  (exists depth r,
      forall depth', depth <= depth' ->
                     extractSchemaProperties depth' chainBody chainSpec
                     = Some r) /\
  (forall parentName prefix,
      exists depth r,
        forall depth', depth <= depth' ->
                       flattenNestedObject depth' chainBody chainSpec
                                           parentName prefix = Some r).
Proof.
  assert (Hacyclic : Acyclic chainSpec chainRank).
  { intros name s Hlookup. unfold chainSpec, registryOnly in Hlookup.
    cbn [schemas] in Hlookup.
    apply lookup_insert_Some in Hlookup as [[<- <-] | [_ Hlookup]].
    - intros ref name' Hin Href _. cbv in Hin.
      destruct Hin as [<- | []].
      destruct Href as [Href | Href]; cbv in Href;
        [injection Href as <- | discriminate Href].
      cbv. lia.
    - apply lookup_singleton_Some in Hlookup as [_ <-].
      intros ref name' Hin. cbv in Hin. destruct Hin. }
  split; [exact Hacyclic|].
  apply (extraction_terminates_when_acyclic chainSpec chainRank Hacyclic
           chainBody).
Defined.

Lemma required_follows_immediate_parent_witness :
  exists r,
    extractSchemaProperties 3 chainBody chainSpec = Some r /\
    exists body,
      RefChain chainSpec chainBody body /\
      (forall p ps root n,
          In (p, ps) (propertiesOf (resolveSchemaComposition body chainSpec)) ->
          flattenRoot chainSpec ps = Some root ->
          Leaf chainSpec p root "" n true ->
          In n (ex_required r)) /\
      (forall n,
          In n (ex_required r) ->
          In n (default []
                  (s_required (resolveSchemaComposition body chainSpec))) \/
          exists p ps root,
            In (p, ps)
               (propertiesOf (resolveSchemaComposition body chainSpec)) /\
            flattenRoot chainSpec ps = Some root /\
            Leaf chainSpec p root "" n true).
Proof.
  eexists. split; [vm_compute; reflexivity|].
  apply (required_follows_immediate_parent 3 chainBody chainSpec).
  vm_compute. reflexivity.
Defined.

(** * Further properties *)

(** ** Property objects *)

Lemma mapOpenApiTypeToZod_range type : In (mapOpenApiTypeToZod type) zodTypes.
Proof.
  unfold mapOpenApiTypeToZod, zodTypes.
  repeat match goal with
         | |- context [if ?c then _ else _] => destruct c
         end; simpl; tauto.
Qed.

Lemma orElse_default_nonempty (a : option string) (d : string) :
  d <> "" ->
  match Js.orElse a (Some d) with Some x => x | None => d end <> "".
Proof.
  intros Hd. unfold Js.orElse, Js.truthy.
  destruct a as [x|]; [|exact Hd].
  destruct (String.eqb x "") eqn:E; simpl; [exact Hd|].
  now apply String.eqb_neq in E.
Qed.

Lemma convertSchema_description_nonempty schema paramDescription :
  fp_description (convertSchema schema paramDescription) <> "".
Proof.
  destruct schema; simpl.
  unfold Js.orElse at 1.
  destruct (Js.truthy s_description0) eqn:E.
  - destruct s_description0 as [d|]; [|discriminate].
    simpl in E. destruct (String.eqb d "") eqn:E'; [discriminate|].
    now apply String.eqb_neq in E'.
  - now apply orElse_default_nonempty.
Qed.

Lemma convertSchema_wellFormed :
  forall schema paramDescription,
    WellFormedProperty (convertSchema schema paramDescription).
Proof.
  fix IH 1. intros schema paramDescription.
  constructor.
  - destruct schema; simpl. apply mapOpenApiTypeToZod_range.
  - apply convertSchema_description_nonempty.
  - destruct schema as [ty ? items]; simpl.
    destruct items as [it|]; [|discriminate].
    destruct (is_str ty "array") eqn:E; [|discriminate].
    intros i [= <-]. split; [|apply IH].
    destruct ty as [t|]; [|discriminate]. simpl in E.
    apply String.eqb_eq in E as ->. reflexivity.
Qed.

(** X1.  Whatever the schema, and also without one, [convertSchemaToZod]
    builds a well-formed property: its type is one of [number], [boolean],
    [array], [object], [string]; its description is not empty; it has
    [items] only when its type is [array], and the items are well formed
    in turn. *)
Theorem convertSchemaToZod_wellFormed :
  forall (schema : option Schema) (paramName paramDescription : option string),
    WellFormedProperty (convertSchemaToZod schema paramName paramDescription).
Proof.
  intros [schema|] paramName paramDescription; simpl.
  - apply convertSchema_wellFormed.
  - constructor; simpl.
    + unfold zodTypes. simpl. tauto.
    + now apply orElse_default_nonempty.
    + discriminate.
Qed.

(** ** Location flags *)

Lemma fold_left_invariant {A S : Type} (P : S -> Prop) (f : S -> A -> S)
      (xs : list A) :
  (forall s x, In x xs -> P s -> P (f s x)) ->
  forall s, P s -> P (fold_left f xs s).
Proof.
  induction xs as [|x xs IH]; intros Hf s Hs; simpl; [exact Hs|].
  apply IH.
  - intros s0 y Hy. apply Hf. now right.
  - apply Hf; [now left | exact Hs].
Qed.

Lemma convertSchema_unflagged schema paramDescription :
  flagCount (convertSchema schema paramDescription) = 0.
Proof. now destruct schema. Qed.

Lemma convertSchemaToZod_unflagged schema paramName paramDescription :
  flagCount (convertSchemaToZod schema paramName paramDescription) = 0.
Proof. destruct schema as [s|]; [apply convertSchema_unflagged|reflexivity]. Qed.

Lemma mark_flattened_flagCount path parent fp :
  flagCount (mark_flattened path parent fp) = flagCount fp.
Proof. now destruct fp. Qed.

Lemma unflagged_store name fp acc :
  flagCount fp = 0 -> unflagged acc -> unflagged (store name fp acc).
Proof.
  intros Hfp Hacc k fp' Hin. simpl in Hin.
  apply in_set in Hin as [[= -> ->] | Hin]; [exact Hfp | eapply Hacc, Hin].
Qed.

Lemma unflagged_absorb acc r :
  unflagged acc -> unflagged r -> unflagged (absorb acc r).
Proof.
  intros Hacc Hr k fp Hin. simpl in Hin.
  apply in_assign in Hin as [Hin | Hin]; [eapply Hacc | eapply Hr]; exact Hin.
Qed.

Lemma flattenNestedObject_unflagged depth spec parentName :
  forall schema prefix r,
    flattenNestedObject depth schema spec parentName prefix = Some r ->
    unflagged r.
Proof.
  induction depth as [|d IH]; intros schema prefix r; [discriminate|].
  rewrite flattenNestedObject_eq.
  destruct (s_properties schema) as [props|];
    [|intros [= <-] k fp []].
  intros Hloop.
  refine (forEachM_invariant _ (fun _ acc => unflagged acc)
            props _ [] noneExtracted r _ Hloop);
    [| intros k fp []].
  intros done [p ps] acc acc' _ Hacc Hstep.
  unfold flattenStep in Hstep.
  destruct (isNestedObject (resolveOrSelf ps spec)).
  - destruct (flattenNestedObject d (resolveOrSelf ps spec) spec parentName
                (flattenedNameOf parentName prefix p)) as [nested|] eqn:En;
      [|discriminate].
    injection Hstep as <-. apply unflagged_absorb; [exact Hacc|].
    eapply IH, En.
  - injection Hstep as <-.
    assert (unflagged
              (store (flattenedNameOf parentName prefix p)
                 (mark_flattened (originalPathOf parentName prefix p)
                    parentName
                    (convertSchemaToZod (Some (resolveOrSelf ps spec))
                       (Some (flattenedNameOf parentName prefix p))
                       (s_description (resolveOrSelf ps spec))))
                 acc)) as Hstored.
    { apply unflagged_store; [|exact Hacc].
      rewrite mark_flattened_flagCount.
      apply convertSchemaToZod_unflagged. }
    destruct (listedRequired schema p); exact Hstored.
Qed.

Lemma flattenInto_unflagged d schema spec propName acc r :
  unflagged acc ->
  flattenInto d schema spec propName acc = Some r -> unflagged r.
Proof.
  intros Hacc. unfold flattenInto.
  destruct (flattenNestedObject d schema spec propName "") as [f|] eqn:E;
    [|discriminate].
  intros [= <-]. apply unflagged_absorb; [exact Hacc|].
  eapply flattenNestedObject_unflagged, E.
Qed.

Lemma extractStep_unflagged d spec acc entry r :
  unflagged acc -> extractStep d spec acc entry = Some r -> unflagged r.
Proof.
  intros Hacc. destruct entry as [p ps]. unfold extractStep.
  repeat match goal with
         | |- context [if ?c then _ else _] => destruct c
         | |- context [match ?o with Some _ => _ | None => _ end] =>
             destruct o
         end;
    try (apply flattenInto_unflagged; exact Hacc);
    intros [= <-]; (apply unflagged_store; [|exact Hacc]);
    first [apply convertSchemaToZod_unflagged | apply convertSchema_unflagged].
Qed.

Lemma extractSchemaProperties_unflagged depth spec :
  forall schema r,
    extractSchemaProperties depth schema spec = Some r -> unflagged r.
Proof.
  induction depth as [|d IH]; intros schema r; [discriminate|].
  rewrite extractSchemaProperties_eq.
  destruct (resolvedRef schema spec) as [s'|]; [apply IH|].
  assert (Hloop : forall props acc,
             forEachM (extractStep d spec) props noneExtracted = Some acc ->
             unflagged acc).
  { intros props acc H.
    refine (forEachM_invariant _ (fun _ a => unflagged a)
              props _ [] noneExtracted acc _ H); [| intros k fp []].
    intros done x a a' _ Ha Hstep. eapply extractStep_unflagged; eassumption. }
  destruct (s_properties (resolveSchemaComposition schema spec)) as [props|].
  - destruct (forEachM (extractStep d spec) props noneExtracted) as [acc|]
      eqn:E; [|discriminate].
    intros [= <-] k fp Hin. apply (Hloop _ _ E k fp).
    now destruct (s_required (resolveSchemaComposition schema spec)).
  - intros [= <-] k fp Hin.
    destruct (s_required (resolveSchemaComposition schema spec));
      now destruct Hin.
Qed.

Lemma oneFlagEach_store name fp acc :
  flagCount fp = 1 -> oneFlagEach acc -> oneFlagEach (store name fp acc).
Proof.
  intros Hfp Hacc k fp' Hin. simpl in Hin.
  apply in_set in Hin as [[= -> ->] | Hin]; [exact Hfp | eapply Hacc, Hin].
Qed.

Lemma oneFlagEach_require names acc :
  oneFlagEach acc -> oneFlagEach (require names acc).
Proof. intros H. exact H. Qed.

Lemma mark_flagCount fp :
  flagCount fp = 0 ->
  flagCount (mark_path fp) = 1 /\ flagCount (mark_query fp) = 1 /\
  flagCount (mark_header fp) = 1 /\ flagCount (mark_body fp) = 1.
Proof.
  destruct fp as [? ? ? ? ? ? ? ? ? ? [] [] [] []]; unfold flagCount; simpl;
    intros H; try discriminate H; repeat split.
Qed.

Lemma paramProperty_marked param :
  flagCount (mark_path (paramProperty param)) = 1 /\
  flagCount (mark_query (paramProperty param)) = 1 /\
  flagCount (mark_header (paramProperty param)) = 1.
Proof.
  destruct (mark_flagCount (paramProperty param)) as (H1 & H2 & H3 & _);
    [apply convertSchemaToZod_unflagged | now repeat split].
Qed.

Lemma oneFlagEach_addBody body bodyRequired acc :
  unflagged body -> oneFlagEach acc ->
  oneFlagEach (addBody body bodyRequired acc).
Proof.
  intros Hbody Hacc. unfold addBody.
  assert (oneFlagEach
            (fold_left (fun a (entry : string * FlatProperty) =>
                          store (fst entry) (mark_body (snd entry)) a)
                       (ex_properties body) acc)) as H.
  { apply fold_left_invariant; [|exact Hacc].
    intros a [k fp] Hin Ha. apply oneFlagEach_store; [|exact Ha].
    apply mark_flagCount. eapply Hbody, Hin. }
  destruct (isTrue bodyRequired); exact H.
Qed.

Lemma generateInputSchema_oneFlagEach depth endpoint spec inputSchema :
  generateInputSchema depth endpoint spec = Some inputSchema ->
  forall k fp, In (k, fp) (is_properties inputSchema) -> flagCount fp = 1.
Proof.
  unfold generateInputSchema.
  set (acc1 := fold_left _ (e_parameters endpoint) noneExtracted).
  set (acc2 := fold_left _ (e_parameters endpoint) acc1).
  set (acc3 := fold_left _ (e_parameters endpoint) acc2).
  assert (H1 : oneFlagEach acc1).
  { apply fold_left_invariant; [|intros k fp []].
    intros a param _ Ha. destruct (String.eqb (p_in param) "path"); [|exact Ha].
    apply oneFlagEach_require, oneFlagEach_store; [|exact Ha].
    apply paramProperty_marked. }
  assert (H2 : oneFlagEach acc2).
  { apply fold_left_invariant; [|exact H1].
    intros a param _ Ha. destruct (String.eqb (p_in param) "query"); [|exact Ha].
    assert (oneFlagEach (store (p_name param)
                               (mark_query (paramProperty param)) a)) as Hs
        by (apply oneFlagEach_store; [apply paramProperty_marked | exact Ha]).
    destruct (isTrue (p_required param)); exact Hs. }
  assert (H3 : oneFlagEach acc3).
  { apply fold_left_invariant; [|exact H2].
    intros a param _ Ha. destruct (String.eqb (p_in param) "header"); [|exact Ha].
    destruct (negb (isSignatureHeader param)); [|exact Ha].
    assert (oneFlagEach (store (p_name param)
                               (mark_header (paramProperty param)) a)) as Hs
        by (apply oneFlagEach_store; [apply paramProperty_marked | exact Ha]).
    destruct (isTrue (p_required param)); exact Hs. }
  clearbody acc3. clear acc1 acc2 H1 H2.
  match goal with
  | |- match match ?body3 with Some _ => _ | None => _ end with _ => _ end = _
       -> _ => destruct body3 as [acc4|] eqn:E4
  end; [|discriminate].
  assert (H4 : oneFlagEach acc4).
  { destruct (e_requestBody endpoint) as [rb|]; [|now injection E4 as <-].
    destruct (rb_content rb) as [content|]; [|now injection E4 as <-].
    destruct (JsObj.get "application/json" content) as [json|];
      [|now injection E4 as <-].
    destruct (mt_schema json) as [schema|]; [|now injection E4 as <-].
    destruct (extractSchemaProperties depth schema spec) as [body|] eqn:Eb;
      [|discriminate].
    injection E4 as <-. apply oneFlagEach_addBody; [|exact H3].
    eapply extractSchemaProperties_unflagged, Eb. }
  match goal with
  | |- match ?loop with Some _ => _ | None => _ end = _ -> _ =>
      destruct loop as [acc5|] eqn:E5
  end; [|discriminate].
  assert (H5 : oneFlagEach acc5).
  { refine (forEachM_invariant _ (fun _ a => oneFlagEach a)
              (e_parameters endpoint) _ [] acc4 acc5 H4 E5).
    intros done param a a' _ Ha.
    destruct (String.eqb (p_in param) "body"); [|now intros [= <-]].
    destruct (p_schema param) as [schema|]; [|now intros [= <-]].
    destruct (extractSchemaProperties depth schema spec) as [body|] eqn:Eb;
      [|discriminate].
    intros [= <-]. apply oneFlagEach_addBody; [|exact Ha].
    eapply extractSchemaProperties_unflagged, Eb. }
  intros [= <-]. exact H5.
Qed.

(** X2.  Every property of an input schema carries exactly one of the four
    location flags [isPathParam], [isQueryParam], [isHeaderParam],
    [isBodyParam]. *)
Theorem inputSchema_one_flag_each :
  forall (depth : nat) (endpoint : ApiEndpoint) (spec : ParsedApiSpec)
         (inputSchema : InputSchema),
    generateInputSchema depth endpoint spec = Some inputSchema ->
    forall k fp, In (k, fp) (is_properties inputSchema) -> flagCount fp = 1.
Proof. exact generateInputSchema_oneFlagEach. Qed.

(** ** Parameters in the input schema *)

Lemma keys_set {V : Type} (k k' : string) (v : V) (o : list (string * V)) :
  In k (JsObj.keys (JsObj.set k' v o)) <-> k = k' \/ In k (JsObj.keys o).
Proof.
  unfold JsObj.keys. induction o as [|[k0 v0] r IH]; simpl.
  - split; [intros [H | []]; left; now symmetry | intros [-> | []]; now left].
  - destruct (String.eqb k' k0) eqn:E; simpl.
    + apply String.eqb_eq in E as ->. intuition congruence.
    + rewrite IH. tauto.
Qed.

Lemma keys_assign {V : Type} (acc src : list (string * V)) :
  incl (JsObj.keys acc) (JsObj.keys (JsObj.assign acc src)).
Proof.
  unfold JsObj.assign. revert acc.
  induction src as [|[k v] src IH]; intros acc; simpl; [apply incl_refl|].
  eapply incl_tran; [|apply IH].
  intros x Hx. apply keys_set. now right.
Qed.





Lemma grows_absorb acc r : grows acc (absorb acc r).
Proof. split; simpl; [apply incl_appl, incl_refl | apply keys_assign]. Qed.







Lemma fold_select (K : Extracted -> list string)
      (f : Extracted -> ApiParameter -> Extracted)
      (sel : ApiParameter -> bool) :
  (forall a param k,
      In k (K (f a param)) <->
      In k (K a) \/ (sel param = true /\ p_name param = k)) ->
  forall params a k,
    In k (K (fold_left f params a)) <->
    In k (K a) \/
    exists param, In param params /\ sel param = true /\ p_name param = k.
Proof.
  intros Hf. induction params as [|q qs IH]; intros a k; simpl.
  - split; [now left | intros [H | (x & [] & _)]; exact H].
  - rewrite IH, Hf. split.
    + intros [[H | [Hs Hn]] | (x & Hx & Hs & Hn)].
      * now left.
      * right. exists q. split; [now left | now split].
      * right. exists x. split; [now right | now split].
    + intros [H | (x & [-> | Hx] & Hs & Hn)].
      * left. now left.
      * left. right. now split.
      * right. now exists x.
Qed.

Lemma forEachM_no_body depth spec (params : list ApiParameter) :
  (forall param, In param params -> p_in param <> "body") ->
  forall acc,
    forEachM
      (fun a param =>
         if String.eqb (p_in param) "body" then
           match p_schema param with
           | Some schema =>
               match extractSchemaProperties depth schema spec with
               | Some bodyProperties =>
                   Some (addBody bodyProperties (p_required param) a)
               | None => None
               end
           | None => Some a
           end
         else Some a)
      params acc = Some acc.
Proof.
  induction params as [|q qs IH]; intros Hno acc; simpl; [reflexivity|].
  destruct (String.eqb (p_in q) "body") eqn:E.
  - apply String.eqb_eq in E. exfalso. apply (Hno q); [now left | exact E].
  - apply IH. intros x Hx. apply Hno. now right.
Qed.

(** The input schema of an endpoint without a body, whatever the depth. *)
Lemma inputSchema_bodyless depth endpoint spec :
  bodyless endpoint ->
  exists inputSchema,
    generateInputSchema depth endpoint spec = Some inputSchema /\
    (forall k,
        In k (JsObj.keys (is_properties inputSchema)) <->
        exists param, In param (e_parameters endpoint) /\
                      exposed param = true /\ p_name param = k) /\
    (forall n,
        In n (default [] (is_required inputSchema)) <->
        exists param, In param (e_parameters endpoint) /\
                      demanded param = true /\ p_name param = n).
Proof.
  intros [Hbody Hparams]. unfold generateInputSchema.
  rewrite Hbody, (forEachM_no_body depth spec _ Hparams).
  eexists. split; [reflexivity|]. cbn [is_properties is_required].
  split.
  - intros k.
    rewrite (fold_select (fun a => JsObj.keys (ex_properties a)) _
               (fun param => String.eqb (p_in param) "header" &&
                             negb (isSignatureHeader param))).
    2:{ intros a param k0.
        destruct (String.eqb (p_in param) "header");
          [|simpl; intuition discriminate].
        destruct (negb (isSignatureHeader param));
          [|simpl; intuition discriminate].
        assert (In k0 (JsObj.keys (ex_properties
                   (store (p_name param) (mark_header (paramProperty param))
                          a))) <->
                In k0 (JsObj.keys (ex_properties a)) \/ p_name param = k0) as H
          by (simpl; rewrite keys_set; intuition congruence).
        destruct (isTrue (p_required param)); simpl in *; rewrite H;
          intuition congruence. }
    rewrite (fold_select (fun a => JsObj.keys (ex_properties a)) _
               (fun param => String.eqb (p_in param) "query")).
    2:{ intros a param k0.
        destruct (String.eqb (p_in param) "query");
          [|simpl; intuition discriminate].
        assert (In k0 (JsObj.keys (ex_properties
                   (store (p_name param) (mark_query (paramProperty param))
                          a))) <->
                In k0 (JsObj.keys (ex_properties a)) \/ p_name param = k0) as H
          by (simpl; rewrite keys_set; intuition congruence).
        destruct (isTrue (p_required param)); simpl in *; rewrite H;
          intuition congruence. }
    rewrite (fold_select (fun a => JsObj.keys (ex_properties a)) _
               (fun param => String.eqb (p_in param) "path")).
    2:{ intros a param k0.
        destruct (String.eqb (p_in param) "path");
          [|simpl; intuition discriminate].
        simpl. rewrite keys_set. intuition congruence. }
    unfold exposed. simpl. split.
    + intros [[[[] | (x & Hx & Hs & Hn)] | (x & Hx & Hs & Hn)]
             | (x & Hx & Hs & Hn)];
        exists x; (split; [exact Hx|]); (split; [|exact Hn]);
        rewrite Hs; rewrite ?orb_true_r; reflexivity.
    + intros (x & Hx & Hs & Hn).
      apply orb_true_iff in Hs as [Hs | Hs];
        [apply orb_true_iff in Hs as [Hs | Hs]|].
      * left. left. right. now exists x.
      * left. right. now exists x.
      * right. now exists x.
  - intros n.
    assert (Hdef : forall l : list string,
               default [] (match l with
                           | [] => None
                           | _ :: _ => Some l
                           end) = l) by (now intros [|? ?]).
    rewrite Hdef.
    rewrite (fold_select ex_required _
               (fun param => String.eqb (p_in param) "header" &&
                             negb (isSignatureHeader param) &&
                             isTrue (p_required param))).
    2:{ intros a param k0.
        destruct (String.eqb (p_in param) "header");
          [|simpl; intuition discriminate].
        destruct (negb (isSignatureHeader param));
          [|simpl; intuition discriminate].
        destruct (isTrue (p_required param)); simpl;
          [rewrite in_app_iff; simpl; intuition congruence
          | intuition discriminate]. }
    rewrite (fold_select ex_required _
               (fun param => String.eqb (p_in param) "query" &&
                             isTrue (p_required param))).
    2:{ intros a param k0.
        destruct (String.eqb (p_in param) "query");
          [|simpl; intuition discriminate].
        destruct (isTrue (p_required param)); simpl;
          [rewrite in_app_iff; simpl; intuition congruence
          | intuition discriminate]. }
    rewrite (fold_select ex_required _
               (fun param => String.eqb (p_in param) "path")).
    2:{ intros a param k0.
        destruct (String.eqb (p_in param) "path");
          [|simpl; intuition discriminate].
        simpl. rewrite in_app_iff. simpl. intuition congruence. }
    unfold demanded. simpl. split.
    + intros [[[[] | (x & Hx & Hs & Hn)] | (x & Hx & Hs & Hn)]
             | (x & Hx & Hs & Hn)];
        exists x; (split; [exact Hx|]); (split; [|exact Hn]);
        rewrite Hs; rewrite ?orb_true_r; reflexivity.
    + intros (x & Hx & Hs & Hn).
      apply orb_true_iff in Hs as [Hs | Hs];
        [apply orb_true_iff in Hs as [Hs | Hs]|].
      * left. left. right. now exists x.
      * left. right. now exists x.
      * right. now exists x.
Qed.



(** X5.  A signature header (a header parameter whose lower-cased name
    contains [signature]) is no property of the input schema of an
    endpoint without a body, unless another exposed parameter has its
    name; the header metadata of the tool still lists it. *)
Theorem signature_header_hidden :
  forall (depth : nat) (endpoint : ApiEndpoint) (spec : ParsedApiSpec)
         (inputSchema : InputSchema) (param : ApiParameter),
    bodyless endpoint ->
    generateInputSchema depth endpoint spec = Some inputSchema ->
    In param (e_parameters endpoint) ->
    p_in param = "header" ->
    Js.includes (Js.toLowerCase (p_name param)) "signature" = true ->
    (forall other, In other (e_parameters endpoint) ->
                   p_name other = p_name param -> exposed other = false) ->
    ~ In (p_name param) (JsObj.keys (is_properties inputSchema)) /\
    exists h, In h (headerParamsOf endpoint) /\ h_name h = p_name param.
Proof.
  intros depth endpoint spec inputSchema param Hbodyless Hgen Hin Hheader
         Hsig Hothers.
  destruct (inputSchema_bodyless depth endpoint spec Hbodyless)
    as (i & Hgen' & Hkeys & _).
  rewrite Hgen in Hgen'. injection Hgen' as <-. split.
  - intros Hk. apply Hkeys in Hk as (x & Hx & Hexp & Hname).
    rewrite (Hothers x Hx Hname) in Hexp. discriminate.
  - unfold headerParamsOf.
    eexists. split.
    + apply in_map. apply filter_In. split; [exact Hin|].
      rewrite Hheader. reflexivity.
    + reflexivity.
Qed.

(** ** Tool names *)

Lemma lowerChar_notUpper c : notUpper (Js.lowerChar c) = true.
Proof.
  destruct c as [[] [] [] [] [] [] [] []]; reflexivity.
Qed.

Lemma allChars_app test a b :
  allChars test (a ++ b) = allChars test a && allChars test b.
Proof.
  induction a as [|c a IH]; simpl; [reflexivity|].
  now rewrite IH, andb_assoc.
Qed.

Lemma allChars_dropLeadingUnderscore test s :
  allChars test s = true -> allChars test (Js.dropLeadingUnderscore s) = true.
Proof.
  destruct s as [|c r]; simpl; [trivial|].
  intros H. apply andb_true_iff in H as [Hc Hr].
  destruct c as [[] [] [] [] [] [] [] []]; simpl; try exact Hr;
    now rewrite Hr, ?Hc.
Qed.

Lemma replaceUpper_notUpper str :
  allChars notUpper
    (Js.replaceChars Js.isUpper
       (fun letter => String "_" (String (Js.lowerChar letter) EmptyString))
       str) = true.
Proof.
  induction str as [|c r IH]; [reflexivity|].
  cbn [Js.replaceChars]. rewrite allChars_app, IH, andb_true_r.
  destruct (Js.isUpper c) eqn:E; cbn [allChars].
  - now rewrite lowerChar_notUpper.
  - unfold notUpper. now rewrite E.
Qed.

Lemma replaceUpper_fixed str :
  allChars notUpper str = true ->
  Js.replaceChars Js.isUpper
    (fun letter => String "_" (String (Js.lowerChar letter) EmptyString)) str
  = str.
Proof.
  induction str as [|c r IH]; [reflexivity|].
  cbn [Js.replaceChars allChars].
  intros H. apply andb_true_iff in H as [Hc Hr].
  unfold notUpper in Hc. apply negb_true_iff in Hc. rewrite Hc, (IH Hr).
  reflexivity.
Qed.

(** X6.  [camelToSnakeCase] never leaves an upper-case ASCII letter; and
    a string that has none comes back unchanged, but for a leading
    underscore, which is dropped. *)
Theorem camelToSnakeCase_lower :
  forall str : string,
    allChars notUpper (camelToSnakeCase str) = true /\
    (allChars notUpper str = true ->
     camelToSnakeCase str = Js.dropLeadingUnderscore str).
Proof.
  intros str. unfold camelToSnakeCase. split.
  - apply allChars_dropLeadingUnderscore, replaceUpper_notUpper.
  - intros H. now rewrite (replaceUpper_fixed _ H).
Qed.

(** ** Flattened names *)

Lemma keys_In {V : Type} (k : string) (o : list (string * V)) :
  In k (JsObj.keys o) <-> exists v, In (k, v) o.
Proof.
  unfold JsObj.keys. rewrite in_map_iff. split.
  - intros ([k' v] & <- & H). now exists v.
  - intros (v & H). now exists (k, v).
Qed.

Lemma keys_assign_src {V : Type} (acc src : list (string * V)) :
  incl (JsObj.keys src) (JsObj.keys (JsObj.assign acc src)).
Proof.
  revert acc. induction src as [|[k v] src IH]; intros acc x; [intros []|].
  intros [<- | Hx].
  - apply (keys_assign (JsObj.set k v acc) src). apply keys_set. now left.
  - exact (IH (JsObj.set k v acc) x Hx).
Qed.

Lemma string_app_assoc (a b c : string) :
  ((a ++ b) ++ c = a ++ (b ++ c))%string.
Proof.
  induction a as [|x a IH]; [reflexivity|].
  change (String x ((a ++ b) ++ c) = String x (a ++ (b ++ c)))%string.
  now rewrite IH.
Qed.

Lemma string_app_length (a b : string) :
  String.length (a ++ b) = String.length a + String.length b.
Proof.
  induction a as [|x a IH]; [reflexivity|].
  change (S (String.length (a ++ b)) = S (String.length a + String.length b)).
  now rewrite IH.
Qed.

Lemma prefix_app_l (a b s : string) :
  String.prefix (a ++ b) s = true -> String.prefix a s = true.
Proof.
  intros H. apply prefix_split in H as [r ->].
  rewrite string_app_assoc. apply prefix_app.
Qed.

Lemma nameBase_flattenedNameOf parentName prefix propName :
  flattenedNameOf parentName prefix propName
  = (nameBase parentName prefix ++ "_" ++ propName)%string /\
  nameBase parentName (flattenedNameOf parentName prefix propName)
  = flattenedNameOf parentName prefix propName.
Proof.
  unfold nameBase, flattenedNameOf.
  destruct (nonEmpty prefix) eqn:E; (split; [reflexivity|]).
  - destruct prefix; [discriminate | reflexivity].
  - destruct parentName; reflexivity.
Qed.

Lemma flattenNestedObject_names depth spec parentName :
  forall schema prefix r,
    flattenNestedObject depth schema spec parentName prefix = Some r ->
    (forall k, In k (JsObj.keys (ex_properties r)) ->
               String.prefix (nameBase parentName prefix ++ "_") k = true) /\
    incl (ex_required r) (JsObj.keys (ex_properties r)).
Proof.
  induction depth as [|d IH]; intros schema prefix r; [discriminate|].
  rewrite flattenNestedObject_eq.
  destruct (s_properties schema) as [props|];
    [|intros [= <-]; split; [intros k [] | intros n []]].
  intros Hloop.
  refine (forEachM_invariant _
            (fun _ acc =>
               (forall k, In k (JsObj.keys (ex_properties acc)) ->
                          String.prefix (nameBase parentName prefix ++ "_") k
                          = true) /\
               incl (ex_required acc) (JsObj.keys (ex_properties acc)))
            props _ [] noneExtracted r _ Hloop);
    [| split; [intros k [] | intros n []]].
  intros _ [propName propSchema] acc acc' _ [Hkeys Hreq].
  unfold flattenStep.
  destruct (nameBase_flattenedNameOf parentName prefix propName)
    as [Hname Hbase].
  destruct (isNestedObject (resolveOrSelf propSchema spec)).
  - destruct (flattenNestedObject d _ spec parentName _) as [nested|] eqn:En;
      [|discriminate].
    intros [= <-]. destruct (IH _ _ _ En) as [Hk Hr]. rewrite Hbase in Hk.
    split.
    + intros k Hin. apply keys_In in Hin as [v Hin]. simpl in Hin.
      apply in_assign in Hin as [Hin | Hin].
      * apply Hkeys, keys_In. now exists v.
      * assert (Hp := Hk k (proj2 (keys_In _ _) (ex_intro _ v Hin))).
        rewrite Hname in Hp.
        rewrite <- !string_app_assoc in Hp.
        exact (prefix_app_l _ _ _ (prefix_app_l _ _ _ Hp)).
    + simpl. intros n Hn. apply in_app_or in Hn as [Hn | Hn].
      * now apply keys_assign, Hreq.
      * now apply keys_assign_src, Hr.
  - intros [= <-].
    assert (Hstore :
              forall k, In k (JsObj.keys
                                (JsObj.set
                                   (flattenedNameOf parentName prefix propName)
                                   (mark_flattened
                                      (originalPathOf parentName prefix propName)
                                      parentName
                                      (convertSchemaToZod
                                         (Some (resolveOrSelf propSchema spec))
                                         (Some (flattenedNameOf parentName
                                                                prefix propName))
                                         (s_description
                                            (resolveOrSelf propSchema spec))))
                                   (ex_properties acc))) ->
                        String.prefix (nameBase parentName prefix ++ "_") k
                        = true).
    { intros k Hin. apply keys_set in Hin as [-> | Hin]; [|now apply Hkeys].
      rewrite Hname, <- string_app_assoc. apply prefix_app. }
    destruct (listedRequired schema propName); simpl; (split; [exact Hstore|]).
    + intros n Hn. apply in_app_or in Hn as [Hn | [<- | []]].
      * apply keys_set. right. now apply Hreq.
      * apply keys_set. now left.
    + intros n Hn. apply keys_set. right. now apply Hreq.
Qed.


(** ** Authentication endpoints *)

Lemma includes_eq (s sub : string) :
  Js.includes s sub
  = if String.prefix sub s then true
    else match s with
         | EmptyString => false
         | String _ r => Js.includes r sub
         end.
Proof. destruct s; reflexivity. Qed.

Lemma includes_spec (s sub : string) :
  Js.includes s sub = true <->
  exists pre post, s = (pre ++ sub ++ post)%string.
Proof.
  split.
  - induction s as [|c r IH]; rewrite includes_eq;
      destruct (String.prefix sub _) eqn:E.
    + intros _. apply prefix_split in E as [post E]. now exists ""%string, post.
    + discriminate.
    + intros _. apply prefix_split in E as [post E]. now exists ""%string, post.
    + intros H. destruct (IH H) as (pre & post & ->).
      now exists (String c pre), post.
  - intros (pre & post & ->). induction pre as [|c pre IH].
    + rewrite includes_eq.
      change ("" ++ sub ++ post)%string with (sub ++ post)%string.
      now rewrite prefix_app.
    + change (String c pre ++ sub ++ post)%string
        with (String c (pre ++ sub ++ post)).
      rewrite includes_eq. cbv iota.
      rewrite IH. now destruct (String.prefix sub _).
Qed.

(** A text without [sub] has no longer text around [sub] either. *)
Lemma includes_false_mono (s a sub b : string) :
  Js.includes s sub = false -> Js.includes s (a ++ sub ++ b) = false.
Proof.
  intros H. destruct (Js.includes s (a ++ sub ++ b)) eqn:E; [|reflexivity].
  apply includes_spec in E as (pre & post & ->).
  rewrite <- H. symmetry. apply includes_spec.
  exists (pre ++ a)%string, (b ++ post)%string.
  now rewrite !string_app_assoc.
Qed.

Lemma includes_empty (sub : string) :
  sub <> ""%string -> Js.includes "" sub = false.
Proof. destruct sub; [congruence | reflexivity]. Qed.

Lemma not_truthy_default (o : option string) :
  Js.truthy o = false -> default ""%string o = ""%string.
Proof.
  destruct o as [s|]; [|reflexivity]. simpl.
  intros H. apply negb_false_iff, String.eqb_eq in H. exact H.
Qed.

Lemma isAuthenticationEndpoint_eq endpoint :
  isAuthenticationEndpoint endpoint =
  Js.includes (lowerPath endpoint) "/token" ||
  Js.includes (lowerPath endpoint) "/login" ||
  existsb (Js.includes (lowerId endpoint)) ["token"; "auth"; "login"] ||
  existsb (Js.includes (lowerText endpoint)) ["access token"; "auth"; "login"].
Proof.
  unfold isAuthenticationEndpoint, authPatterns, lowerPath, lowerId, lowerText.
  cbn [existsb].
  set (path := Js.toLowerCase (e_path endpoint)).
  change (Js.toLowerCase "/auth/login") with "/auth/login"%string.
  change (Js.toLowerCase "/auth/token") with "/auth/token"%string.
  change (Js.toLowerCase "/token") with "/token"%string.
  change (Js.toLowerCase "/login") with "/login"%string.
  change (Js.toLowerCase "/oauth/token") with "/oauth/token"%string.
  change (Js.toLowerCase "/auth/oauth/token") with "/auth/oauth/token"%string.
  change (Js.toLowerCase "/v2/auth/login") with "/v2/auth/login"%string.
  assert (Hpath :
            Js.includes path "/auth/login" || (Js.includes path "/auth/token" ||
            (Js.includes path "/token" || (Js.includes path "/login" ||
            (Js.includes path "/oauth/token" ||
            (Js.includes path "/auth/oauth/token" ||
            (Js.includes path "/v2/auth/login" || false))))))
            = Js.includes path "/token" || Js.includes path "/login").
  { destruct (Js.includes path "/token") eqn:Et;
      [now rewrite !orb_true_r|].
    destruct (Js.includes path "/login") eqn:El;
      [now rewrite !orb_true_r|].
    rewrite (includes_false_mono path "/auth" "/login" "" El
             : Js.includes path "/auth/login" = false).
    rewrite (includes_false_mono path "/auth" "/token" "" Et
             : Js.includes path "/auth/token" = false).
    rewrite (includes_false_mono path "/oauth" "/token" "" Et
             : Js.includes path "/oauth/token" = false).
    rewrite (includes_false_mono path "/auth/oauth" "/token" "" Et
             : Js.includes path "/auth/oauth/token" = false).
    rewrite (includes_false_mono path "/v2/auth" "/login" "" El
             : Js.includes path "/v2/auth/login" = false).
    reflexivity. }
  rewrite Hpath. clear Hpath.
  set (id := Js.toLowerCase (default ""%string (e_operationId endpoint))).
  assert (Hid :
            (if Js.truthy (e_operationId endpoint)
             then Js.includes id "token" || (Js.includes id "auth" ||
                  (Js.includes id "login" ||
                   (Js.includes id "authenticate" || false)))
             else false)
            = Js.includes id "token" || (Js.includes id "auth" ||
              (Js.includes id "login" || false))).
  { destruct (Js.truthy (e_operationId endpoint)) eqn:Et.
    - destruct (Js.includes id "auth") eqn:Ea; [reflexivity|].
      rewrite (includes_false_mono id "" "auth" "enticate" Ea
             : Js.includes id "authenticate" = false).
      reflexivity.
    - subst id. rewrite (not_truthy_default _ Et). reflexivity. }
  rewrite Hid. clear Hid.
  set (text := Js.orElse (e_description endpoint) (e_summary endpoint)).
  assert (Htext :
            (if Js.truthy text
             then Js.includes
                    (Js.toLowerCase
                       (default ""%string (Js.orElse text (Some ""%string))))
                    "access token" ||
                  (Js.includes
                     (Js.toLowerCase
                        (default ""%string (Js.orElse text (Some ""%string))))
                     "authentication" ||
                   (Js.includes
                      (Js.toLowerCase
                         (default ""%string (Js.orElse text (Some ""%string))))
                      "login" ||
                    (Js.includes
                       (Js.toLowerCase
                          (default ""%string
                             (Js.orElse text (Some ""%string))))
                       "auth" || false)))
             else false)
            = Js.includes (Js.toLowerCase (default ""%string text))
                          "access token" ||
              (Js.includes (Js.toLowerCase (default ""%string text)) "auth" ||
               (Js.includes (Js.toLowerCase (default ""%string text)) "login"
                || false))).
  { destruct (Js.truthy text) eqn:Et.
    - unfold Js.orElse at 1 2 3 4. rewrite Et.
      set (t := Js.toLowerCase (default ""%string text)).
      destruct (Js.includes t "auth") eqn:Ea.
      + now rewrite !orb_true_r.
      + rewrite (includes_false_mono t "" "auth" "entication" Ea
             : Js.includes t "authentication" = false).
        now rewrite !orb_false_r.
    - rewrite (not_truthy_default _ Et). reflexivity. }
  rewrite Htext. reflexivity.
Qed.

(** X8.  Which endpoints [isAuthenticationEndpoint] classifies as
    authentication endpoints: those whose path contains [/token] or
    [/login], whose operation id contains [token], [auth] or [login], or
    whose description (the summary, when there is no description) contains
    [access token], [auth] or [login], all compared in lower case.  The
    five longer path patterns and the keywords [authenticate] and
    [authentication] add nothing. *)
Theorem isAuthenticationEndpoint_reduced :
  forall endpoint : ApiEndpoint,
    isAuthenticationEndpoint endpoint =
    Js.includes (lowerPath endpoint) "/token" ||
    Js.includes (lowerPath endpoint) "/login" ||
    existsb (Js.includes (lowerId endpoint)) ["token"; "auth"; "login"] ||
    existsb (Js.includes (lowerText endpoint))
            ["access token"; "auth"; "login"].
Proof. exact isAuthenticationEndpoint_eq. Qed.

(** X9.  No tool is synthesized for an authentication endpoint: the path
    of every tool in the output of [generate] is the path of an endpoint
    of the specification, and in lower case it contains neither [/login]
    nor [/token]. *)
Theorem tools_avoid_login_and_token_paths :
  forall (depth : nat) (spec : ParsedApiSpec) (tool : McpToolSpec),
    In tool (generate depth spec) ->
    exists endpoint,
      In endpoint (endpoints spec) /\
      JsObj.get "path" tool = Some (TString (e_path endpoint)) /\
      Js.includes (Js.toLowerCase (e_path endpoint)) "/login" = false /\
      Js.includes (Js.toLowerCase (e_path endpoint)) "/token" = false.
Proof.
  intros depth spec tool Hin.
  apply generate_In in Hin as (endpoint & Hin & Hauth & Hgen).
  exists endpoint. split; [exact Hin|].
  apply generateMcpTool_literal in Hgen as (i & _ & ->).
  split; [reflexivity|].
  rewrite isAuthenticationEndpoint_eq in Hauth.
  apply orb_false_iff in Hauth as [Hauth _].
  apply orb_false_iff in Hauth as [Hauth _].
  apply orb_false_iff in Hauth as [Htoken Hlogin].
  now split.
Qed.

(** ** Authentication of a tool *)

Lemma is_str_eq (o : option string) (lit : string) :
  is_str o lit = true -> o = Some lit.
Proof.
  destruct o as [x|]; [|discriminate]. simpl.
  intros H. apply String.eqb_eq in H. now subst.
Qed.

Lemma orElse_truthy (a : option string) (d : string) :
  d <> ""%string -> Js.truthy (Js.orElse a (Some d)) = true.
Proof.
  intros Hd. unfold Js.orElse. destruct (Js.truthy a) eqn:E; [exact E|].
  simpl. apply negb_true_iff, String.eqb_neq. exact Hd.
Qed.

Lemma createAuthSpec_shape securityReq spec auth :
  createAuthSpec securityReq spec = Some auth ->
  exists schemeName scheme,
    hd_error (JsObj.keys securityReq) = Some schemeName /\
    schemeName <> ""%string /\
    JsObj.get schemeName (securitySchemes spec) = Some scheme /\
    ((a_type auth = "apiKey"%string /\
      sc_type scheme = Some "apiKey"%string /\
      a_location auth = sc_in scheme /\
      Js.truthy (a_name auth) = true /\
      a_envVariable auth = (Js.toUpperCase schemeName ++ "_API_KEY")%string) \/
     (a_type auth = "bearer"%string /\
      sc_type scheme = Some "http"%string /\
      sc_scheme scheme = Some "bearer"%string /\
      a_envVariable auth = (Js.toUpperCase schemeName ++ "_TOKEN")%string) \/
     (a_type auth = "basic"%string /\
      sc_type scheme = Some "http"%string /\
      sc_scheme scheme = Some "basic"%string /\
      a_envVariable auth
      = (Js.toUpperCase schemeName ++ "_CREDENTIALS")%string) \/
     (a_type auth = "oauth2"%string /\
      sc_type scheme = Some "oauth2"%string /\
      a_envVariable auth
      = (Js.toUpperCase schemeName ++ "_ACCESS_TOKEN")%string)).
Proof.
  unfold createAuthSpec.
  destruct (JsObj.keys securityReq) as [|schemeName rest]; [discriminate|].
  destruct (nonEmpty schemeName) eqn:Ename; [|discriminate]. simpl.
  destruct (JsObj.get schemeName (securitySchemes spec)) as [scheme|] eqn:Eget;
    [|discriminate].
  intros H. exists schemeName, scheme.
  split; [reflexivity|]. split.
  { intros ->. discriminate. }
  split; [exact Eget|].
  destruct (is_str (sc_type scheme) "apiKey") eqn:E1.
  { injection H as <-. left. simpl.
    split; [reflexivity|]. split; [now apply is_str_eq|].
    split; [reflexivity|]. split; [|reflexivity].
    now apply orElse_truthy. }
  destruct (is_str (sc_type scheme) "http") eqn:E2.
  { destruct (is_str (sc_scheme scheme) "bearer") eqn:E3.
    { injection H as <-. right. left. simpl.
      split; [reflexivity|]. split; [now apply is_str_eq|].
      split; [now apply is_str_eq | reflexivity]. }
    destruct (is_str (sc_scheme scheme) "basic") eqn:E4; [|discriminate].
    injection H as <-. right. right. left. simpl.
    split; [reflexivity|]. split; [now apply is_str_eq|].
    split; [now apply is_str_eq | reflexivity]. }
  destruct (is_str (sc_type scheme) "oauth2") eqn:E5; [|discriminate].
  injection H as <-. right. right. right. simpl.
  split; [reflexivity|]. split; [now apply is_str_eq | reflexivity].
Qed.

(** X10.  The authentication of a tool, when it has one.  It is derived
    from the first security requirement of the endpoint, or of the
    specification when the endpoint has none or an empty list; the first
    scheme named there is registered, and it is an [apiKey] scheme, an
    [http] scheme with [bearer] or [basic], or an [oauth2] scheme.  The
    type is accordingly [apiKey], [bearer], [basic] or [oauth2], and the
    environment variable is the upper-cased scheme name followed by
    [_API_KEY], [_TOKEN], [_CREDENTIALS] or [_ACCESS_TOKEN]. *)
Theorem authentication_shape :
  forall (endpoint : ApiEndpoint) (spec : ParsedApiSpec)
         (auth : AuthenticationSpec),
    generateAuthenticationSpec endpoint spec = Some auth ->
    exists securityReq schemeName scheme,
      (hd_error (default [] (e_security endpoint)) = Some securityReq \/
       default [] (e_security endpoint) = [] /\
       hd_error (default [] (globalSecurity spec)) = Some securityReq) /\
      hd_error (JsObj.keys securityReq) = Some schemeName /\
      schemeName <> ""%string /\
      JsObj.get schemeName (securitySchemes spec) = Some scheme /\
      ((a_type auth = "apiKey"%string /\
        sc_type scheme = Some "apiKey"%string /\
        a_location auth = sc_in scheme /\
        Js.truthy (a_name auth) = true /\
        a_envVariable auth
        = (Js.toUpperCase schemeName ++ "_API_KEY")%string) \/
       (a_type auth = "bearer"%string /\
        sc_type scheme = Some "http"%string /\
        sc_scheme scheme = Some "bearer"%string /\
        a_envVariable auth = (Js.toUpperCase schemeName ++ "_TOKEN")%string) \/
       (a_type auth = "basic"%string /\
        sc_type scheme = Some "http"%string /\
        sc_scheme scheme = Some "basic"%string /\
        a_envVariable auth
        = (Js.toUpperCase schemeName ++ "_CREDENTIALS")%string) \/
       (a_type auth = "oauth2"%string /\
        sc_type scheme = Some "oauth2"%string /\
        a_envVariable auth
        = (Js.toUpperCase schemeName ++ "_ACCESS_TOKEN")%string)).
Proof.
  intros endpoint spec auth. unfold generateAuthenticationSpec.
  destruct (e_security endpoint) as [[|req rest]|] eqn:Esec.
  - destruct (globalSecurity spec) as [[|greq grest]|]; try discriminate.
    intros H. destruct (createAuthSpec_shape _ _ _ H) as (n & sc & Hrest).
    exists greq, n, sc. split; [right; now split | exact Hrest].
  - intros H. destruct (createAuthSpec_shape _ _ _ H) as (n & sc & Hrest).
    exists req, n, sc. split; [now left | exact Hrest].
  - destruct (globalSecurity spec) as [[|greq grest]|]; try discriminate.
    intros H. destruct (createAuthSpec_shape _ _ _ H) as (n & sc & Hrest).
    exists greq, n, sc. split; [right; now split | exact Hrest].
Qed.

(** ** Tool synthesis is complete on acyclic registries *)

Lemma forEachM_app {A S : Type} (body : S -> A -> option S) (xs ys : list A)
      (st : S) :
  forEachM body (xs ++ ys) st
  = match forEachM body xs st with
    | Some st' => forEachM body ys st'
    | None => None
    end.
Proof.
  revert st. induction xs as [|x xs IH]; intros st; simpl; [reflexivity|].
  destruct (body st x); [apply IH | reflexivity].
Qed.

Lemma forEachM_flat_map {A B S : Type} (body : S -> B -> option S)
      (g : A -> list B) (xs : list A) (st : S) :
  forEachM body (flat_map g xs) st
  = forEachM (fun a x => forEachM body (g x) a) xs st.
Proof.
  revert st. induction xs as [|x xs IH]; intros st; simpl; [reflexivity|].
  rewrite forEachM_app. destruct (forEachM body (g x) st); [apply IH|].
  reflexivity.
Qed.

Lemma forEachM_ext {A S : Type} (body1 body2 : S -> A -> option S)
      (xs : list A) :
  (forall st x, body1 st x = body2 st x) ->
  forall st, forEachM body1 xs st = forEachM body2 xs st.
Proof.
  intros H. induction xs as [|x xs IH]; intros st; simpl; [reflexivity|].
  rewrite H. destruct (body2 st x); [apply IH | reflexivity].
Qed.

(** [generateInputSchema] as one loop over the body schemas, started from
    what the parameters gave. *)
Lemma generateInputSchema_bodies endpoint spec :
  exists acc0,
    forall depth,
      generateInputSchema depth endpoint spec
      = match forEachM (extractBody depth spec) (bodySchemas endpoint) acc0
        with
        | Some acc =>
            Some (mkInputSchema "object" (ex_properties acc)
                    (match ex_required acc with
                     | [] => None
                     | _ :: _ => Some (ex_required acc)
                     end))
        | None => None
        end.
Proof.
  unfold generateInputSchema, bodySchemas.
  match goal with
  | |- context [fold_left ?f3 (e_parameters endpoint)
                  (fold_left ?f2 (e_parameters endpoint)
                     (fold_left ?f1 (e_parameters endpoint) noneExtracted))] =>
      exists (fold_left f3 (e_parameters endpoint)
                (fold_left f2 (e_parameters endpoint)
                   (fold_left f1 (e_parameters endpoint) noneExtracted)))
  end.
  intros depth.
  set (acc0 := fold_left _ (e_parameters endpoint) _).
  rewrite forEachM_app.
  assert (Hloop :
            forall a,
              forEachM
                (fun a param =>
                   if String.eqb (p_in param) "body" then
                     match p_schema param with
                     | Some schema =>
                         match extractSchemaProperties depth schema spec with
                         | Some bodyProperties =>
                             Some (addBody bodyProperties (p_required param) a)
                         | None => None
                         end
                     | None => Some a
                     end
                   else Some a)
                (e_parameters endpoint) a
              = forEachM (extractBody depth spec)
                  (flat_map
                     (fun param =>
                        if String.eqb (p_in param) "body" then
                          match p_schema param with
                          | Some schema => [(schema, p_required param)]
                          | None => []
                          end
                        else [])
                     (e_parameters endpoint))
                  a).
  { intros a. rewrite forEachM_flat_map. revert a.
    apply forEachM_ext. intros st param.
    destruct (String.eqb (p_in param) "body"); [|reflexivity].
    destruct (p_schema param) as [schema|]; [|reflexivity].
    unfold extractBody. simpl.
    destruct (extractSchemaProperties depth schema spec); reflexivity. }
  destruct (e_requestBody endpoint) as [rb|]; [|simpl; now rewrite Hloop].
  destruct (rb_content rb) as [content|]; [|simpl; now rewrite Hloop].
  destruct (JsObj.get "application/json" content) as [json|];
    [|simpl; now rewrite Hloop].
  destruct (mt_schema json) as [schema|]; [|simpl; now rewrite Hloop].
  unfold extractBody at 1. simpl.
  destruct (extractSchemaProperties depth schema spec); [|reflexivity].
  now rewrite Hloop.
Qed.

Lemma extractBody_le d d' spec acc body r :
  d <= d' -> extractBody d spec acc body = Some r ->
  extractBody d' spec acc body = Some r.
Proof.
  intros Hle. unfold extractBody.
  destruct (extractSchemaProperties d (fst body) spec) as [b|] eqn:E;
    [|discriminate].
  now rewrite (extractSchemaProperties_le _ _ _ _ _ Hle E).
Qed.

(** A deeper stack changes no input schema. *)
Lemma generateInputSchema_le d d' endpoint spec inputSchema :
  d <= d' ->
  generateInputSchema d endpoint spec = Some inputSchema ->
  generateInputSchema d' endpoint spec = Some inputSchema.
Proof.
  intros Hle. destruct (generateInputSchema_bodies endpoint spec) as [acc0 H].
  rewrite !H.
  destruct (forEachM (extractBody d spec) _ acc0) as [acc|] eqn:E;
    [|discriminate].
  intros Hi.
  rewrite (forEachM_mono (extractBody d spec) (extractBody d' spec) _
             (fun st x st' _ => extractBody_le d d' spec st x st' Hle)
             _ _ E).
  exact Hi.
Qed.

Lemma generateMcpTool_le d d' endpoint spec tool :
  d <= d' ->
  generateMcpTool d endpoint spec = Some tool ->
  generateMcpTool d' endpoint spec = Some tool.
Proof.
  intros Hle. unfold generateMcpTool.
  destruct (generateInputSchema d endpoint spec) as [i|] eqn:E;
    [|discriminate].
  now rewrite (generateInputSchema_le _ _ _ _ _ Hle E).
Qed.

Lemma generate_fold_flat_map depth spec es tools0 :
  fold_left (generateStep depth spec) es tools0
  = tools0 ++ flat_map (toolsOfEndpoint depth spec) es.
Proof.
  revert tools0. induction es as [|e es IH]; intros tools0; simpl.
  - now rewrite app_nil_r.
  - rewrite IH. unfold generateStep, toolsOfEndpoint.
    destruct (isAuthenticationEndpoint e); [reflexivity|].
    destruct (generateMcpTool depth e spec); [|reflexivity].
    now rewrite <- app_assoc.
Qed.

Lemma generate_flat_map depth spec :
  generate depth spec = flat_map (toolsOfEndpoint depth spec) (endpoints spec).
Proof. unfold generate. now rewrite generate_fold_flat_map. Qed.

Lemma flat_map_agree {A B : Type} (f g : A -> list B) (xs : list A) :
  (forall x, In x xs -> f x = g x) -> flat_map f xs = flat_map g xs.
Proof.
  induction xs as [|x xs IH]; intros H; [reflexivity|]. simpl.
  rewrite (H x (or_introl eq_refl)), IH; [reflexivity|].
  intros y Hy. apply H. now right.
Qed.

Section Complete.
Variable spec : ParsedApiSpec.
Variable rank : string -> nat.
Hypothesis acyclic : Acyclic spec rank.

Lemma generateInputSchema_terminates endpoint :
  exists depth, is_Some (generateInputSchema depth endpoint spec).
Proof.
  destruct (generateInputSchema_bodies endpoint spec) as [acc0 H].
  pose (Q := fun (d : nat) (body : Schema * option bool) =>
               forall d', d <= d' ->
                          is_Some (extractSchemaProperties d' (fst body) spec)).
  destruct (exists_common_depth Q (bodySchemas endpoint)) as [d Hd].
  - intros d1 d2 x Hle Hq d' Hle'. apply Hq. lia.
  - intros [schema req] _.
    destruct (refersBelow_exists spec rank schema) as [b Hb].
    destruct (extractSchemaProperties_terminates_below spec rank acyclic
                b schema Hb) as (d & r & Hr).
    exists d. intros d' Hle. exists r.
    eapply extractSchemaProperties_le; eassumption.
  - exists d. rewrite H.
    destruct (forEachM_is_Some (extractBody d spec) (bodySchemas endpoint))
      with (st := acc0) as [acc ->]; [|eauto].
    intros x Hin st. unfold extractBody.
    destruct (Hd x Hin d (le_n d)) as [b ->]. eauto.
Qed.

Lemma generate_stabilizes :
  exists depth,
    forall depth', depth <= depth' ->
      generate depth' spec
      = flat_map (fun endpoint =>
                    if isAuthenticationEndpoint endpoint then []
                    else match generateMcpTool depth endpoint spec with
                         | Some tool => [tool]
                         | None => []
                         end)
                 (endpoints spec) /\
      forall endpoint, In endpoint (endpoints spec) ->
                       is_Some (generateMcpTool depth endpoint spec).
Proof.
  pose (Q := fun (d : nat) (endpoint : ApiEndpoint) =>
               is_Some (generateMcpTool d endpoint spec)).
  destruct (exists_common_depth Q (endpoints spec)) as [d Hd].
  - intros d1 d2 x Hle [t Ht]. exists t.
    eapply generateMcpTool_le; eassumption.
  - intros endpoint _.
    destruct (generateInputSchema_terminates endpoint) as (d & i & Hi).
    exists d. unfold Q, generateMcpTool. rewrite Hi. eauto.
  - exists d. intros d' Hle. split; [|exact Hd].
    rewrite generate_flat_map. unfold toolsOfEndpoint.
    apply flat_map_agree. intros endpoint Hin.
    destruct (isAuthenticationEndpoint endpoint); [reflexivity|].
    destruct (Hd endpoint Hin) as [t Ht]. rewrite Ht.
    now rewrite (generateMcpTool_le _ _ _ _ _ Hle Ht).
Qed.
End Complete.

Lemma names_of_tools depth spec es :
  (forall endpoint, In endpoint es ->
                    is_Some (generateMcpTool depth endpoint spec)) ->
  map (JsObj.get "name") (flat_map (toolsOfEndpoint depth spec) es)
  = map (fun endpoint => Some (TString (generateToolName endpoint)))
        (List.filter (fun endpoint => negb (isAuthenticationEndpoint endpoint))
                     es).
Proof.
  induction es as [|e es IH]; intros Hall; [reflexivity|].
  change (flat_map (toolsOfEndpoint depth spec) (e :: es))
    with (toolsOfEndpoint depth spec e
          ++ flat_map (toolsOfEndpoint depth spec) es).
  rewrite List.map_app.
  specialize (IH (fun x Hx => Hall x (or_intror Hx))).
  unfold toolsOfEndpoint at 1. simpl List.filter.
  destruct (isAuthenticationEndpoint e); [exact IH|].
  destruct (Hall e (or_introl eq_refl)) as [t Ht]. rewrite Ht.
  apply generateMcpTool_literal in Ht as (i & _ & ->).
  simpl. f_equal. exact IH.
Qed.

(** X11.  On a specification whose registry of schemas is acyclic, tool
    synthesis is complete: from some stack depth on, [generate] returns
    the same list of tools, and that list has exactly one tool for every
    endpoint that is not an authentication endpoint, in the order of the
    endpoints, under the name that [generateToolName] gives the
    endpoint. *)
Theorem generate_complete_when_acyclic :
  forall (spec : ParsedApiSpec) (rank : string -> nat),
    Acyclic spec rank ->
    exists depth tools,
      (forall depth', depth <= depth' -> generate depth' spec = tools) /\
      map (JsObj.get "name") tools
      = map (fun endpoint => Some (TString (generateToolName endpoint)))
            (List.filter
               (fun endpoint => negb (isAuthenticationEndpoint endpoint))
               (endpoints spec)).
Proof.
  intros spec rank Hacyclic.
  destruct (generate_stabilizes spec rank Hacyclic) as [depth Hd].
  exists depth, (flat_map (toolsOfEndpoint depth spec) (endpoints spec)).
  split.
  - intros depth' Hle. exact (proj1 (Hd depth' Hle)).
  - apply names_of_tools. exact (proj2 (Hd depth (le_n depth))).
Qed.

(** ** Synthesized tools under [validateMcpTool] *)

Lemma append_nonempty_l (a b : string) :
  a <> ""%string -> (a ++ b)%string <> ""%string.
Proof. destruct a; [congruence | discriminate]. Qed.

Lemma append_nonempty_r (a b : string) :
  b <> ""%string -> (a ++ b)%string <> ""%string.
Proof.
  intros Hb H. apply (f_equal String.length) in H.
  rewrite string_app_length in H. destruct b; [congruence|].
  simpl in H. lia.
Qed.

Lemma truthy_default (o : option string) :
  Js.truthy o = true -> default ""%string o <> ""%string.
Proof.
  destruct o as [x|]; [|discriminate]. simpl.
  intros H. now apply negb_true_iff, String.eqb_neq in H.
Qed.

Lemma nonEmpty_true (x : string) : nonEmpty x = true <-> x <> ""%string.
Proof.
  unfold nonEmpty. rewrite negb_true_iff. apply String.eqb_neq.
Qed.

Lemma generateToolDescription_nonempty endpoint :
  generateToolDescription endpoint <> ""%string.
Proof.
  unfold generateToolDescription.
  destruct (Js.truthy (e_description endpoint)) eqn:Ed;
    [now apply truthy_default|].
  destruct (Js.truthy (e_summary endpoint)) eqn:Es;
    [now apply truthy_default|].
  apply append_nonempty_l. unfold getActionFromMethod.
  repeat match goal with
         | |- context [if ?c then _ else _] => destruct c
         end; discriminate.
Qed.

Lemma replaceChars_length cls f str :
  (forall c, cls c = true -> 1 <= String.length (f c)) ->
  String.length str <= String.length (Js.replaceChars cls f str).
Proof.
  intros Hf. induction str as [|c r IH]; [apply le_n|].
  cbn [Js.replaceChars]. rewrite string_app_length.
  destruct (cls c) eqn:E.
  - specialize (Hf c E). simpl. lia.
  - simpl. lia.
Qed.

(** The name of a tool is empty only for the operation id [_]. *)
Lemma generateToolName_empty endpoint :
  generateToolName endpoint = ""%string <->
  e_operationId endpoint = Some "_"%string.
Proof.
  unfold generateToolName.
  destruct (e_operationId endpoint) as [id|] eqn:Eid; simpl.
  - destruct (String.eqb id "") eqn:Eempty; simpl.
    + apply String.eqb_eq in Eempty as ->. split; [|discriminate].
      intros H. exfalso. revert H. apply append_nonempty_r. discriminate.
    + apply String.eqb_neq in Eempty. unfold camelToSnakeCase.
      pose proof (replaceChars_length Js.isUpper
                    (fun letter =>
                       String "_" (String (Js.lowerChar letter) EmptyString))
                    id (fun c _ => le_S _ _ (le_n 1))) as Hlen.
      destruct id as [|c r]; [congruence|].
      cbn [Js.replaceChars] in *.
      destruct (Js.isUpper c) eqn:Eup.
      * change ((String "_" (String (Js.lowerChar c) EmptyString)
                 ++ Js.replaceChars Js.isUpper
                      (fun letter =>
                         String "_" (String (Js.lowerChar letter) EmptyString))
                      r)%string)
          with (String "_"
                  (String (Js.lowerChar c)
                     (Js.replaceChars Js.isUpper
                        (fun letter =>
                           String "_"
                                  (String (Js.lowerChar letter) EmptyString))
                        r))).
        cbn [Js.dropLeadingUnderscore]. split; [discriminate|].
        intros [= -> ->]. discriminate.
      * change ((String c EmptyString
                 ++ Js.replaceChars Js.isUpper
                      (fun letter =>
                         String "_" (String (Js.lowerChar letter) EmptyString))
                      r)%string)
          with (String c
                  (Js.replaceChars Js.isUpper
                     (fun letter =>
                        String "_" (String (Js.lowerChar letter) EmptyString))
                     r)) in *.
        pose proof (replaceChars_length Js.isUpper
                      (fun letter =>
                         String "_" (String (Js.lowerChar letter) EmptyString))
                      r (fun c _ => le_S _ _ (le_n 1))) as Hr.
        split.
        -- intros H.
           destruct c as [[] [] [] [] [] [] [] []];
             cbn [Js.dropLeadingUnderscore] in H; try discriminate H.
           rewrite H in Hr. destruct r; [reflexivity | simpl in Hr; lia].
        -- intros [= -> ->]. reflexivity.
  - split; [|discriminate]. intros H. exfalso. revert H.
    apply append_nonempty_r, append_nonempty_l. discriminate.
Qed.

Lemma generateInputSchema_type depth endpoint spec inputSchema :
  generateInputSchema depth endpoint spec = Some inputSchema ->
  is_type inputSchema = "object"%string.
Proof.
  destruct (generateInputSchema_bodies endpoint spec) as [acc0 H].
  rewrite H. destruct (forEachM _ _ acc0); [|discriminate].
  now intros [= <-].
Qed.

(** X12.  What [validateMcpTool] says about a synthesized tool: it has no
    warning and no suggestion, and it is valid exactly when the operation
    id of the endpoint is not the single underscore (the one id that gives
    an empty tool name) and neither the method nor the path of the
    endpoint is empty. *)
Theorem synthesized_tool_validates :
  forall (depth : nat) (endpoint : ApiEndpoint) (spec : ParsedApiSpec)
         (tool : McpToolSpec),
    generateMcpTool depth endpoint spec = Some tool ->
    Validator.v_warnings (Validator.validateMcpTool tool) = [] /\
    Validator.v_suggestions (Validator.validateMcpTool tool) = [] /\
    (Validator.isValid (Validator.validateMcpTool tool) = true <->
     e_operationId endpoint <> Some "_"%string /\
     e_method endpoint <> ""%string /\
     e_path endpoint <> ""%string).
Proof.
  intros depth endpoint spec tool Hgen.
  apply generateMcpTool_literal in Hgen as (i & Hi & ->).
  apply generateInputSchema_type in Hi.
  unfold Validator.validateMcpTool.
  cbn [JsObj.get app String.eqb Ascii.eqb Bool.eqb Validator.toolTruthy
       Validator.typeField Validator.hasProperties negb].
  rewrite Hi.
  rewrite (proj2 (nonEmpty_true _) (generateToolDescription_nonempty endpoint)).
  rewrite <- generateToolName_empty, <- !nonEmpty_true.
  destruct (nonEmpty (generateToolName endpoint)),
           (nonEmpty (e_method endpoint)),
           (nonEmpty (e_path endpoint)); simpl;
    (split; [reflexivity|]); (split; [reflexivity|]);
    split; try discriminate; try tauto; intros (H1 & H2 & H3);
    congruence.
Qed.

(** ** What the structural validator accepts *)

Module ValidatorSound.
Import Validator.

Lemma errors_pushError msg r : errors (pushError msg r) <> [].
Proof. simpl. intros H. apply app_eq_nil in H as [_ H]. discriminate. Qed.

Lemma errors_when_error (c : bool) msg r :
  errors (when c (pushError msg) r) = [] <-> c = false /\ errors r = [].
Proof.
  destruct c; simpl.
  - split; [intros H; now apply (errors_pushError msg r) in H|].
    intros [H _]. discriminate.
  - tauto.
Qed.

Lemma errors_when_warning (c : bool) msg r :
  errors (when c (pushWarning msg) r) = errors r.
Proof. now destruct c. Qed.

Lemma errors_when_suggestion (c : bool) msg r :
  errors (when c (pushSuggestion msg) r) = errors r.
Proof. now destruct c. Qed.

Lemma errors_fold {A : Type} (f : Report -> A -> Report) (P : A -> Prop)
      (xs : list A) :
  (forall r x, In x xs -> errors (f r x) = [] <-> errors r = [] /\ P x) ->
  forall r,
    errors (fold_left f xs r) = [] <->
    errors r = [] /\ forall x, In x xs -> P x.
Proof.
  induction xs as [|x xs IH]; intros Hf r; simpl.
  - split; [intros H; split; [exact H | intros x []] | now intros [H _]].
  - rewrite IH by (intros r0 y Hy; apply Hf; now right).
    rewrite (Hf r x (or_introl eq_refl)). split.
    + intros [[Hr Hx] Hxs]. split; [exact Hr|].
      intros y [<- | Hy]; [exact Hx | now apply Hxs].
    + intros [Hr Hall]. split; [split; [exact Hr|]|].
      * apply Hall. now left.
      * intros y Hy. apply Hall. now right.
Qed.

Lemma isTrue_Some_true (o : option bool) : isTrue o = true <-> o = Some true.
Proof.
  destruct o as [[]|]; simpl; split; congruence.
Qed.

Lemma validateParameter_errors key (S : gset string) r param :
  errors (snd (validateParameter key (S, r) param)) = [] <->
  errors r = [] /\ SoundParameter param /\ paramKey param ∉ S.
Proof.
  unfold validateParameter, SoundParameter.
  destruct (nonEmpty (p_name param)) eqn:Ename; simpl.
  - apply nonEmpty_true in Ename.
    rewrite !errors_when_error.
    rewrite !negb_false_iff, !andb_false_iff, !negb_false_iff.
    rewrite nonEmpty_true, bool_decide_eq_false, isTrue_Some_true.
    fold (paramKey param).
    destruct (String.eqb (p_in param) "path") eqn:Ein.
    + apply String.eqb_eq in Ein.
      destruct (p_schema param); simpl; intuition congruence.
    + apply String.eqb_neq in Ein.
      destruct (p_schema param); simpl; intuition congruence.
  - split.
    + intros H. now apply errors_pushError in H.
    + intros (_ & (Hname & _) & _).
      apply nonEmpty_true in Hname. congruence.
Qed.

Lemma validateParameter_names key (S : gset string) r param :
  p_name param <> ""%string ->
  fst (validateParameter key (S, r) param) = {[ paramKey param ]} ∪ S.
Proof.
  intros Hname. unfold validateParameter.
  now rewrite (proj2 (nonEmpty_true _) Hname).
Qed.

Lemma validateParameters_fold key params :
  forall (S : gset string) r,
    errors (snd (fold_left (validateParameter key) params (S, r))) = [] <->
    errors r = [] /\
    (forall param, In param params -> SoundParameter param) /\
    NoDup (map paramKey params) /\
    (forall param, In param params -> paramKey param ∉ S).
Proof.
  induction params as [|p rest IH]; intros S r.
  - simpl. split.
    + intros H. split; [exact H|].
      split; [intros x []|]. split; [constructor | intros x []].
    + now intros [H _].
  - cbn [fold_left map].
    destruct (validateParameter key (S, r) p) as [S' r'] eqn:Estep.
    pose proof (validateParameter_errors key S r p) as Herr.
    pose proof (validateParameter_names key S r p) as Hnames.
    rewrite Estep in Herr, Hnames. cbn [fst snd] in Herr, Hnames.
    rewrite IH, Herr, NoDup_cons. split.
    + intros ((Hr & Hp & HpS) & Hall & Hnodup & Hfresh).
      rewrite (Hnames (proj1 Hp)) in Hfresh.
      split; [exact Hr|]. split; [|split; [split|]].
      * intros x [<- | Hx]; [exact Hp | now apply Hall].
      * rewrite list_elem_of_In, in_map_iff. intros (q & Hq & Hin).
        apply (Hfresh q Hin). rewrite Hq.
        apply elem_of_union. left. now apply elem_of_singleton.
      * exact Hnodup.
      * intros x [<- | Hx]; [exact HpS|].
        intros Hin. apply (Hfresh x Hx), elem_of_union. now right.
    + intros (Hr & Hall & [Hnotin Hnodup] & Hfresh).
      assert (Hp : SoundParameter p) by (apply Hall; now left).
      rewrite (Hnames (proj1 Hp)).
      split; [split; [exact Hr | split; [exact Hp|]]|].
      * apply Hfresh. now left.
      * split; [intros x Hx; apply Hall; now right|].
        split; [exact Hnodup|].
        intros x Hx Hin.
        apply elem_of_union in Hin as [Hin | Hin].
        -- apply elem_of_singleton in Hin.
           apply Hnotin. rewrite list_elem_of_In, in_map_iff.
           now exists x.
        -- exact (Hfresh x (or_intror Hx) Hin).
Qed.

(** A loop that returns has no error exactly when it started with none
    and no turn pushed one. *)
Lemma forEach_errors {A : Type} (body : A -> Report -> Outcome)
      (P : A -> Prop) (xs : list A) :
  (forall x r r',
      In x xs -> body x r = Returned r' ->
      errors r' = [] <-> errors r = [] /\ P x) ->
  forall r r',
    forEach body xs r = Returned r' ->
    errors r' = [] <-> errors r = [] /\ forall x, In x xs -> P x.
Proof.
  induction xs as [|x xs IH]; intros Hbody r r'; simpl.
  - intros [= <-].
    split; [intros H; split; [exact H | intros x []] | now intros [H _]].
  - intros H. apply ValidatorFacts.andThen_Returned in H as (r1 & H1 & H2).
    rewrite (IH (fun y r0 r0' Hy => Hbody y r0 r0' (or_intror Hy)) r1 r' H2).
    rewrite (Hbody x r r1 (or_introl eq_refl) H1). split.
    + intros [[Hr Hx] Hxs]. split; [exact Hr|].
      intros y [<- | Hy]; [exact Hx | now apply Hxs].
    + intros [Hr Hall]. split; [split; [exact Hr|]|].
      * apply Hall. now left.
      * intros y Hy. apply Hall. now right.
Qed.

Lemma validateOperation_errors path method operation r r' :
  validateOperation path method (Some (rawOperation operation)) r
  = Returned r' ->
  errors r' = [] <-> errors r = [] /\ SoundOperation operation.
Proof.
  unfold validateOperation, rawOperation, SoundOperation.
  cbn [r_parameters r_responses r_operationId r_summary r_description r_tags
       r_requestBody].
  destruct (o_parameters operation) as [parameters|]; cbn [option_map].
  - unfold validateParameters. rewrite ValidatorFacts.parametersLoop_typed.
    cbn [andThen]. intros [= <-].
    rewrite errors_when_suggestion, errors_when_warning.
    rewrite validateParameters_fold.
    rewrite errors_when_warning, errors_when_suggestion, errors_when_error.
    rewrite negb_false_iff.
    destruct (o_responses operation); simpl; split.
    + intros ((_ & Hr) & Hall & Hnodup & _).
      split; [exact Hr|]. split; [discriminate|]. now split.
    + intros (Hr & _ & Hall & Hnodup).
      split; [now split|]. split; [exact Hall|]. split; [exact Hnodup|].
      intros x _. apply not_elem_of_empty.
    + intros ((H & _) & _). discriminate.
    + intros (_ & H & _). congruence.
  - cbn [andThen]. intros [= <-].
    rewrite errors_when_suggestion, errors_when_warning.
    rewrite errors_when_warning, errors_when_suggestion, errors_when_error.
    rewrite negb_false_iff.
    destruct (o_responses operation); simpl; split.
    + intros (_ & Hr). split; [exact Hr|]. split; [discriminate|].
      split; [intros x [] | constructor].
    + intros (Hr & _). now split.
    + intros (H & _). discriminate.
    + intros (_ & H & _). congruence.
Qed.

Lemma validatePaths_errors paths r r' :
  validatePaths (map rawPathEntry paths) r = Returned r' ->
  errors r' = [] <->
  errors r = [] /\ forall pathEntry, In pathEntry paths -> SoundPath pathEntry.
Proof.
  unfold validatePaths. rewrite ValidatorFacts.forEach_map.
  apply forEach_errors. clear.
  intros [path pathItem] r r' _. unfold validatePathEntry, rawPathEntry, SoundPath.
  cbn [fst snd]. rewrite ValidatorFacts.forEach_map. intros H.
  apply (forEach_errors _
           (fun methodEntry : string * Operation =>
              Parser.isValidHttpMethod (fst methodEntry) = true ->
              SoundOperation (snd methodEntry))) in H.
  - rewrite H, errors_when_error, negb_false_iff. split.
    + intros ((Hstart & Hr) & Hall). split; [exact Hr|].
      split; [exact Hstart|].
      intros method operation Hin. exact (Hall (method, operation) Hin).
    + intros (Hr & Hstart & Hall). split; [now split|].
      intros [method operation] Hin. now apply Hall.
  - intros [method operation] r1 r1' _.
    unfold validateMethodEntry, rawMethodEntry. cbn [fst snd].
    change (Js.arrayIncludes Parser.validMethods (Js.toLowerCase method))
      with (Parser.isValidHttpMethod method).
    destruct (Parser.isValidHttpMethod method).
    + intros Hop. rewrite (validateOperation_errors _ _ _ _ _ Hop). tauto.
    + intros [= <-].
      split; [intros E; split; [exact E | discriminate] | tauto].
Qed.

Lemma validateSecurityScheme_errors r entry :
  errors (validateSecurityScheme r entry) = [] <->
  errors r = [] /\ SoundScheme (snd entry).
Proof.
  destruct entry as [name scheme].
  unfold validateSecurityScheme, SoundScheme. cbn [snd].
  destruct (Js.truthy (sc_type scheme)) eqn:Etype; simpl.
  - destruct (sc_type scheme) as [t|]; [|discriminate]. simpl.
    destruct (String.eqb t "apiKey") eqn:E1.
    { apply String.eqb_eq in E1 as ->.
      rewrite errors_when_error, orb_false_iff, !negb_false_iff.
      split.
      - intros ((Hn & Hi) & Hr). split; [exact Hr|]. split; [reflexivity|].
        repeat split;
          first [discriminate | assumption | intros _; assumption].
      - intros (Hr & _ & H & _). split; [apply H; reflexivity | exact Hr]. }
    destruct (String.eqb t "http") eqn:E2.
    { apply String.eqb_eq in E2 as ->.
      rewrite errors_when_error, !negb_false_iff.
      split.
      - intros (Hs & Hr). split; [exact Hr|]. split; [reflexivity|].
        repeat split;
          first [discriminate | assumption | intros _; assumption].
      - intros (Hr & _ & _ & H & _). split; [apply H; reflexivity | exact Hr]. }
    destruct (String.eqb t "oauth2") eqn:E3.
    { apply String.eqb_eq in E3 as ->.
      rewrite errors_when_error, !negb_false_iff.
      split.
      - intros (Hs & Hr). split; [exact Hr|]. split; [reflexivity|].
        repeat split; try discriminate. intros _. exact Hs.
      - intros (Hr & _ & _ & _ & H & _). split; [apply H; reflexivity|
                                                  exact Hr]. }
    destruct (String.eqb t "openIdConnect") eqn:E4.
    { apply String.eqb_eq in E4 as ->.
      rewrite errors_when_error, !negb_false_iff.
      split.
      - intros (Hs & Hr). split; [exact Hr|]. split; [reflexivity|].
        repeat split; try discriminate. intros _. exact Hs.
      - intros (Hr & _ & _ & _ & _ & H). split; [apply H; reflexivity|
                                                  exact Hr]. }
    apply String.eqb_neq in E1, E2, E3, E4. simpl. split.
    + intros Hr. split; [exact Hr|]. split; [reflexivity|].
      split; [intros [= ->]; congruence|].
      split; [intros [= ->]; congruence|].
      split; intros [= ->]; congruence.
    + now intros [Hr _].
  - split.
    + intros H. now apply errors_pushError in H.
    + intros (_ & H & _). discriminate.
Qed.

Lemma validateSecuritySchemes_errors schemes r r' :
  validateSecuritySchemes (map rawSchemeEntry schemes) r = Returned r' ->
  errors r' = [] <->
  errors r = [] /\ forall entry, In entry schemes -> SoundScheme (snd entry).
Proof.
  unfold validateSecuritySchemes. rewrite ValidatorFacts.forEach_map.
  apply forEach_errors. clear.
  intros [name scheme] r r' _. unfold validateSchemeEntry, rawSchemeEntry.
  cbn [fst snd]. intros [= <-].
  apply (validateSecurityScheme_errors r (name, scheme)).
Qed.

(** The report with which the [try] block returns on a document without a
    [null] entry. *)
Lemma tryBlock_errors doc r' :
  tryBlock (rawSpec doc) = Returned r' ->
  errors r' = [] <-> SoundDocument doc.
Proof.
  unfold tryBlock, rawSpec, SoundDocument, declaredSchemes.
  cbn [raw_info raw_paths raw_openapi raw_swagger raw_servers raw_components].
  cbv zeta. intros H.
  apply ValidatorFacts.andThen_Returned in H as (r2 & H2 & H3).
  match type of H2 with
  | context [pushError "No paths defined in specification" ?x] =>
      set (r1 := x) in H2
  end.
  assert (H1 : errors r1 = [] <->
               exists info, d_info doc = Some info /\
                            Js.truthy (i_title info) = true /\
                            Js.truthy (i_version info) = true).
  { subst r1. destruct (d_info doc) as [info|].
    - rewrite !errors_when_error, !negb_false_iff. split.
      + intros (Hv & Ht & _). now exists info.
      + intros (i & [= <-] & Ht & Hv). now repeat split.
    - split; [intros H; now apply errors_pushError in H|].
      intros (i & Hi & _). discriminate. }
  assert (H2' : errors r2 = [] <->
                errors r1 = [] /\
                exists paths, d_paths doc = Some paths /\ paths <> [] /\
                              forall pathEntry, In pathEntry paths ->
                                                SoundPath pathEntry).
  { clearbody r1. destruct (d_paths doc) as [[|pathEntry paths]|];
      cbn [option_map map] in H2.
    - injection H2 as <-.
      split; [intros H; now apply errors_pushError in H|].
      intros (_ & ps & [= <-] & Hne & _). congruence.
    - apply (validatePaths_errors (pathEntry :: paths)) in H2.
      rewrite H2. split.
      + intros (Hr & Hall). split; [exact Hr|].
        exists (pathEntry :: paths).
        split; [reflexivity|]. split; [discriminate | exact Hall].
      + intros (Hr & ps & [= <-] & _ & Hall). now split.
    - injection H2 as <-.
      split; [intros H; now apply errors_pushError in H|].
      intros (_ & ps & Hps & _). discriminate. }
  clearbody r1.
  match type of H3 with
  | context [when ?c (pushWarning ?m) ?x] =>
      set (r3 := when c (pushWarning m) x) in H3
  end.
  assert (H3' : errors r' = [] <->
                errors r3 = [] /\
                forall entry,
                  In entry
                     match d_components doc with
                     | Some components =>
                         default [] (c_securitySchemes components)
                     | None => []
                     end ->
                  SoundScheme (snd entry)).
  { clearbody r3. destruct (d_components doc) as [components|];
      cbn [option_map] in H3.
    - unfold rawComponents in H3. cbn [rc_securitySchemes] in H3.
      destruct (c_securitySchemes components) as [schemes|];
        cbn [option_map] in H3; simpl.
      + now apply validateSecuritySchemes_errors.
      + injection H3 as <-.
        split; [intros H; split; [exact H | intros x []] | tauto].
    - injection H3 as <-.
      split; [intros H; split; [exact H | intros x []] | tauto]. }
  rewrite H3'. subst r3. rewrite errors_when_warning, errors_when_error, H2', H1.
  rewrite andb_false_iff, !negb_false_iff. tauto.
Qed.

Lemma validate_accepts doc :
  isValid (validate (rawSpec doc)) = true <-> SoundDocument doc.
Proof.
  destruct (ValidatorFacts.tryBlock_completes doc) as [r Hr].
  rewrite (ValidatorFacts.validate_Returned _ _ Hr). cbn [isValid].
  rewrite <- (tryBlock_errors doc r Hr).
  destruct (errors r); split; congruence.
Qed.

End ValidatorSound.

(** X13.  Among the documents of the declared shape (none of their entries
    is [null]), those that [validate] accepts are exactly those with an
    [info] that has a title and a version, with a version field
    ([openapi] or [swagger]), with at least one path, where every path
    starts with a slash and every operation under an HTTP method has
    [responses] and parameters that each have a name, an [in], a schema
    or a type, are required when they are path parameters, and differ in
    their name-and-location keys, and where every security scheme under
    [components] has a type and what its type needs: a name and an [in]
    for [apiKey], a scheme for [http], truthy [flows] for [oauth2], a URL
    for [openIdConnect]. *)
Theorem validate_accepts_sound_documents :
  forall doc : SwaggerSpec,
    Validator.isValid (Validator.validate (Validator.rawSpec doc)) = true
    <-> SoundDocument doc.
Proof. exact ValidatorSound.validate_accepts. Qed.

(** ** The two structural checks *)

Lemma fold_left_fixed {A S : Type} (f : S -> A -> S) (xs : list A) (a : S) :
  (forall x, In x xs -> f a x = a) -> fold_left f xs a = a.
Proof.
  induction xs as [|x xs IH]; intros H; simpl; [reflexivity|].
  rewrite (H x (or_introl eq_refl)). apply IH.
  intros y Hy. apply H. now right.
Qed.

Lemma validateSpec_clean doc :
  SoundDocument doc ->
  Parser.validateSpec doc = Some (Parser.mkSpecCheck true []).
Proof.
  intros ((info & Hinfo & Htitle & Hversion) &
          (paths & Hpaths & Hne & Hall) & Hfield & _).
  unfold Parser.validateSpec. rewrite Hinfo, Hpaths, Htitle, Hversion.
  cbn [negb app].
  assert (Hf : negb (Js.truthy (d_openapi doc))
               && negb (Js.truthy (d_swagger doc)) = false).
  { destruct Hfield as [-> | ->]; [reflexivity | apply andb_false_r]. }
  rewrite Hf.
  destruct paths as [|pathEntry rest] eqn:Eps; [congruence|].
  rewrite <- Eps in *. clear Eps.
  rewrite fold_left_fixed; [reflexivity|].
  intros [path pathItem] Hin.
  destruct (Hall _ Hin) as [Hstart Hops]. cbn [fst snd] in Hstart, Hops.
  rewrite Hstart. cbn [negb].
  apply fold_left_fixed. intros [method operation] Hop.
  destruct (Parser.isValidHttpMethod method) eqn:Ev; [|reflexivity].
  destruct (Hops method operation Hop Ev) as [Hresp _].
  destruct (o_responses operation); [reflexivity | congruence].
Qed.

(** X14.  The validator is at least as strict as the check of the parser:
    on a document of the declared shape that [validate] accepts, [validateSpec] of the parser
    does not throw and answers with [isValid] and no error. *)
Theorem validateSpec_accepts_what_validate_accepts :
  forall doc : SwaggerSpec,
    Validator.isValid (Validator.validate (Validator.rawSpec doc)) = true ->
    Parser.validateSpec doc = Some (Parser.mkSpecCheck true []).
Proof.
  intros doc H. apply validateSpec_clean.
  now apply ValidatorSound.validate_accepts.
Qed.

(** ** Endpoints of a parsed document *)

Lemma flat_map_step {A B : Type} (f : A -> list B) (x : A) (l : list A) :
  flat_map f (x :: l) = f x ++ flat_map f l.
Proof. reflexivity. Qed.

Lemma convertToInternalFormat_endpoints doc spec :
  Parser.convertToInternalFormat doc = Some spec ->
  endpoints spec
  = map (fun operation : string * string * Operation =>
           Parser.endpointOf (fst (fst operation)) (snd (fst operation))
                             (snd operation))
        (operationsOf doc).
Proof.
  unfold Parser.convertToInternalFormat, operationsOf.
  destruct (d_paths doc) as [paths|]; [|discriminate].
  intros [= <-]. cbn [endpoints].
  change (default [] (Some paths)) with paths.
  induction paths as [|[path pathItem] paths IH]; [reflexivity|].
  rewrite !flat_map_step, List.map_app, IH. f_equal. cbn [fst snd].
  clear IH. induction pathItem as [|[method operation] pathItem IH];
    [reflexivity|].
  rewrite !flat_map_step, List.map_app, IH. cbn [fst snd].
  now destruct (Parser.isValidHttpMethod method).
Qed.

Lemma operationsOf_In doc path method operation :
  In (path, method, operation) (operationsOf doc) ->
  Parser.isValidHttpMethod method = true /\
  exists paths pathItem,
    d_paths doc = Some paths /\ In (path, pathItem) paths /\
    In (method, operation) pathItem.
Proof.
  unfold operationsOf. intros H.
  apply in_flat_map in H as ([path' pathItem] & Hpath & H).
  apply in_flat_map in H as ([method' operation'] & Hop & H).
  cbn [fst snd] in H.
  destruct (Parser.isValidHttpMethod method') eqn:Ev; [|destruct H].
  destruct H as [[= <- <- <-] | []]. split; [exact Ev|].
  destruct (d_paths doc) as [paths|]; [|destruct Hpath].
  now exists paths, pathItem.
Qed.

Lemma upperChar_lowerChar c : Js.upperChar (Js.lowerChar c) = Js.upperChar c.
Proof. destruct c as [[] [] [] [] [] [] [] []]; reflexivity. Qed.

Lemma toUpperCase_toLowerCase str :
  Js.toUpperCase (Js.toLowerCase str) = Js.toUpperCase str.
Proof.
  induction str as [|c r IH]; [reflexivity|].
  unfold Js.toUpperCase, Js.toLowerCase in *. cbn [Js.mapChars].
  now rewrite upperChar_lowerChar, IH.
Qed.

Lemma valid_method_upper method :
  Parser.isValidHttpMethod method = true ->
  In (Js.toUpperCase method) httpMethods.
Proof.
  unfold Parser.isValidHttpMethod, Js.arrayIncludes, Parser.validMethods.
  intros H. rewrite <- toUpperCase_toLowerCase.
  cbn [existsb] in H.
  repeat (apply orb_true_iff in H as [H | H];
          [apply String.eqb_eq in H; rewrite H; cbv; tauto|]).
  discriminate.
Qed.

Lemma keepTruthy_not_empty (o : option string) :
  keepTruthy o <> Some ""%string.
Proof.
  unfold keepTruthy. destruct (Js.truthy o) eqn:E; [|discriminate].
  intros ->. discriminate.
Qed.

(** X15.  The endpoints that the parser makes of a document are, one for
    one and in the order of the document, the endpoints of its operations
    under an HTTP method: the list of endpoints is the list of those
    operations, each turned into its endpoint.  The method of each endpoint
    is one of the seven upper-case names of [HttpMethod], its operation id,
    summary and description are absent rather than empty, and its
    parameters, request body, responses and security are those of an
    operation that stands under its path in the document. *)
Theorem parsed_endpoints_wellformed :
  forall (doc : SwaggerSpec) (spec : ParsedApiSpec),
    Parser.convertToInternalFormat doc = Some spec ->
    endpoints spec
    = map (fun operation : string * string * Operation =>
             Parser.endpointOf (fst (fst operation)) (snd (fst operation))
                               (snd operation))
          (operationsOf doc) /\
    forall endpoint,
      In endpoint (endpoints spec) ->
      In (e_method endpoint) httpMethods /\
      e_operationId endpoint <> Some ""%string /\
      e_summary endpoint <> Some ""%string /\
      e_description endpoint <> Some ""%string /\
      exists paths pathItem method operation,
        d_paths doc = Some paths /\
        In (e_path endpoint, pathItem) paths /\
        In (method, operation) pathItem /\
        Parser.isValidHttpMethod method = true /\
        endpoint = Parser.endpointOf (e_path endpoint) method operation /\
        e_method endpoint = Js.toUpperCase method /\
        e_parameters endpoint = default [] (o_parameters operation) /\
        e_requestBody endpoint = o_requestBody operation /\
        e_responses endpoint = o_responses operation /\
        e_security endpoint = o_security operation.
Proof.
  intros doc spec Hconv.
  rewrite (convertToInternalFormat_endpoints _ _ Hconv).
  split; [reflexivity|].
  intros endpoint Hin.
  apply in_map_iff in Hin as ([[path method] operation] & <- & Hin).
  cbn [fst snd].
  apply operationsOf_In in Hin as (Hvalid & paths & pathItem & Hp & Hi & Ho).
  unfold Parser.endpointOf. cbn.
  split; [now apply valid_method_upper|].
  do 3 (split; [apply keepTruthy_not_empty|]).
  exists paths, pathItem, method, operation. now repeat split.
Qed.

(** ** The pipelines *)

Module PipelineFacts.
Import Validator.

Lemma validateEndpoint_errors r endpoint :
  errors (validateEndpoint r endpoint) = [] <->
  errors r = [] /\
  (e_path endpoint <> ""%string /\ e_method endpoint <> ""%string /\
   e_responses endpoint <> None).
Proof.
  unfold validateEndpoint.
  rewrite !ValidatorSound.errors_when_error, !negb_false_iff, !nonEmpty_true.
  destruct (e_responses endpoint); simpl; intuition congruence.
Qed.

Lemma validateParsedSpec_accepts spec :
  isValid (validateParsedSpec spec) = true <->
  (exists specInfo,
      info spec = Some specInfo /\
      Js.truthy (i_title specInfo) = true /\
      Js.truthy (i_version specInfo) = true) /\
  endpoints spec <> [] /\
  forall endpoint,
    In endpoint (endpoints spec) ->
    e_path endpoint <> ""%string /\ e_method endpoint <> ""%string /\
    e_responses endpoint <> None.
Proof.
  unfold validateParsedSpec. cbn [isValid].
  set (r1 := match info spec with
             | Some specInfo => _
             | None => _
             end).
  assert (H1 : errors r1 = [] <->
               exists specInfo, info spec = Some specInfo /\
                                Js.truthy (i_title specInfo) = true /\
                                Js.truthy (i_version specInfo) = true).
  { subst r1. destruct (info spec) as [specInfo|].
    - rewrite !ValidatorSound.errors_when_error, !negb_false_iff. split.
      + intros (Hv & Ht & _). now exists specInfo.
      + intros (i & [= <-] & Ht & Hv). now repeat split.
    - split; [intros H; now apply ValidatorSound.errors_pushError in H|].
      intros (i & Hi & _). discriminate. }
  clearbody r1.
  destruct (endpoints spec) as [|endpoint rest] eqn:Eeps.
  - destruct (errors (pushError _ r1)) eqn:E.
    + now apply ValidatorSound.errors_pushError in E.
    + split; [discriminate | intros (_ & H & _); congruence].
  - pose proof (ValidatorSound.errors_fold validateEndpoint
                  (fun endpoint =>
                     e_path endpoint <> ""%string /\
                     e_method endpoint <> ""%string /\
                     e_responses endpoint <> None)
                  (endpoint :: rest)
                  (fun r x _ => validateEndpoint_errors r x) r1) as Hfold.
    destruct (errors (fold_left validateEndpoint (endpoint :: rest) r1)).
    + split; [|reflexivity]. intros _.
      destruct (proj1 Hfold eq_refl) as [Hr Hall].
      split; [now apply H1|]. split; [discriminate | exact Hall].
    + split; [discriminate|]. intros (Hinfo & _ & Hall).
      assert (Hnil : s :: l = []) by (apply Hfold; split;
                                      [now apply H1 | exact Hall]).
      discriminate.
Qed.

End PipelineFacts.

(** X16.  The parsed specifications that [validateParsedSpec] accepts are
    exactly those whose [info] has a title and a version and that have at
    least one endpoint, every endpoint having a path, a method and
    [responses]. *)
Theorem validateParsedSpec_accepts_wellformed :
  forall spec : ParsedApiSpec,
    Validator.isValid (Validator.validateParsedSpec spec) = true <->
    (exists specInfo,
        info spec = Some specInfo /\
        Js.truthy (i_title specInfo) = true /\
        Js.truthy (i_version specInfo) = true) /\
    endpoints spec <> [] /\
    forall endpoint,
      In endpoint (endpoints spec) ->
      e_path endpoint <> ""%string /\ e_method endpoint <> ""%string /\
      e_responses endpoint <> None.
Proof. exact PipelineFacts.validateParsedSpec_accepts. Qed.

Lemma convertToInternalFormat_info doc spec :
  Parser.convertToInternalFormat doc = Some spec -> info spec = d_info doc.
Proof.
  unfold Parser.convertToInternalFormat.
  destruct (d_paths doc); [|discriminate]. now intros [= <-].
Qed.

Lemma convertToInternalFormat_returns doc :
  d_paths doc <> None -> is_Some (Parser.convertToInternalFormat doc).
Proof.
  unfold Parser.convertToInternalFormat.
  destruct (d_paths doc); [eauto | congruence].
Qed.

Lemma startsWith_nonempty (str p : string) :
  p <> ""%string -> Js.startsWith str p = true -> str <> ""%string.
Proof.
  intros Hp H ->. destruct p; [congruence | discriminate].
Qed.

Lemma httpMethods_nonempty method :
  In method httpMethods -> method <> ""%string.
Proof.
  intros H ->. cbv in H. intuition discriminate.
Qed.

(** X17.  The single-document pipeline after the structural validator: a
    document of the declared shape that [validate] accepts and that has an
    operation under an
    HTTP method gets through [parse] and through [validateParsedSpec],
    and [generateServer] hands the tools of [generate] to code
    generation, under the given server name or else the title of the
    document. *)
Theorem generateServer_after_validate :
  forall (depth : nat) (doc : SwaggerSpec) (optServerName : option string),
    Validator.isValid (Validator.validate (Validator.rawSpec doc)) = true ->
    operationsOf doc <> [] ->
    exists spec specInfo,
      Parser.convertToInternalFormat doc = Some spec /\
      d_info doc = Some specInfo /\
      Main.generateServer depth doc optServerName
      = inr (Main.mkHandover (generate depth spec)
                             (Js.orElse optServerName (i_title specInfo))).
Proof.
  intros depth doc optServerName Hvalid Hops.
  apply ValidatorSound.validate_accepts in Hvalid
    as ((specInfo & Hinfo & Htitle & Hversion) &
        (paths & Hpaths & _ & Hall) & _).
  destruct (convertToInternalFormat_returns doc) as [spec Hspec];
    [congruence|].
  exists spec, specInfo. split; [exact Hspec|]. split; [exact Hinfo|].
  pose proof (convertToInternalFormat_info _ _ Hspec) as Hi.
  pose proof (convertToInternalFormat_endpoints _ _ Hspec) as He.
  assert (Hok : Validator.isValid (Validator.validateParsedSpec spec) = true).
  { apply PipelineFacts.validateParsedSpec_accepts. split; [|split].
    - exists specInfo. rewrite Hi. now repeat split.
    - rewrite He. intros Hnil. apply map_eq_nil in Hnil. contradiction.
    - intros endpoint Hin. rewrite He in Hin.
      apply in_map_iff in Hin as ([[path method] operation] & <- & Hin).
      cbn [fst snd].
      apply operationsOf_In in Hin as (Hv & ps & pathItem & Hp & Hi' & Ho).
      assert (ps = paths) by congruence. subst ps.
      destruct (Hall _ Hi') as [Hstart Hsound]. cbn [fst snd] in *.
      destruct (Hsound method operation Ho Hv) as [Hresp _].
      unfold Parser.endpointOf. cbn. split; [|split].
      + eapply startsWith_nonempty; [|exact Hstart]. discriminate.
      + now apply httpMethods_nonempty, valid_method_upper.
      + exact Hresp. }
  unfold Main.generateServer, Main.parse. rewrite Hspec, Hi, Hinfo, Hok.
  reflexivity.
Qed.

Lemma batchLoop_all depth docs :
  (forall doc, In doc docs -> d_paths doc <> None /\ d_info doc <> None) ->
  forall tools,
    Main.batchLoop depth docs tools
    = inr (tools ++ flat_map (toolsOfDocument depth) docs).
Proof.
  induction docs as [|doc docs IH]; intros Hall tools.
  - simpl. now rewrite app_nil_r.
  - destruct (Hall doc (or_introl eq_refl)) as [Hpaths Hinfo].
    destruct (convertToInternalFormat_returns doc Hpaths) as [spec Hspec].
    cbn [Main.batchLoop]. unfold Main.parse. rewrite Hspec.
    rewrite (convertToInternalFormat_info _ _ Hspec).
    destruct (d_info doc); [|congruence].
    rewrite IH by (intros d Hd; apply Hall; now right).
    rewrite flat_map_step. unfold toolsOfDocument at 2. rewrite Hspec.
    now rewrite app_assoc.
Qed.

(** X18.  The batch pipeline does not reject a document that fails
    [validateParsedSpec]: whenever every document has [paths] and [info],
    [generateBatchServer] hands to code generation the tools of all the
    documents, document after document, each as [generate] gives them,
    under the given server name or else [Combined MCP Server]. *)
Theorem generateBatchServer_hands_over_all_tools :
  forall (depth : nat) (docs : list SwaggerSpec)
         (optServerName : option string),
    (forall doc, In doc docs -> d_paths doc <> None /\ d_info doc <> None) ->
    Main.generateBatchServer depth docs optServerName
    = inr (Main.mkHandover
             (flat_map (toolsOfDocument depth) docs)
             (Js.orElse optServerName (Some "Combined MCP Server"%string))).
Proof.
  intros depth docs optServerName Hall.
  unfold Main.generateBatchServer. now rewrite (batchLoop_all _ _ Hall).
Qed.

(** ** Generated operation ids *)

Lemma isUnderscore_char c :
  isUnderscore c = true -> c = "_"%char.
Proof. unfold isUnderscore. apply Ascii.eqb_eq. Qed.














(** ** Identifiers in the generated code *)

Lemma replaced_identifierChars str :
  allChars TemplateUtils.isIdentifierChar
    (Js.replaceChars (fun c => negb (TemplateUtils.isIdentifierChar c))
                     (fun _ => "_"%string) str)
  = true.
Proof.
  induction str as [|c r IH]; [reflexivity|].
  cbn [Js.replaceChars]. rewrite allChars_app, IH, andb_true_r.
  destruct (TemplateUtils.isIdentifierChar c) eqn:E; cbn [negb allChars];
    [now rewrite E | reflexivity].
Qed.

Lemma replaceChars_fixed cls f str :
  allChars (fun c => negb (cls c)) str = true ->
  Js.replaceChars cls f str = str.
Proof.
  induction str as [|c r IH]; [reflexivity|].
  cbn [Js.replaceChars allChars]. intros H.
  apply andb_true_iff in H as [Hc Hr].
  apply negb_true_iff in Hc. now rewrite Hc, (IH Hr).
Qed.

Lemma allChars_ext test1 test2 str :
  (forall c, test1 c = test2 c) -> allChars test1 str = allChars test2 str.
Proof.
  intros H. induction str as [|c r IH]; [reflexivity|].
  cbn [allChars]. now rewrite H, IH.
Qed.

(** X20.  The template helper [toValidIdentifier] turns every name that
    is not empty into a text that is not empty, has only letters, digits,
    underscores and dollar signs, and does not start with a digit; and it
    leaves its own results as they are. *)
Theorem toValidIdentifier_identifier :
  forall name : string,
    name <> ""%string ->
    TemplateUtils.toValidIdentifier name <> ""%string /\
    allChars TemplateUtils.isIdentifierChar
             (TemplateUtils.toValidIdentifier name) = true /\
    startsWithDigit (TemplateUtils.toValidIdentifier name) = false /\
    TemplateUtils.toValidIdentifier (TemplateUtils.toValidIdentifier name)
    = TemplateUtils.toValidIdentifier name.
Proof.
  intros name Hname.
  assert (Hid :
            forall s,
              allChars TemplateUtils.isIdentifierChar s = true ->
              startsWithDigit s = false ->
              TemplateUtils.toValidIdentifier s = s).
  { intros s Hall Hdigit. unfold TemplateUtils.toValidIdentifier.
    rewrite replaceChars_fixed.
    - destruct s as [|c r]; [reflexivity|]. simpl in Hdigit.
      now rewrite Hdigit.
    - rewrite <- Hall. apply allChars_ext. intros c. apply negb_involutive. }
  assert (Hfacts :
            TemplateUtils.toValidIdentifier name <> ""%string /\
            allChars TemplateUtils.isIdentifierChar
                     (TemplateUtils.toValidIdentifier name) = true /\
            startsWithDigit (TemplateUtils.toValidIdentifier name) = false).
  { unfold TemplateUtils.toValidIdentifier.
    pose proof (replaced_identifierChars name) as Hall.
    pose proof (replaceChars_length
                  (fun c => negb (TemplateUtils.isIdentifierChar c))
                  (fun _ => "_"%string) name (fun _ _ => le_n 1)) as Hlen.
    destruct (Js.replaceChars _ _ name) as [|c r] eqn:E.
    - destruct name; [congruence | simpl in Hlen; lia].
    - destruct (Js.isDigit c) eqn:Ed.
      + split; [discriminate|]. split; [|reflexivity].
        cbn [allChars] in Hall |- *. now rewrite Hall.
      + split; [discriminate|]. split; [exact Hall | exact Ed]. }
  destruct Hfacts as (Hne & Hall & Hdigit).
  split; [exact Hne|]. split; [exact Hall|]. split; [exact Hdigit|].
  now apply Hid.
Qed.

(** ** What holds of every property of an input schema *)

Section Every.
Variable P : FlatProperty -> Prop.
Hypothesis P_convert :
  forall schema paramName paramDescription,
    P (convertSchemaToZod schema paramName paramDescription).
Hypothesis P_flattened :
  forall parentName prefix propName fp,
    P fp ->
    P (mark_flattened (originalPathOf parentName prefix propName) parentName
                      fp).
Hypothesis P_path : forall fp, P fp -> P (mark_path fp).
Hypothesis P_query : forall fp, P fp -> P (mark_query fp).
Hypothesis P_header : forall fp, P fp -> P (mark_header fp).
Hypothesis P_body : forall fp, P fp -> P (mark_body fp).

Lemma every_store name fp acc :
  P fp -> everyProperty P acc -> everyProperty P (store name fp acc).
Proof.
  intros Hfp Hacc k fp' Hin. simpl in Hin.
  apply in_set in Hin as [[= -> ->] | Hin]; [exact Hfp | eapply Hacc, Hin].
Qed.

Lemma every_absorb acc r :
  everyProperty P acc -> everyProperty P r -> everyProperty P (absorb acc r).
Proof.
  intros Hacc Hr k fp Hin. simpl in Hin.
  apply in_assign in Hin as [Hin | Hin]; [eapply Hacc | eapply Hr]; exact Hin.
Qed.

Lemma every_flattenNestedObject depth spec parentName :
  forall schema prefix r,
    flattenNestedObject depth schema spec parentName prefix = Some r ->
    everyProperty P r.
Proof.
  induction depth as [|d IH]; intros schema prefix r; [discriminate|].
  rewrite flattenNestedObject_eq.
  destruct (s_properties schema) as [props|];
    [|intros [= <-] k fp []].
  intros Hloop.
  refine (forEachM_invariant _ (fun _ acc => everyProperty P acc)
            props _ [] noneExtracted r _ Hloop);
    [| intros k fp []].
  intros done [p ps] acc acc' _ Hacc Hstep.
  unfold flattenStep in Hstep.
  destruct (isNestedObject (resolveOrSelf ps spec)).
  - destruct (flattenNestedObject d (resolveOrSelf ps spec) spec parentName
                (flattenedNameOf parentName prefix p)) as [nested|] eqn:En;
      [|discriminate].
    injection Hstep as <-. apply every_absorb; [exact Hacc|].
    eapply IH, En.
  - injection Hstep as <-.
    assert (everyProperty P
              (store (flattenedNameOf parentName prefix p)
                 (mark_flattened (originalPathOf parentName prefix p)
                    parentName
                    (convertSchemaToZod (Some (resolveOrSelf ps spec))
                       (Some (flattenedNameOf parentName prefix p))
                       (s_description (resolveOrSelf ps spec))))
                 acc)) as Hstored.
    { apply every_store; [|exact Hacc]. apply P_flattened, P_convert. }
    destruct (listedRequired schema p); exact Hstored.
Qed.

Lemma every_flattenInto d schema spec propName acc r :
  everyProperty P acc ->
  flattenInto d schema spec propName acc = Some r -> everyProperty P r.
Proof.
  intros Hacc. unfold flattenInto.
  destruct (flattenNestedObject d schema spec propName "") as [f|] eqn:E;
    [|discriminate].
  intros [= <-]. apply every_absorb; [exact Hacc|].
  eapply every_flattenNestedObject, E.
Qed.

Lemma every_extractStep d spec acc entry r :
  everyProperty P acc -> extractStep d spec acc entry = Some r ->
  everyProperty P r.
Proof.
  intros Hacc. destruct entry as [p ps]. unfold extractStep.
  repeat match goal with
         | |- context [if ?c then _ else _] => destruct c
         | |- context [match ?o with Some _ => _ | None => _ end] =>
             destruct o
         end;
    try (apply every_flattenInto; exact Hacc);
    intros [= <-]; (apply every_store; [|exact Hacc]);
    first [apply P_convert | exact (P_convert (Some _) None _)].
Qed.

Lemma every_extractSchemaProperties depth spec :
  forall schema r,
    extractSchemaProperties depth schema spec = Some r -> everyProperty P r.
Proof.
  induction depth as [|d IH]; intros schema r; [discriminate|].
  rewrite extractSchemaProperties_eq.
  destruct (resolvedRef schema spec) as [s'|]; [apply IH|].
  assert (Hloop : forall props acc,
             forEachM (extractStep d spec) props noneExtracted = Some acc ->
             everyProperty P acc).
  { intros props acc H.
    refine (forEachM_invariant _ (fun _ a => everyProperty P a)
              props _ [] noneExtracted acc _ H); [| intros k fp []].
    intros done x a a' _ Ha Hstep. eapply every_extractStep; eassumption. }
  destruct (s_properties (resolveSchemaComposition schema spec)) as [props|].
  - destruct (forEachM (extractStep d spec) props noneExtracted) as [acc|]
      eqn:E; [|discriminate].
    intros [= <-] k fp Hin. apply (Hloop _ _ E k fp).
    now destruct (s_required (resolveSchemaComposition schema spec)).
  - intros [= <-] k fp Hin.
    destruct (s_required (resolveSchemaComposition schema spec));
      now destruct Hin.
Qed.

Lemma every_addBody body bodyRequired acc :
  everyProperty P body -> everyProperty P acc ->
  everyProperty P (addBody body bodyRequired acc).
Proof.
  intros Hbody Hacc. unfold addBody.
  assert (everyProperty P
            (fold_left (fun a (entry : string * FlatProperty) =>
                          store (fst entry) (mark_body (snd entry)) a)
                       (ex_properties body) acc)) as H.
  { apply fold_left_invariant; [|exact Hacc].
    intros a [k fp] Hin Ha. apply every_store; [|exact Ha].
    apply P_body. eapply Hbody, Hin. }
  destruct (isTrue bodyRequired); exact H.
Qed.

Lemma every_generateInputSchema depth endpoint spec inputSchema :
  generateInputSchema depth endpoint spec = Some inputSchema ->
  forall k fp, In (k, fp) (is_properties inputSchema) -> P fp.
Proof.
  unfold generateInputSchema.
  set (acc1 := fold_left _ (e_parameters endpoint) noneExtracted).
  set (acc2 := fold_left _ (e_parameters endpoint) acc1).
  set (acc3 := fold_left _ (e_parameters endpoint) acc2).
  assert (H1 : everyProperty P acc1).
  { apply fold_left_invariant; [|intros k fp []].
    intros a param _ Ha. destruct (String.eqb (p_in param) "path"); [|exact Ha].
    assert (everyProperty P (store (p_name param)
                                   (mark_path (paramProperty param)) a)) as Hs
        by (apply every_store; [apply P_path, P_convert | exact Ha]).
    exact Hs. }
  assert (H2 : everyProperty P acc2).
  { apply fold_left_invariant; [|exact H1].
    intros a param _ Ha. destruct (String.eqb (p_in param) "query"); [|exact Ha].
    assert (everyProperty P (store (p_name param)
                                   (mark_query (paramProperty param)) a)) as Hs
        by (apply every_store; [apply P_query, P_convert | exact Ha]).
    destruct (isTrue (p_required param)); exact Hs. }
  assert (H3 : everyProperty P acc3).
  { apply fold_left_invariant; [|exact H2].
    intros a param _ Ha. destruct (String.eqb (p_in param) "header"); [|exact Ha].
    destruct (negb (isSignatureHeader param)); [|exact Ha].
    assert (everyProperty P (store (p_name param)
                                   (mark_header (paramProperty param)) a))
      as Hs
        by (apply every_store; [apply P_header, P_convert | exact Ha]).
    destruct (isTrue (p_required param)); exact Hs. }
  clearbody acc3. clear acc1 acc2 H1 H2.
  match goal with
  | |- match match ?body3 with Some _ => _ | None => _ end with _ => _ end = _
       -> _ => destruct body3 as [acc4|] eqn:E4
  end; [|discriminate].
  assert (H4 : everyProperty P acc4).
  { destruct (e_requestBody endpoint) as [rb|]; [|now injection E4 as <-].
    destruct (rb_content rb) as [content|]; [|now injection E4 as <-].
    destruct (JsObj.get "application/json" content) as [json|];
      [|now injection E4 as <-].
    destruct (mt_schema json) as [schema|]; [|now injection E4 as <-].
    destruct (extractSchemaProperties depth schema spec) as [body|] eqn:Eb;
      [|discriminate].
    injection E4 as <-. apply every_addBody; [|exact H3].
    eapply every_extractSchemaProperties, Eb. }
  match goal with
  | |- match ?loop with Some _ => _ | None => _ end = _ -> _ =>
      destruct loop as [acc5|] eqn:E5
  end; [|discriminate].
  assert (H5 : everyProperty P acc5).
  { refine (forEachM_invariant _ (fun _ a => everyProperty P a)
              (e_parameters endpoint) _ [] acc4 acc5 H4 E5).
    intros done param a a' _ Ha.
    destruct (String.eqb (p_in param) "body"); [|now intros [= <-]].
    destruct (p_schema param) as [schema|]; [|now intros [= <-]].
    destruct (extractSchemaProperties depth schema spec) as [body|] eqn:Eb;
      [|discriminate].
    intros [= <-]. apply every_addBody; [|exact Ha].
    eapply every_extractSchemaProperties, Eb. }
  intros [= <-]. exact H5.
Qed.
End Every.

Lemma wellFormed_marked fp :
  WellFormedProperty fp ->
  WellFormedProperty (mark_path fp) /\ WellFormedProperty (mark_query fp) /\
  WellFormedProperty (mark_header fp) /\ WellFormedProperty (mark_body fp) /\
  forall path parent, WellFormedProperty (mark_flattened path parent fp).
Proof.
  intros H. inversion H as [fp' Htype Hdesc Hitems Heq]. subst fp'.
  destruct fp; simpl in *.
  split; [now constructor|]. split; [now constructor|].
  split; [now constructor|]. split; [now constructor|].
  intros path parent. now constructor.
Qed.

(** X21.  Every property of every input schema, whether it comes from a
    parameter or from the request body, flattened or not, is well formed:
    its type is one of [number], [boolean], [array], [object], [string],
    its description is not empty, and it has [items] only as an array. *)
Theorem inputSchema_properties_wellFormed :
  forall (depth : nat) (endpoint : ApiEndpoint) (spec : ParsedApiSpec)
         (inputSchema : InputSchema),
    generateInputSchema depth endpoint spec = Some inputSchema ->
    forall k fp, In (k, fp) (is_properties inputSchema) ->
                 WellFormedProperty fp.
Proof.
  intros depth endpoint spec inputSchema.
  apply (every_generateInputSchema WellFormedProperty).
  - intros [schema|] paramName paramDescription; simpl.
    + apply convertSchema_wellFormed.
    + constructor; simpl;
        [unfold zodTypes; simpl; tauto
        | now apply orElse_default_nonempty | discriminate].
  - intros parentName prefix propName fp H.
    now apply (wellFormed_marked fp H).
  - intros fp H. now apply (wellFormed_marked fp H).
  - intros fp H. now apply (wellFormed_marked fp H).
  - intros fp H. now apply (wellFormed_marked fp H).
  - intros fp H. now apply (wellFormed_marked fp H).
Qed.

Lemma metadata_marked fp :
  MetadataComplete fp ->
  MetadataComplete (mark_path fp) /\ MetadataComplete (mark_query fp) /\
  MetadataComplete (mark_header fp) /\ MetadataComplete (mark_body fp).
Proof.
  unfold MetadataComplete, rootedAt. destruct fp; simpl. tauto.
Qed.

(** X22.  The reconstruction metadata of every property of every input
    schema is complete or absent: a flattened property names its parent
    object and has an original path that starts with that name and a dot;
    a property that is not flattened has neither a parent object nor an
    original path. *)
Theorem inputSchema_metadata_complete :
  forall (depth : nat) (endpoint : ApiEndpoint) (spec : ParsedApiSpec)
         (inputSchema : InputSchema),
    generateInputSchema depth endpoint spec = Some inputSchema ->
    forall k fp, In (k, fp) (is_properties inputSchema) ->
                 MetadataComplete fp.
Proof.
  intros depth endpoint spec inputSchema.
  apply (every_generateInputSchema MetadataComplete).
  - intros [schema|] paramName paramDescription; right;
      [destruct schema|]; now repeat split.
  - intros parentName prefix propName fp _. left. exists parentName.
    apply mark_flattened_rootedAt.
  - intros fp H. now apply (metadata_marked fp H).
  - intros fp H. now apply (metadata_marked fp H).
  - intros fp H. now apply (metadata_marked fp H).
  - intros fp H. now apply (metadata_marked fp H).
Qed.

(** ** Body properties and parameters of the same name *)

Lemma get_In {V : Type} (k : string) (v : V) (o : list (string * V)) :
  JsObj.get k o = Some v -> In (k, v) o.
Proof.
  induction o as [|[k0 v0] r IH]; simpl; [discriminate|].
  destruct (String.eqb k k0) eqn:E.
  - apply String.eqb_eq in E as ->. intros [= ->]. now left.
  - intros H. right. now apply IH.
Qed.

Lemma mark_body_isBodyParam fp : isBodyParam (mark_body fp) = true.
Proof. now destruct fp. Qed.

Lemma bodyAt_store k name fp acc :
  bodyAt k acc -> bodyAt k (store name (mark_body fp) acc).
Proof.
  intros (fp0 & Hget & Hbody). unfold bodyAt. simpl. rewrite get_set.
  destruct (String.eqb k name).
  - eexists. split; [reflexivity | apply mark_body_isBodyParam].
  - now exists fp0.
Qed.

Lemma bodyAt_fold k (l : list (string * FlatProperty)) acc :
  bodyAt k acc ->
  bodyAt k (fold_left (fun a (entry : string * FlatProperty) =>
                         store (fst entry) (mark_body (snd entry)) a)
                      l acc).
Proof.
  revert acc. induction l as [|[k1 v1] l IH]; intros acc H; [exact H|].
  simpl. apply IH, bodyAt_store, H.
Qed.

Lemma bodyAt_fold_In k (l : list (string * FlatProperty)) acc :
  In k (JsObj.keys l) ->
  bodyAt k (fold_left (fun a (entry : string * FlatProperty) =>
                         store (fst entry) (mark_body (snd entry)) a)
                      l acc).
Proof.
  revert acc. induction l as [|[k1 v1] l IH]; intros acc; [intros []|].
  intros [Hk | Hk]; simpl.
  - simpl in Hk. subst k1. apply bodyAt_fold. unfold bodyAt. simpl.
    rewrite get_set, String.eqb_refl.
    eexists. split; [reflexivity | apply mark_body_isBodyParam].
  - now apply IH.
Qed.

Lemma bodyAt_addBody k body bodyRequired acc :
  bodyAt k acc \/ In k (JsObj.keys (ex_properties body)) ->
  bodyAt k (addBody body bodyRequired acc).
Proof.
  intros H. unfold addBody.
  assert (bodyAt k
            (fold_left (fun a (entry : string * FlatProperty) =>
                          store (fst entry) (mark_body (snd entry)) a)
                       (ex_properties body) acc)) as Hfold.
  { destruct H as [H | H]; [now apply bodyAt_fold | now apply bodyAt_fold_In]. }
  destruct (isTrue bodyRequired); exact Hfold.
Qed.

Lemma bodyAt_forEachM depth spec k bodies :
  forall acc0 acc,
    forEachM (extractBody depth spec) bodies acc0 = Some acc ->
    bodyAt k acc0 \/
    (exists body b,
        In body bodies /\
        extractSchemaProperties depth (fst body) spec = Some b /\
        In k (JsObj.keys (ex_properties b))) ->
    bodyAt k acc.
Proof.
  induction bodies as [|x bodies IH]; intros acc0 acc; simpl.
  - intros [= <-] [H | (body & b & [] & _)]. exact H.
  - unfold extractBody at 1.
    destruct (extractSchemaProperties depth (fst x) spec) as [bx|] eqn:Ex;
      [|discriminate].
    intros Hrest H. apply (IH _ _ Hrest).
    destruct H as [H | (body & b & [<- | Hin] & Hb & Hk)].
    + left. apply bodyAt_addBody. now left.
    + left. apply bodyAt_addBody. right. congruence.
    + right. now exists body, b.
Qed.

(** X23.  A property of the request body takes the place of a parameter of
    the same name: whatever a body schema of the endpoint yields under a
    key, the input schema has under that key a property marked as a body
    property and as nothing else, also when a path, query or header
    parameter has that name. *)
Theorem body_properties_shadow_parameters :
  forall (depth : nat) (endpoint : ApiEndpoint) (spec : ParsedApiSpec)
         (inputSchema : InputSchema) (body : Schema * option bool)
         (bodyProperties : Extracted) (k : string),
    generateInputSchema depth endpoint spec = Some inputSchema ->
    In body (bodySchemas endpoint) ->
    extractSchemaProperties depth (fst body) spec = Some bodyProperties ->
    In k (JsObj.keys (ex_properties bodyProperties)) ->
    exists fp,
      JsObj.get k (is_properties inputSchema) = Some fp /\
      isBodyParam fp = true /\
      isPathParam fp = false /\ isQueryParam fp = false /\
      isHeaderParam fp = false.
Proof.
  intros depth endpoint spec inputSchema body b k Hgen Hin Hb Hk.
  pose proof (generateInputSchema_oneFlagEach _ _ _ _ Hgen) as Hflags.
  destruct (generateInputSchema_bodies endpoint spec) as [acc0 Hbodies].
  rewrite Hbodies in Hgen.
  destruct (forEachM (extractBody depth spec) (bodySchemas endpoint) acc0)
    as [acc|] eqn:Eloop; [|discriminate].
  injection Hgen as <-. cbn [is_properties] in *.
  destruct (bodyAt_forEachM depth spec k _ _ _ Eloop) as (fp & Hget & Hbody).
  { right. now exists body, b. }
  exists fp. split; [exact Hget|]. split; [exact Hbody|].
  specialize (Hflags k fp (get_In _ _ _ Hget)).
  unfold flagCount in Hflags. rewrite Hbody in Hflags.
  destruct (isPathParam fp), (isQueryParam fp), (isHeaderParam fp);
    simpl in Hflags; try discriminate Hflags; now repeat split.
Qed.

(** ** Composition by [anyOf] *)


(** ** Where extracted names come from *)

Lemma nameBase_outermost parentName : nameBase parentName "" = parentName.
Proof. reflexivity. Qed.

Lemma flattenInto_keys d schema spec propName acc r :
  flattenInto d schema spec propName acc = Some r ->
  forall k, In k (JsObj.keys (ex_properties r)) ->
            In k (JsObj.keys (ex_properties acc)) \/
            String.prefix (propName ++ "_") k = true.
Proof.
  unfold flattenInto.
  destruct (flattenNestedObject d schema spec propName "") as [f|] eqn:E;
    [|discriminate].
  intros [= <-] k Hk. apply keys_In in Hk as [v Hin]. simpl in Hin.
  apply in_assign in Hin as [Hin | Hin].
  - left. apply keys_In. now exists v.
  - right. destruct (flattenNestedObject_names _ _ _ _ _ _ E) as [Hkeys _].
    rewrite nameBase_outermost in Hkeys. apply Hkeys, keys_In. now exists v.
Qed.

Lemma extractStep_keys d spec acc p ps r :
  extractStep d spec acc (p, ps) = Some r ->
  forall k, In k (JsObj.keys (ex_properties r)) ->
            In k (JsObj.keys (ex_properties acc)) \/
            k = p \/ String.prefix (p ++ "_") k = true.
Proof.
  unfold extractStep.
  repeat match goal with
         | |- context [if ?c then _ else _] => destruct c
         | |- context [match ?o with Some _ => _ | None => _ end] =>
             destruct o
         end;
    try (intros H k Hk; destruct (flattenInto_keys _ _ _ _ _ _ H k Hk);
         [now left | right; now right]);
    intros [= <-] k Hk; simpl in Hk; apply keys_set in Hk as [-> | Hk];
    first [now left | right; now left].
Qed.

Lemma extract_loop_keys d spec props r :
  forEachM (extractStep d spec) props noneExtracted = Some r ->
  forall k, In k (JsObj.keys (ex_properties r)) ->
            exists p ps, In (p, ps) props /\
                         (k = p \/ String.prefix (p ++ "_") k = true).
Proof.
  intros Hloop.
  refine (forEachM_invariant _
            (fun done acc =>
               forall k, In k (JsObj.keys (ex_properties acc)) ->
                         exists p ps, In (p, ps) done /\
                                      (k = p \/
                                       String.prefix (p ++ "_") k = true))
            props _ [] noneExtracted r _ Hloop);
    [| intros k []].
  intros done [p ps] acc acc' _ Hacc Hstep k Hk.
  destruct (extractStep_keys _ _ _ _ _ _ Hstep k Hk) as [Hold | Hnew].
  - destruct (Hacc k Hold) as (p0 & ps0 & Hin & H).
    exists p0, ps0. split; [apply in_or_app; now left | exact H].
  - exists p, ps. split; [apply in_or_app; right; now left | exact Hnew].
Qed.

(** X25.  Every property that [extractSchemaProperties] returns comes
    from a top-level property of the schema at the end of the chain of
    [$ref]s, after composition: its key is the name of that property, or
    extends it by an underscore and more. *)
Theorem extracted_keys_come_from_properties :
  forall (depth : nat) (schema : Schema) (spec : ParsedApiSpec)
         (r : Extracted),
    extractSchemaProperties depth schema spec = Some r ->
    exists body,
      RefChain spec schema body /\
      forall k,
        In k (JsObj.keys (ex_properties r)) ->
        exists p ps,
          In (p, ps) (propertiesOf (resolveSchemaComposition body spec)) /\
          (k = p \/ String.prefix (p ++ "_") k = true).
Proof.
  induction depth as [|d IH]; intros schema spec r; [discriminate|].
  rewrite extractSchemaProperties_eq.
  destruct (resolvedRef schema spec) as [s'|] eqn:Eref.
  - intros H. destruct (IH _ _ _ H) as (body & Hchain & Hkeys).
    exists body. split; [|exact Hkeys].
    eapply RefChain_step; eassumption.
  - intros H. exists schema. split; [now apply RefChain_end|].
    unfold propertiesOf.
    destruct (s_properties (resolveSchemaComposition schema spec))
      as [props|].
    + destruct (forEachM (extractStep d spec) props noneExtracted)
        as [acc|] eqn:Eloop; [|discriminate].
      injection H as <-. intros k Hk.
      apply (extract_loop_keys _ _ _ _ Eloop).
      now destruct (s_required (resolveSchemaComposition schema spec)).
    + injection H as <-. intros k Hk.
      now destruct (s_required (resolveSchemaComposition schema spec)).
Qed.

(** ** Tool names made from the path *)





(** ** The further properties at sample inputs *)

Lemma toysEndpoint_bodyless : bodyless toysEndpoint.
Proof.
  split; [reflexivity|].
  intros param Hin. cbn in Hin.
  destruct Hin as [<- | [<- | [<- | [<- | []]]]]; discriminate.
Defined.

Lemma inputSchema_one_flag_each_witness :
  generateInputSchema 0 toysEndpoint toysSpec = Some toysInputSchema /\
  exists fp, In ("id"%string, fp) (is_properties toysInputSchema) /\
             flagCount fp = 1.
Proof.
  split; [reflexivity|].
  eexists. split; [left; reflexivity|].
  apply (inputSchema_one_flag_each 0 toysEndpoint toysSpec toysInputSchema
           eq_refl "id"%string).
  left. reflexivity.
Defined.



Lemma signature_header_hidden_witness :
  bodyless toysEndpoint /\
  generateInputSchema 0 toysEndpoint toysSpec = Some toysInputSchema /\
  ~ In "X-Payload-Signature"%string
       (JsObj.keys (is_properties toysInputSchema)) /\
  exists h, In h (headerParamsOf toysEndpoint) /\
            h_name h = "X-Payload-Signature"%string.
Proof.
  split; [exact toysEndpoint_bodyless|]. split; [reflexivity|].
  apply (signature_header_hidden 0 toysEndpoint toysSpec toysInputSchema
           signatureParameter toysEndpoint_bodyless eq_refl).
  - right. right. right. left. reflexivity.
  - reflexivity.
  - reflexivity.
  - intros other Hin Hname. cbn in Hin.
    destruct Hin as [<- | [<- | [<- | [<- | []]]]];
      try discriminate Hname; reflexivity.
Defined.


Lemma tools_avoid_login_and_token_paths_witness :
  In toysTool (generate 0 toysSpec) /\
  exists endpoint,
    In endpoint (endpoints toysSpec) /\
    JsObj.get "path" toysTool = Some (TString (e_path endpoint)) /\
    Js.includes (Js.toLowerCase (e_path endpoint)) "/login" = false /\
    Js.includes (Js.toLowerCase (e_path endpoint)) "/token" = false.
Proof.
  assert (Hin : In toysTool (generate 0 toysSpec))
    by (vm_compute; left; reflexivity).
  split; [exact Hin|].
  apply (tools_avoid_login_and_token_paths 0 toysSpec toysTool Hin).
Defined.

Lemma authentication_shape_witness :
  generateAuthenticationSpec securedEndpoint securedSpec = Some securedAuth /\
  exists securityReq schemeName scheme,
    (hd_error (default [] (e_security securedEndpoint)) = Some securityReq \/
     default [] (e_security securedEndpoint) = [] /\
     hd_error (default [] (globalSecurity securedSpec)) = Some securityReq) /\
    hd_error (JsObj.keys securityReq) = Some schemeName /\
    schemeName <> ""%string /\
    JsObj.get schemeName (securitySchemes securedSpec) = Some scheme /\
    ((a_type securedAuth = "apiKey"%string /\
      sc_type scheme = Some "apiKey"%string /\
      a_location securedAuth = sc_in scheme /\
      Js.truthy (a_name securedAuth) = true /\
      a_envVariable securedAuth
      = (Js.toUpperCase schemeName ++ "_API_KEY")%string) \/
     (a_type securedAuth = "bearer"%string /\
      sc_type scheme = Some "http"%string /\
      sc_scheme scheme = Some "bearer"%string /\
      a_envVariable securedAuth
      = (Js.toUpperCase schemeName ++ "_TOKEN")%string) \/
     (a_type securedAuth = "basic"%string /\
      sc_type scheme = Some "http"%string /\
      sc_scheme scheme = Some "basic"%string /\
      a_envVariable securedAuth
      = (Js.toUpperCase schemeName ++ "_CREDENTIALS")%string) \/
     (a_type securedAuth = "oauth2"%string /\
      sc_type scheme = Some "oauth2"%string /\
      a_envVariable securedAuth
      = (Js.toUpperCase schemeName ++ "_ACCESS_TOKEN")%string)).
Proof.
  split; [reflexivity|].
  apply (authentication_shape securedEndpoint securedSpec securedAuth eq_refl).
Defined.

Lemma generate_complete_when_acyclic_witness :
  Acyclic ownersSpec chainRank /\
  exists depth tools,
    (forall depth', depth <= depth' -> generate depth' ownersSpec = tools) /\
    map (JsObj.get "name") tools
    = map (fun endpoint => Some (TString (generateToolName endpoint)))
          (List.filter
             (fun endpoint => negb (isAuthenticationEndpoint endpoint))
             (endpoints ownersSpec)).
Proof.
  assert (Hacyclic : Acyclic ownersSpec chainRank).
  { intros name s Hlookup. unfold ownersSpec, chainSpec, registryOnly in Hlookup.
    cbn [schemas] in Hlookup.
    apply lookup_insert_Some in Hlookup as [[<- <-] | [_ Hlookup]].
    - intros ref name' Hin Href _. cbv in Hin.
      destruct Hin as [<- | []].
      destruct Href as [Href | Href]; cbv in Href;
        [injection Href as <- | discriminate Href].
      cbv. lia.
    - apply lookup_singleton_Some in Hlookup as [_ <-].
      intros ref name' Hin. cbv in Hin. destruct Hin. }
  split; [exact Hacyclic|].
  apply (generate_complete_when_acyclic ownersSpec chainRank Hacyclic).
Defined.

Lemma synthesized_tool_validates_witness :
  generateMcpTool 0 toysEndpoint toysSpec = Some toysTool /\
  Validator.v_warnings (Validator.validateMcpTool toysTool) = [] /\
  Validator.v_suggestions (Validator.validateMcpTool toysTool) = [] /\
  (Validator.isValid (Validator.validateMcpTool toysTool) = true <->
   e_operationId toysEndpoint <> Some "_"%string /\
   e_method toysEndpoint <> ""%string /\
   e_path toysEndpoint <> ""%string).
Proof.
  split; [reflexivity|].
  apply (synthesized_tool_validates 0 toysEndpoint toysSpec toysTool eq_refl).
Defined.

Lemma validateSpec_accepts_what_validate_accepts_witness :
  Validator.isValid (Validator.validate (Validator.rawSpec petStoreDoc)) = true /\
  Parser.validateSpec petStoreDoc = Some (Parser.mkSpecCheck true []).
Proof.
  split; [reflexivity|].
  apply (validateSpec_accepts_what_validate_accepts petStoreDoc eq_refl).
Defined.

Lemma parsed_endpoints_wellformed_witness :
  Parser.convertToInternalFormat swagger2Doc = Some swagger2Spec /\
  endpoints swagger2Spec
  = map (fun operation : string * string * Operation =>
           Parser.endpointOf (fst (fst operation)) (snd (fst operation))
                             (snd operation))
        (operationsOf swagger2Doc) /\
  forall endpoint,
    In endpoint (endpoints swagger2Spec) ->
    In (e_method endpoint) httpMethods /\
    e_operationId endpoint <> Some ""%string /\
    e_summary endpoint <> Some ""%string /\
    e_description endpoint <> Some ""%string /\
    exists paths pathItem method operation,
      d_paths swagger2Doc = Some paths /\
      In (e_path endpoint, pathItem) paths /\
      In (method, operation) pathItem /\
      Parser.isValidHttpMethod method = true /\
      endpoint = Parser.endpointOf (e_path endpoint) method operation /\
      e_method endpoint = Js.toUpperCase method /\
      e_parameters endpoint = default [] (o_parameters operation) /\
      e_requestBody endpoint = o_requestBody operation /\
      e_responses endpoint = o_responses operation /\
      e_security endpoint = o_security operation.
Proof.
  split; [reflexivity|].
  apply (parsed_endpoints_wellformed swagger2Doc swagger2Spec eq_refl).
Defined.

Lemma generateServer_after_validate_witness :
  Validator.isValid (Validator.validate (Validator.rawSpec petStoreDoc)) = true /\
  operationsOf petStoreDoc <> [] /\
  exists spec specInfo,
    Parser.convertToInternalFormat petStoreDoc = Some spec /\
    d_info petStoreDoc = Some specInfo /\
    Main.generateServer 1 petStoreDoc None
    = inr (Main.mkHandover (generate 1 spec)
                           (Js.orElse None (i_title specInfo))).
Proof.
  assert (Hops : operationsOf petStoreDoc <> []) by discriminate.
  split; [reflexivity|]. split; [exact Hops|].
  apply (generateServer_after_validate 1 petStoreDoc None eq_refl Hops).
Defined.

Lemma generateBatchServer_hands_over_all_tools_witness :
  Validator.isValid (Validator.validateParsedSpec
                       (default (registryOnly ∅)
                          (Parser.convertToInternalFormat
                             petStoreDocNoVersion))) = false /\
  Main.generateBatchServer 1 [petStoreDocNoVersion; swagger2Doc] None
  = inr (Main.mkHandover
           (flat_map (toolsOfDocument 1) [petStoreDocNoVersion; swagger2Doc])
           (Js.orElse None (Some "Combined MCP Server"%string))).
Proof.
  split; [reflexivity|].
  apply (generateBatchServer_hands_over_all_tools
           1 [petStoreDocNoVersion; swagger2Doc] None).
  intros doc [<- | [<- | []]]; split; discriminate.
Defined.

Lemma toValidIdentifier_identifier_witness :
  TemplateUtils.toValidIdentifier "2-X"
  = "_2_X"%string /\
  TemplateUtils.toValidIdentifier "2-X" <> ""%string /\
  allChars TemplateUtils.isIdentifierChar
           (TemplateUtils.toValidIdentifier "2-X") = true /\
  startsWithDigit (TemplateUtils.toValidIdentifier "2-X") = false /\
  TemplateUtils.toValidIdentifier (TemplateUtils.toValidIdentifier "2-X")
  = TemplateUtils.toValidIdentifier "2-X".
Proof.
  split; [reflexivity|].
  apply (toValidIdentifier_identifier "2-X"). discriminate.
Defined.

Lemma inputSchema_properties_wellFormed_witness :
  generateInputSchema 0 toysEndpoint toysSpec = Some toysInputSchema /\
  exists fp, In ("limit"%string, fp) (is_properties toysInputSchema) /\
             fp_type fp = "number"%string /\ WellFormedProperty fp.
Proof.
  split; [reflexivity|].
  eexists. split; [right; left; reflexivity|]. split; [reflexivity|].
  apply (inputSchema_properties_wellFormed 0 toysEndpoint toysSpec
           toysInputSchema eq_refl "limit"%string).
  right. left. reflexivity.
Defined.

Lemma inputSchema_metadata_complete_witness :
  exists inputSchema fp,
    generateInputSchema 3 ownersEndpoint ownersSpec = Some inputSchema /\
    In ("owner_address_city"%string, fp) (is_properties inputSchema) /\
    originalPath fp = Some "owner.address.city"%string /\
    MetadataComplete fp.
Proof.
  eexists. eexists. split; [vm_compute; reflexivity|].
  split; [right; left; reflexivity|]. split; [reflexivity|].
  eapply (inputSchema_metadata_complete 3 ownersEndpoint ownersSpec).
  - vm_compute. reflexivity.
  - right. left. reflexivity.
Defined.

Lemma body_properties_shadow_parameters_witness :
  exists inputSchema bodyProperties,
    generateInputSchema 2 shadowEndpoint (registryOnly ∅) = Some inputSchema /\
    In shadowBody (bodySchemas shadowEndpoint) /\
    extractSchemaProperties 2 (fst shadowBody) (registryOnly ∅)
    = Some bodyProperties /\
    In "id"%string (JsObj.keys (ex_properties bodyProperties)) /\
    is_required inputSchema = Some ["id"%string] /\
    exists fp,
      JsObj.get "id" (is_properties inputSchema) = Some fp /\
      isBodyParam fp = true /\
      isPathParam fp = false /\ isQueryParam fp = false /\
      isHeaderParam fp = false.
Proof.
  eexists. eexists.
  split; [vm_compute; reflexivity|]. split; [left; reflexivity|].
  split; [vm_compute; reflexivity|]. split; [left; reflexivity|].
  split; [reflexivity|].
  eapply (body_properties_shadow_parameters 2 shadowEndpoint (registryOnly ∅)
            _ shadowBody _ "id"%string).
  - vm_compute. reflexivity.
  - left. reflexivity.
  - vm_compute. reflexivity.
  - left. reflexivity.
Defined.


Lemma extracted_keys_come_from_properties_witness :
  exists r body,
    extractSchemaProperties 3 chainBody chainSpec = Some r /\
    JsObj.keys (ex_properties r)
    = ["owner_name"%string; "owner_address_city"%string] /\
    RefChain chainSpec chainBody body /\
    forall k,
      In k (JsObj.keys (ex_properties r)) ->
      exists p ps,
        In (p, ps) (propertiesOf (resolveSchemaComposition body chainSpec)) /\
        (k = p \/ String.prefix (p ++ "_") k = true).
Proof.
  destruct (extracted_keys_come_from_properties 3 chainBody chainSpec _
              eq_refl) as (body & Hchain & Hkeys).
  eexists. exists body. split; [reflexivity|]. split; [reflexivity|].
  split; [exact Hchain | exact Hkeys].
Defined.

